(** * fin_ops: trend aggregation, range resolution and archival

    A shallow embedding of

    - [backend/src/validation/expense.ts]   ([trendsQuerySchema]),
    - [backend/src/services/expenseService.ts] ([getTrends] and the three
      [process*Trends] aggregators),
    - [backend/src/services/archiveService.ts] ([archiveOldData],
      [archiveBatch], [restoreFromArchive], [getArchiveStats],
      [cleanupOldArchives]),
    - the rest of [ExpenseService] ([createExpense], [getExpenses],
      [getExpenseById], [updateExpense], [deleteExpense], [expenseExists]),
      with [expenseQuerySchema], [utils/errors.ts] and
      [ExpenseController.getExpenses],
    - the database under the calls of the two services that write to it
      ([Application]),

    followed by the properties of the specification that concern them and
    by further properties of the same code.

    Conventions.  A JS integer is a [Z]; a JS number that may be [NaN] after
    [parseInt] is an [option Z] ([None] is [NaN]); a JS [Number] holding an
    amount is a binary64 [float]; a [Prisma.Decimal] amount (DECIMAL(12,2))
    is its number of cents, a [Z]; a [Date] is its epoch time in
    milliseconds, a [Z]; a JS [Map] is an association list in insertion
    order; a database table is the list of its rows. *)

From Stdlib Require Import ZArith List Bool Arith Lia String Ascii.
From Stdlib Require Import Floats Uint63 QArith Permutation.
From Stdlib Require Import DecimalString DecimalFacts DecimalPos DecimalN DecimalZ.
Import ListNotations.

Local Open Scope Z_scope.

Set Implicit Arguments.

(* ===================================================================== *)
(** * JavaScript primitives used by the services *)
(* ===================================================================== *)

Module Js.

(** ** Strings: [String(n)], [padStart], [split], [parseInt] *)

(** [String(n)] for an integer [n]: decimal digits, a leading [-] when
    negative. *)
Definition String_of (n : Z) : string := NilZero.string_of_int (Z.to_int n).

(** [s.padStart(2, '0')]. *)
Definition padStart2 (s : string) : string :=
  match String.length s with
  | O => "00"
  | S O => String "0" s
  | _ => s
  end%string.

(** [s.split(sep)] for a one-character separator: every segment, the
    empty ones included. *)
Fixpoint split (sep : ascii) (s : string) : list string :=
  match s with
  | EmptyString => [EmptyString]
  | String c s' =>
      if Ascii.eqb c sep then EmptyString :: split sep s'
      else match split sep s' with
           | h :: t => String c h :: t
           | [] => [String c EmptyString]
           end
  end.

Definition is_digit (c : ascii) : bool :=
  ((48 <=? nat_of_ascii c) && (nat_of_ascii c <=? 57))%nat.

Fixpoint digit_prefix (s : string) : string :=
  match s with
  | EmptyString => EmptyString
  | String c s' => if is_digit c then String c (digit_prefix s') else EmptyString
  end.

(** The decimal value of the longest prefix of digits; [None] ([NaN])
    when the string does not start with a digit. *)
Definition parse_digits (s : string) : option Z :=
  match digit_prefix s with
  | EmptyString => None
  | d => option_map (fun u => Z.of_N (N.of_uint u)) (NilEmpty.uint_of_string d)
  end.

(** [parseInt(s)] on the strings the aggregators hand to it: an optional
    sign, then decimal digits, anything after them ignored.  (Leading white
    space and the [0x] prefix of [parseInt] never occur there: the
    segments of a key hold digits only, see [split_month_key].) *)
Definition parseInt (s : string) : option Z :=
  match s with
  | String "-" r => option_map Z.opp (parse_digits r)
  | String "+" r => parse_digits r
  | _ => parse_digits s
  end%char.

(** [s || d] on a possibly undefined string: the empty string is falsy. *)
Definition str_or (s : option string) (d : string) : string :=
  match s with
  | Some EmptyString | None => d
  | Some s' => s'
  end.

(** ** Numbers *)

(** Integer arithmetic of the sort comparators, on numbers that may be
    [NaN]. *)
Definition sub (a b : option Z) : option Z :=
  match a, b with
  | Some x, Some y => Some (x - y)
  | _, _ => None
  end.

(** [a || b] on numbers: [0] and [NaN] are falsy. *)
Definition num_or (a b : option Z) : option Z :=
  match a with
  | Some 0 | None => b
  | Some _ => a
  end.

(** A comparator result is "greater" when it is a positive number; [NaN]
    and [0] leave the order alone. *)
Definition positive (r : option Z) : bool :=
  match r with
  | Some z => 0 <? z
  | None => false
  end.

(** Truthiness of an optional integer field ([query.startMonth] in a
    condition): [undefined] and [0] are falsy. *)
Definition truthy (o : option Z) : bool :=
  match o with
  | Some z => negb (z =? 0)
  | None => false
  end.

(** [Number(d)] of a [Prisma.Decimal] with two decimals, given as its
    number of cents: the binary64 nearest to [cents / 100], for the amounts
    a DECIMAL(12,2) column holds.  ([of_uint63] is exact below [2^53] and
    the division is correctly rounded.) *)
Definition Number (cents : Z) : float :=
  let m := PrimFloat.div (PrimFloat.of_uint63 (Uint63.of_Z (Z.abs cents))) 100%float in
  if cents <? 0 then PrimFloat.opp m else m.

(** [x || 0] on a possibly undefined number: [undefined], [0], [-0] and
    [NaN] all give [0]. *)
Definition float_or_0 (x : option float) : float :=
  match x with
  | None => 0%float
  | Some v => if PrimFloat.is_nan v || PrimFloat.is_zero v then 0%float else v
  end.

(** [amounts.reduce((sum, amount) => sum + amount, 0)]. *)
Definition sum (amounts : list float) : float :=
  fold_left PrimFloat.add amounts 0%float.

(** [Math.max(...amounts)] and [Math.min(...amounts)]: [NaN] if any
    argument is, and [+0] above [-0]. *)
Definition max2 (a b : float) : float :=
  if PrimFloat.is_nan a || PrimFloat.is_nan b then nan
  else if PrimFloat.ltb a b then b
  else if PrimFloat.ltb b a then a
  else if PrimFloat.get_sign a then b else a.
Definition min2 (a b : float) : float :=
  if PrimFloat.is_nan a || PrimFloat.is_nan b then nan
  else if PrimFloat.ltb b a then b
  else if PrimFloat.ltb a b then a
  else if PrimFloat.get_sign a then a else b.
Definition Math_max (l : list float) : float := fold_left max2 l neg_infinity.
Definition Math_min (l : list float) : float := fold_left min2 l infinity.

(** ** [Map]: insertion-ordered, [set] on a present key keeps its place *)

Section Map.
Variables (K V : Type) (eqb : K -> K -> bool).

Definition Map := list (K * V).

Fixpoint get (m : Map) (k : K) : option V :=
  match m with
  | [] => None
  | (k', v) :: m' => if eqb k k' then Some v else get m' k
  end.

Definition has (m : Map) (k : K) : bool :=
  match get m k with Some _ => true | None => false end.

Fixpoint set (m : Map) (k : K) (v : V) : Map :=
  match m with
  | [] => [(k, v)]
  | (k', v') :: m' => if eqb k k' then (k', v) :: m' else (k', v') :: set m' k v
  end.

(** [Array.from(m.entries())]. *)
Definition entries (m : Map) : list (K * V) := m.
End Map.

(** ** [Array.prototype.sort]: stable; [gt a b] is "comparator(a, b) > 0" *)

Section Sort.
Variables (T : Type) (gt : T -> T -> bool).

Fixpoint insert (x : T) (l : list T) : list T :=
  match l with
  | [] => [x]
  | y :: l' => if gt x y then y :: insert x l' else x :: l
  end.

Fixpoint sort (l : list T) : list T :=
  match l with
  | [] => []
  | x :: l' => insert x (sort l')
  end.
End Sort.

End Js.

(* ===================================================================== *)
(** * Data model *)
(* ===================================================================== *)

(** The seven values of [ExpenseCategory]. *)
Inductive ExpenseCategory :=
| SALARIES
| SOFTWARE_TOOLS
| INFRASTRUCTURE_HOSTING
| HARDWARE_EQUIPMENT
| SECURITY_COMPLIANCE
| OPERATIONAL_ADMINISTRATIVE
| CONTINUOUS_LEARNING.

Definition category_eqb (a b : ExpenseCategory) : bool :=
  match a, b with
  | SALARIES, SALARIES
  | SOFTWARE_TOOLS, SOFTWARE_TOOLS
  | INFRASTRUCTURE_HOSTING, INFRASTRUCTURE_HOSTING
  | HARDWARE_EQUIPMENT, HARDWARE_EQUIPMENT
  | SECURITY_COMPLIANCE, SECURITY_COMPLIANCE
  | OPERATIONAL_ADMINISTRATIVE, OPERATIONAL_ADMINISTRATIVE
  | CONTINUOUS_LEARNING, CONTINUOUS_LEARNING => true
  | _, _ => false
  end.

(** A row of the [costs] table (Prisma model [Cost]). *)
Record Cost := mkCost {
  id : Z;
  category : ExpenseCategory;
  amount : Z;           (* cents *)
  month : Z;
  year : Z;
  createdAt : Z;
  updatedAt : Z
}.

(* ===================================================================== *)
(** * Request validation: [trendsQuerySchema] *)
(* ===================================================================== *)

Inductive GroupBy := by_month | by_year | by_category.

(** The validated query handed to [ExpenseService.getTrends]. *)
Record TrendsQuery := mkTrendsQuery {
  startYear : Z;
  endYear : Z;
  startMonth : option Z;
  endMonth : option Z;
  q_category : option ExpenseCategory;
  groupBy : GroupBy
}.

Module Validation.

(** The query as received: every key may be absent. *)
Record RawQuery := mkRaw {
  r_startYear : option Z;
  r_endYear : option Z;
  r_startMonth : option Z;
  r_endMonth : option Z;
  r_category : option ExpenseCategory;
  r_groupBy : option GroupBy
}.

Inductive Key := k_startYear | k_endYear | k_startMonth | k_endMonth.

(** Joi error types.  [any_invalid] is the one the custom rule raises
    on a badly ordered range: the specification's [RangeError]. *)
Inductive ValidationError :=
| any_required (k : Key)
| number_min (k : Key)
| number_max (k : Key)
| any_invalid (message : string).

Inductive Result (A : Type) :=
| Valid (value : A)
| Invalid (error : ValidationError).
Arguments Invalid {A} error.

Definition bind {A B} (r : Result A) (f : A -> Result B) : Result B :=
  match r with
  | Valid v => f v
  | Invalid e => Invalid e
  end.

(** [Joi.number().integer().min(lo).max(hi)] on a present value. *)
Definition in_range (k : Key) (lo hi v : Z) : Result Z :=
  if v <? lo then Invalid (number_min k)
  else if hi <? v then Invalid (number_max k)
  else Valid v.

Definition required (k : Key) (lo hi : Z) (v : option Z) : Result Z :=
  match v with
  | None => Invalid (any_required k)
  | Some n => in_range k lo hi n
  end.

Definition optional (k : Key) (lo hi : Z) (v : option Z) : Result (option Z) :=
  match v with
  | None => Valid None
  | Some n => bind (in_range k lo hi n) (fun n' => Valid (Some n'))
  end.

(** The per-key rules, in the order of the schema. *)
Definition keys (raw : RawQuery) : Result TrendsQuery :=
  bind (required k_startYear 2020 2050 (r_startYear raw)) (fun sy =>
  bind (required k_endYear 2020 2050 (r_endYear raw)) (fun ey =>
  bind (optional k_startMonth 1 12 (r_startMonth raw)) (fun sm =>
  bind (optional k_endMonth 1 12 (r_endMonth raw)) (fun em =>
  Valid (mkTrendsQuery sy ey sm em (r_category raw)
           (match r_groupBy raw with Some g => g | None => by_month end)))))).

(** The [.custom((value, helpers) => ...)] rule. *)
Definition custom (value : TrendsQuery) : Result TrendsQuery :=
  if endYear value <? startYear value then
    Invalid (any_invalid "End year cannot be before start year")
  else if (startYear value =? endYear value)
          && Js.truthy (startMonth value) && Js.truthy (endMonth value) then
    match startMonth value, endMonth value with
    | Some sm, Some em =>
        if em <? sm then
          Invalid (any_invalid "End month cannot be before start month in the same year")
        else Valid value
    | _, _ => Valid value
    end
  else Valid value.

(** [trendsQuerySchema.validate(query)]. *)
Definition trendsQuerySchema (raw : RawQuery) : Result TrendsQuery :=
  bind (keys raw) custom.

End Validation.

(* ===================================================================== *)
(** * Range resolution: the [where] clause of [getTrends] *)
(* ===================================================================== *)

Module RangeResolver.

(** A Prisma integer filter: a bare number (equality) or an object of
    bounds. *)
Inductive IntFilter :=
| Equals (n : Z)
| Bounds (gt gte lt lte : option Z).

(** One entry of [dateConditions]. *)
Record DateCondition := mkCond {
  c_year : option IntFilter;
  c_month : option IntFilter
}.

(** [Prisma.CostWhereInput], with the keys [getTrends] sets. *)
Record CostWhereInput := mkWhere {
  w_year : option IntFilter;
  w_month : option IntFilter;
  w_OR : option (list DateCondition);
  w_category : option ExpenseCategory
}.

Definition month_filter (query : TrendsQuery) : option IntFilter :=
  if Js.truthy (startMonth query) && Js.truthy (endMonth query) then
    Some (Bounds None (startMonth query) None (endMonth query))
  else if Js.truthy (startMonth query) then
    Some (Bounds None (startMonth query) None None)
  else if Js.truthy (endMonth query) then
    Some (Bounds None None None (endMonth query))
  else None.

Definition dateConditions (query : TrendsQuery) : list DateCondition :=
  [ if Js.truthy (startMonth query)
    then mkCond (Some (Equals (startYear query)))
                (Some (Bounds None (startMonth query) None None))
    else mkCond (Some (Equals (startYear query))) None ]
  ++ (if 1 <? endYear query - startYear query
      then [ mkCond (Some (Bounds (Some (startYear query)) None
                                  (Some (endYear query)) None)) None ]
      else [])
  ++ [ if Js.truthy (endMonth query)
       then mkCond (Some (Equals (endYear query)))
                   (Some (Bounds None None None (endMonth query)))
       else mkCond (Some (Equals (endYear query))) None ].

(** The [where] object [getTrends] builds. *)
Definition build_where (query : TrendsQuery) : CostWhereInput :=
  if startYear query =? endYear query then
    mkWhere (Some (Equals (startYear query))) (month_filter query) None
            (q_category query)
  else
    mkWhere None None (Some (dateConditions query)) (q_category query).

(** *** What a [where] object selects (Prisma's reading) *)

Definition bound (test : Z -> Z -> bool) (b : option Z) (n : Z) : bool :=
  match b with
  | Some k => test n k
  | None => true
  end.

Definition int_matches (f : option IntFilter) (n : Z) : bool :=
  match f with
  | None => true
  | Some (Equals k) => n =? k
  | Some (Bounds gt gte lt lte) =>
      bound Z.gtb gt n && bound Z.geb gte n && bound Z.ltb lt n && bound Z.leb lte n
  end.

Definition cond_matches (c : DateCondition) (y m : Z) : bool :=
  int_matches (c_year c) y && int_matches (c_month c) m.

Definition category_matches (f : option ExpenseCategory) (c : ExpenseCategory) : bool :=
  match f with
  | None => true
  | Some k => category_eqb c k
  end.

Definition matches (w : CostWhereInput) (r : Cost) : bool :=
  int_matches (w_year w) (year r)
  && int_matches (w_month w) (month r)
  && match w_OR w with
     | None => true
     | Some cs => existsb (fun c => cond_matches c (year r) (month r)) cs
     end
  && category_matches (w_category w) (category r).

End RangeResolver.


(* ===================================================================== *)
(** * Trend aggregation: [process{Monthly,Yearly,Category}Trends] *)
(* ===================================================================== *)

Module TrendAggregator.

Record CategoryAmount := mkCategoryAmount {
  ca_category : ExpenseCategory;
  ca_amount : float
}.

Record MonthlyTrendData := mkMonthly {
  m_month : option Z;
  m_year : option Z;
  m_totalAmount : float;
  m_categoryBreakdown : list CategoryAmount
}.

Record YearlyTrendData := mkYearly {
  y_year : Z;
  y_totalAmount : float;
  y_categoryBreakdown : list CategoryAmount
}.

Record MonthAmount := mkMonthAmount {
  ma_month : option Z;
  ma_year : option Z;
  ma_amount : float
}.

Record CategoryTrendData := mkCategoryTrend {
  c_category : ExpenseCategory;
  c_totalAmount : float;
  c_monthlyBreakdown : list MonthAmount
}.

Record Summary := mkSummary {
  totalAmount : float;
  averageAmount : float;
  highestAmount : float;
  lowestAmount : float
}.

(** The value type of the three accumulating maps:
    [{ totalAmount: number; categories | months: Map<K, number> }]. *)
Record Group (K : Type) := mkGroup {
  g_totalAmount : float;
  g_breakdown : Js.Map K float
}.

(** [`${expense.year}-${String(expense.month).padStart(2, '0')}`]. *)
Definition period_key (expense : Cost) : string :=
  (Js.String_of (year expense) ++ "-" ++ Js.padStart2 (Js.String_of (month expense)))%string.

(** [const [year, month] = key.split('-')], then
    [parseInt(year || '0')] and [parseInt(month || '0')]. *)
Definition split_key (key : string) : option Z * option Z :=
  let parts := Js.split "-" key in
  (Js.parseInt (Js.str_or (nth_error parts 0) "0"),
   Js.parseInt (Js.str_or (nth_error parts 1) "0")).

(** The comparator [(a, b) => a.year - b.year || a.month - b.month],
    as "is positive". *)
Definition period_gt (ya ma yb mb : option Z) : bool :=
  Js.positive (Js.num_or (Js.sub ya yb) (Js.sub ma mb)).

(** The summary block the three functions share. *)
Definition summarize (amounts : list float) : Summary :=
  let total := Js.sum amounts in
  match amounts with
  | [] => mkSummary total 0 0 0
  | _ => mkSummary total
           (PrimFloat.div total (PrimFloat.of_uint63 (Uint63.of_Z (Z.of_nat (List.length amounts)))))
           (Js.Math_max amounts) (Js.Math_min amounts)
  end.

Definition category_breakdown (categories : Js.Map ExpenseCategory float)
  : list CategoryAmount :=
  map (fun '(category, amount) => mkCategoryAmount category amount)
      (Js.entries categories).

(** ** [processMonthlyTrends] *)

(** The body of [expenses.forEach(expense => ...)].  The [None] branch
    stands for [monthlyMap.get(key)!] on a missing key, which the [has]
    test just above rules out. *)
Definition monthly_step (monthlyMap : Js.Map string (Group ExpenseCategory))
  (expense : Cost) : Js.Map string (Group ExpenseCategory) :=
  let key := period_key expense in
  let amount := Js.Number (amount expense) in
  let monthlyMap :=
    if Js.has String.eqb monthlyMap key then monthlyMap
    else Js.set String.eqb monthlyMap key (mkGroup 0 []) in
  match Js.get String.eqb monthlyMap key with
  | None => monthlyMap
  | Some monthData =>
      let currentCategoryAmount :=
        Js.float_or_0 (Js.get category_eqb (g_breakdown monthData) (category expense)) in
      Js.set String.eqb monthlyMap key
        (mkGroup (PrimFloat.add (g_totalAmount monthData) amount)
           (Js.set category_eqb (g_breakdown monthData) (category expense)
              (PrimFloat.add currentCategoryAmount amount)))
  end.

Definition monthly_entry (e : string * Group ExpenseCategory) : MonthlyTrendData :=
  let '(key, value) := e in
  let '(year, month) := split_key key in
  mkMonthly month year (g_totalAmount value) (category_breakdown (g_breakdown value)).

Definition monthly_gt (a b : MonthlyTrendData) : bool :=
  period_gt (m_year a) (m_month a) (m_year b) (m_month b).

Definition processMonthlyTrends (expenses : list Cost)
  : list MonthlyTrendData * Summary :=
  let monthlyMap := fold_left monthly_step expenses [] in
  let data := Js.sort monthly_gt (map monthly_entry (Js.entries monthlyMap)) in
  (data, summarize (map m_totalAmount data)).

(** ** [processYearlyTrends] *)

Definition yearly_step (yearlyMap : Js.Map Z (Group ExpenseCategory))
  (expense : Cost) : Js.Map Z (Group ExpenseCategory) :=
  let amount := Js.Number (amount expense) in
  let yearlyMap :=
    if Js.has Z.eqb yearlyMap (year expense) then yearlyMap
    else Js.set Z.eqb yearlyMap (year expense) (mkGroup 0 []) in
  match Js.get Z.eqb yearlyMap (year expense) with
  | None => yearlyMap
  | Some yearData =>
      let currentCategoryAmount :=
        Js.float_or_0 (Js.get category_eqb (g_breakdown yearData) (category expense)) in
      Js.set Z.eqb yearlyMap (year expense)
        (mkGroup (PrimFloat.add (g_totalAmount yearData) amount)
           (Js.set category_eqb (g_breakdown yearData) (category expense)
              (PrimFloat.add currentCategoryAmount amount)))
  end.

Definition yearly_entry (e : Z * Group ExpenseCategory) : YearlyTrendData :=
  let '(year, value) := e in
  mkYearly year (g_totalAmount value) (category_breakdown (g_breakdown value)).

Definition yearly_gt (a b : YearlyTrendData) : bool := 0 <? y_year a - y_year b.

Definition processYearlyTrends (expenses : list Cost)
  : list YearlyTrendData * Summary :=
  let yearlyMap := fold_left yearly_step expenses [] in
  let data := Js.sort yearly_gt (map yearly_entry (Js.entries yearlyMap)) in
  (data, summarize (map y_totalAmount data)).

(** ** [processCategoryTrends] *)

Definition category_step (categoryMap : Js.Map ExpenseCategory (Group string))
  (expense : Cost) : Js.Map ExpenseCategory (Group string) :=
  let amount := Js.Number (amount expense) in
  let monthKey := period_key expense in
  let categoryMap :=
    if Js.has category_eqb categoryMap (category expense) then categoryMap
    else Js.set category_eqb categoryMap (category expense) (mkGroup 0 []) in
  match Js.get category_eqb categoryMap (category expense) with
  | None => categoryMap
  | Some categoryData =>
      let currentMonthAmount :=
        Js.float_or_0 (Js.get String.eqb (g_breakdown categoryData) monthKey) in
      Js.set category_eqb categoryMap (category expense)
        (mkGroup (PrimFloat.add (g_totalAmount categoryData) amount)
           (Js.set String.eqb (g_breakdown categoryData) monthKey
              (PrimFloat.add currentMonthAmount amount)))
  end.

Definition month_amount (e : string * float) : MonthAmount :=
  let '(monthKey, amount) := e in
  let '(year, month) := split_key monthKey in
  mkMonthAmount month year amount.

Definition month_amount_gt (a b : MonthAmount) : bool :=
  period_gt (ma_year a) (ma_month a) (ma_year b) (ma_month b).

Definition category_entry (e : ExpenseCategory * Group string) : CategoryTrendData :=
  let '(category, value) := e in
  mkCategoryTrend category (g_totalAmount value)
    (Js.sort month_amount_gt (map month_amount (Js.entries (g_breakdown value)))).

(** [(a, b) => b.totalAmount - a.totalAmount], as "is positive". *)
Definition category_gt (a b : CategoryTrendData) : bool :=
  PrimFloat.ltb 0 (PrimFloat.sub (c_totalAmount b) (c_totalAmount a)).

Definition processCategoryTrends (expenses : list Cost)
  : list CategoryTrendData * Summary :=
  let categoryMap := fold_left category_step expenses [] in
  let data := Js.sort category_gt (map category_entry (Js.entries categoryMap)) in
  (data, summarize (map c_totalAmount data)).

End TrendAggregator.

(* ===================================================================== *)
(** * Archival: [ArchiveService] *)
(* ===================================================================== *)

Module Archive.

(** A row of the [costs_archive] table. *)
Record ArchivedCost := mkArchived {
  a_id : Z;
  a_category : ExpenseCategory;
  a_amount : Z;         (* cents *)
  a_month : Z;
  a_year : Z;
  created_at : Z;
  updated_at : Z;
  archived_at : Z
}.

(** What the debug logger receives after each batch:
    [`Archived batch: ${batch.length} records (total: ${archivedCount})`]. *)
Record BatchLog := mkBatchLog {
  batch_length : nat;
  total : nat
}.

(** The database and the debug log.  [costs_archive] is [None] until the
    table has been created. *)
Record World := mkWorld {
  costs : list Cost;
  costs_archive : option (list ArchivedCost);
  debug_log : list BatchLog
}.

Inductive StoreError :=
| connection_error     (* a statement lost to the database, chosen by the fault oracle *)
| undefined_table      (* a raw statement on [costs_archive] before it exists *)
| unique_violation.    (* P2002 on UNIQUE(category, month, year) of [costs] *)

(** How a call ends: it returns, it throws, or the model ran out of
    fuel (which [archive_loop_fuel] shows never happens). *)
Inductive Outcome (A : Type) :=
| Return (value : A)
| Throw (error : StoreError)
| OutOfFuel.
Arguments Throw {A} error.
Arguments OutOfFuel {A}.

Record ArchiveConfig := mkConfig {
  retentionYears : Z;
  batchSize : nat
}.

(** [Partial<ArchiveConfig>]; the table name is always the default,
    [costs_archive]. *)
Record PartialConfig := mkPartial {
  p_retentionYears : option Z;
  p_batchSize : option nat
}.

Definition DEFAULT_CONFIG : ArchiveConfig := mkConfig 10 1000.

(** [{ ...this.DEFAULT_CONFIG, ...config }]. *)
Definition merge (config : PartialConfig) : ArchiveConfig :=
  mkConfig
    (match p_retentionYears config with Some y => y | None => retentionYears DEFAULT_CONFIG end)
    (match p_batchSize config with Some b => b | None => batchSize DEFAULT_CONFIG end).

Record ArchiveResult := mkResult {
  archivedCount : nat;
  deletedCount : nat;
  cutoffDate : Z
}.

(** ** The Prisma calls on [costs] *)

Definition older (cutoff : Z) (c : Cost) : bool := createdAt c <? cutoff.

(** [prisma.cost.count({ where: { createdAt: { lt } } })]. *)
Definition count (cutoff : Z) (table : list Cost) : nat :=
  List.length (filter (older cutoff) table).

(** [orderBy: { createdAt: 'asc' }]; rows with equal [createdAt] keep the
    order of the table. *)
Definition by_createdAt (table : list Cost) : list Cost :=
  Js.sort (fun a b => createdAt b <? createdAt a) table.

(** [prisma.cost.findMany({ where, take, skip, orderBy })]. *)
Definition findMany (cutoff : Z) (take skip : nat) (table : list Cost) : list Cost :=
  firstn take (skipn skip (by_createdAt (filter (older cutoff) table))).

(** [prisma.cost.deleteMany({ where })]: the rows left and the count. *)
Definition deleteMany (cutoff : Z) (table : list Cost) : list Cost * nat :=
  (filter (fun c => negb (older cutoff c)) table, count cutoff table).

(** UNIQUE(category, month, year) of [costs]. *)
Definition same_period (a b : Cost) : bool :=
  category_eqb (category a) (category b) && (month a =? month b) && (year a =? year b).

(** [ExpenseService.updateExpense(id, { amount })]:
    [prisma.cost.update({ where: { id }, data: { amount, updatedAt: new Date() } })];
    [None] is the error P2025 (no such row). *)
Definition updateExpense (now : Z) (k : Z) (new_amount : Z) (table : list Cost)
  : option (list Cost) :=
  match find (fun c => id c =? k) table with
  | None => None
  | Some _ =>
      Some (map (fun c => if id c =? k
                          then mkCost (id c) (category c) new_amount (month c)
                                      (year c) (createdAt c) now
                          else c) table)
  end.

(** [prisma.cost.upsert({ where: { id }, update, create })]. *)
Definition upsert (now : Z) (record : ArchivedCost) (table : list Cost)
  : Outcome unit * list Cost :=
  match find (fun c => id c =? a_id record) table with
  | Some existing =>
      let updated :=
        mkCost (id existing) (a_category record) (a_amount record)
               (a_month record) (a_year record) (createdAt existing) now in
      if existsb (same_period updated)
           (filter (fun c => negb (id c =? a_id record)) table)
      then (Throw unique_violation, table)
      else (Return tt,
            map (fun c => if id c =? a_id record then updated else c) table)
  | None =>
      let created :=
        mkCost (a_id record) (a_category record) (a_amount record)
               (a_month record) (a_year record)
               (created_at record) (updated_at record) in
      if existsb (same_period created) table
      then (Throw unique_violation, table)
      else (Return tt, table ++ [created])
  end.

(** ** The raw statements on [costs_archive] *)

(** [CREATE TABLE IF NOT EXISTS] (and its indexes). *)
Definition ensureArchiveTableExists (w : World) : World :=
  match costs_archive w with
  | Some _ => w
  | None => mkWorld (costs w) (Some []) (debug_log w)
  end.

(** One tuple of the [VALUES] list; [archived_at] is [CURRENT_TIMESTAMP]. *)
Definition archive_row (now : Z) (record : Cost) : ArchivedCost :=
  mkArchived (id record) (category record) (amount record) (month record)
             (year record) (createdAt record) (updatedAt record) now.

(** [INSERT ... ON CONFLICT (id) DO NOTHING], one row, then a list. *)
Definition insert_row (table : list ArchivedCost) (row : ArchivedCost)
  : list ArchivedCost :=
  if existsb (fun r => a_id r =? a_id row) table then table else table ++ [row].

Definition insert_rows (table rows : list ArchivedCost) : list ArchivedCost :=
  fold_left insert_row rows table.

(** [archiveBatch(records, tableName)].  [fault] says whether the
    database drops this statement; a statement that fails changes
    nothing. *)
Definition archiveBatch (fault : bool) (now : Z) (records : list Cost) (w : World)
  : Outcome unit * World :=
  match records with
  | [] => (Return tt, w)
  | _ =>
      if fault then (Throw connection_error, w)
      else match costs_archive w with
           | None => (Throw undefined_table, w)
           | Some table =>
               (Return tt,
                mkWorld (costs w)
                        (Some (insert_rows table (map (archive_row now) records)))
                        (debug_log w))
           end
  end.

Definition log_batch (len archived : nat) (w : World) : World :=
  mkWorld (costs w) (costs_archive w) (debug_log w ++ [mkBatchLog len archived]).

(** The [while (offset < recordsToArchive)] loop.  [faults i] is the fate
    of the [i]-th batch write of the run, [batchNo] counts them. *)
Fixpoint archive_loop (fuel : nat) (faults : nat -> bool) (now cutoff : Z)
  (batchSize recordsToArchive batchNo offset archivedCount : nat) (w : World)
  : Outcome nat * World :=
  if (offset <? recordsToArchive)%nat then
    match fuel with
    | O => (OutOfFuel, w)
    | S fuel' =>
        match findMany cutoff batchSize offset (costs w) with
        | [] => (Return archivedCount, w)
        | batch =>
            match archiveBatch (faults batchNo) now batch w with
            | (Return _, w1) =>
                let archivedCount := (archivedCount + List.length batch)%nat in
                archive_loop fuel' faults now cutoff batchSize recordsToArchive
                  (S batchNo) (offset + batchSize)%nat archivedCount
                  (log_batch (List.length batch) archivedCount w1)
            | (Throw e, w1) => (Throw e, w1)
            | (OutOfFuel, w1) => (OutOfFuel, w1)
            end
        end
    end
  else (Return archivedCount, w).

Section Clock.

(** [d.setFullYear(d.getFullYear() - years)] on the epoch time of [d]:
    calendar arithmetic, left abstract. *)
Variable years_before : Z -> Z -> Z.

(** [ArchiveService.archiveOldData(config)], called at time [now]. *)
Definition archiveOldData (faults : nat -> bool) (now : Z) (config : PartialConfig)
  (w : World) : Outcome ArchiveResult * World :=
  let finalConfig := merge config in
  let cutoff := years_before now (retentionYears finalConfig) in
  let w := ensureArchiveTableExists w in
  let recordsToArchive := count cutoff (costs w) in
  if (recordsToArchive =? 0)%nat then (Return (mkResult 0 0 cutoff), w)
  else
    match archive_loop recordsToArchive faults now cutoff (batchSize finalConfig)
            recordsToArchive 0 0 0 w with
    | (Return archived, w1) =>
        let '(rest, deleted) := deleteMany cutoff (costs w1) in
        (Return (mkResult archived deleted cutoff),
         mkWorld rest (costs_archive w1) (debug_log w1))
    | (Throw e, w1) => (Throw e, w1)
    | (OutOfFuel, w1) => (OutOfFuel, w1)
    end.

End Clock.

(** ** [restoreFromArchive] *)

Definition in_range (startDate endDate : Z) (r : ArchivedCost) : bool :=
  (startDate <=? created_at r) && (created_at r <=? endDate).

(** [for (const record of records) await prisma.cost.upsert(...)]: the
    first failing upsert ends the loop, the earlier ones stay. *)
Fixpoint restore_each (now : Z) (records : list ArchivedCost) (table : list Cost)
  : Outcome unit * list Cost :=
  match records with
  | [] => (Return tt, table)
  | record :: rest =>
      match upsert now record table with
      | (Return _, table1) => restore_each now rest table1
      | failed => failed
      end
  end.

(** [ArchiveService.restoreFromArchive(startDate, endDate)], called at
    time [now]. *)
Definition restoreFromArchive (now startDate endDate : Z) (w : World)
  : Outcome nat * World :=
  match costs_archive w with
  | None => (Throw undefined_table, w)
  | Some table =>
      match filter (in_range startDate endDate) table with
      | [] => (Return 0%nat, w)
      | records =>
          match restore_each now records (costs w) with
          | (Return _, table1) =>
              (Return (List.length records),
               mkWorld table1 (costs_archive w) (debug_log w))
          | (Throw e, table1) =>
              (Throw e, mkWorld table1 (costs_archive w) (debug_log w))
          | (OutOfFuel, table1) =>
              (OutOfFuel, mkWorld table1 (costs_archive w) (debug_log w))
          end
      end
  end.

End Archive.

(* ===================================================================== *)
(** * Vocabulary of the properties *)
(* ===================================================================== *)

Unset Implicit Arguments.

(** The unique key of [costs]: UNIQUE(category, month, year). *)
Definition unique_key (c : Cost) : ExpenseCategory * Z * Z :=
  (category c, month c, year c).

Module Lists.
Local Open Scope nat_scope.

(** The [i]-th window of width [b]. *)
Definition chunk {T : Type} (b : nat) (l : list T) (i : nat) : list T :=
  firstn b (skipn (i * b) l).

(** [ceil(n / b)]. *)
Definition ceil_div (n b : nat) : nat := (n + b - 1) / b.

(** The keys of a list in the order of their first occurrence: the key
    order of a [Map] filled from it. *)
Definition first_keys {K : Type} (eqb : K -> K -> bool) (l : list K) : list K :=
  fold_left (fun seen k => if existsb (eqb k) seen then seen else seen ++ [k]) l [].

End Lists.

Module ValidationSpec.
Import Validation.

(** The ordering faults the custom rule looks for. *)
Definition badly_ordered (q : TrendsQuery) : Prop :=
  endYear q < startYear q
  \/ (startYear q = endYear q
      /\ exists sm em, startMonth q = Some sm /\ endMonth q = Some em /\ em < sm).

End ValidationSpec.

Module RangeSpec.
Import RangeResolver.

(** The inclusive span of a request, on (year, month) pairs: from
    [startYear]-[startMonth] (or the start of [startYear]) to
    [endYear]-[endMonth] (or the end of [endYear]). *)
Definition from_start (q : TrendsQuery) (y m : Z) : Prop :=
  startYear q < y
  \/ (y = startYear q /\ forall sm, startMonth q = Some sm -> sm <= m).

Definition upto_end (q : TrendsQuery) (y m : Z) : Prop :=
  y < endYear q
  \/ (y = endYear q /\ forall em, endMonth q = Some em -> m <= em).

Definition in_span (q : TrendsQuery) (y m : Z) : Prop :=
  from_start q y m /\ upto_end q y m.

(** The three parts of the union, as the specification words them. *)
Definition part_a (q : TrendsQuery) : DateCondition :=
  mkCond (Some (Equals (startYear q)))
         (match startMonth q with
          | Some sm => Some (Bounds None (Some sm) None None)
          | None => None
          end).

Definition part_b (q : TrendsQuery) : DateCondition :=
  mkCond (Some (Bounds (Some (startYear q)) None (Some (endYear q)) None)) None.

Definition part_c (q : TrendsQuery) : DateCondition :=
  mkCond (Some (Equals (endYear q)))
         (match endMonth q with
          | Some em => Some (Bounds None None None (Some em))
          | None => None
          end).

End RangeSpec.

Module ArchiveSpec.
Import Archive Lists.
Local Open Scope nat_scope.

(** ** The run, batch by batch *)

(** The rows of the archive table, none while it does not exist. *)
Definition table_of (w : World) : list ArchivedCost :=
  match costs_archive w with
  | Some table => table
  | None => []
  end.

(** The live records a run is about, in the order it reads them. *)
Definition qualifying (cutoff : Z) (table : list Cost) : list Cost :=
  by_createdAt (filter (older cutoff) table).

(** The batches of a run: [ceil(n / batchSize)] windows of the qualifying
    records. *)
Definition batches (cutoff : Z) (b : nat) (table : list Cost) : list (list Cost) :=
  map (chunk b (qualifying cutoff table))
      (seq 0 (ceil_div (count cutoff table) b)).

(** The archive table once the given batches have been written. *)
Definition archived_after (now : Z) (bs : list (list Cost))
  (table : list ArchivedCost) : list ArchivedCost :=
  fold_left (fun t batch => insert_rows t (map (archive_row now) batch)) bs table.

(** The debug lines of the given batches. *)
Fixpoint batch_logs (archived : nat) (bs : list (list Cost)) : list BatchLog :=
  match bs with
  | [] => []
  | batch :: rest =>
      mkBatchLog (List.length batch) (archived + List.length batch)
      :: batch_logs (archived + List.length batch) rest
  end.

(** The loop body, run over a given list of batches. *)
Fixpoint archive_batches (faults : nat -> bool) (now : Z) (bs : list (list Cost))
  (batchNo archived : nat) (w : World) : Outcome nat * World :=
  match bs with
  | [] => (Return archived, w)
  | batch :: rest =>
      match batch with
      | [] => (Return archived, w)
      | _ =>
          match archiveBatch (faults batchNo) now batch w with
          | (Return _, w1) =>
              archive_batches faults now rest (S batchNo)
                (archived + List.length batch)
                (log_batch (List.length batch) (archived + List.length batch) w1)
          | (Throw e, w1) => (Throw e, w1)
          | (OutOfFuel, w1) => (OutOfFuel, w1)
          end
      end
  end.

(** ** Restoring *)

(** The row an upsert creates, and the row it leaves on an id collision. *)
Definition created_of (record : ArchivedCost) : Cost :=
  mkCost (a_id record) (a_category record) (a_amount record) (a_month record)
         (a_year record) (created_at record) (updated_at record).

Definition updated_of (now : Z) (existing : Cost) (record : ArchivedCost) : Cost :=
  mkCost (id existing) (a_category record) (a_amount record) (a_month record)
         (a_year record) (createdAt existing) now.

(** ** Concrete runs *)

(** A clock for the examples: dates counted in years. *)
Definition years_back (now years : Z) : Z := (now - years)%Z.

(** Five old records (created at 1..5), one recent (created at 95); at
    time 100 with the default retention of 10 the cutoff is 90. *)
Definition old_record (i : Z) : Cost := mkCost i SALARIES (100 * i) i 2020 i i.

Definition live6 : list Cost :=
  map old_record [1; 2; 3; 4; 5]%Z ++ [mkCost 6 SOFTWARE_TOOLS 700 6 2020 95 95].

Definition fresh_db : World := mkWorld live6 None [].

Definition batch_of_2 : PartialConfig := mkPartial None (Some 2).

Definition no_fault (j : nat) : bool := false.

Definition second_fails (j : nat) : bool := j =? 1.

End ArchiveSpec.

Module AggregatorSpec.
Import TrendAggregator Lists.

(** A string of decimal digits. *)
Fixpoint all_digits (s : string) : bool :=
  match s with
  | EmptyString => true
  | String c s' => Js.is_digit c && all_digits s'
  end.

(** The amount the aggregators add for a record. *)
Definition amount_of (expense : Cost) : float := Js.Number (amount expense).

(** The value of a breakdown entry after the given amounts went into it,
    each by [(entry || 0) + amount]; [None] while nothing did. *)
Definition entry_sum (amounts : list float) : option float :=
  fold_left (fun entry a => Some (PrimFloat.add (Js.float_or_0 entry) a)) amounts None.

Section Grouping.
Variables (K1 K2 : Type) (eqb1 : K1 -> K1 -> bool) (eqb2 : K2 -> K2 -> bool).
Variables (key1 : Cost -> K1) (key2 : Cost -> K2).

(** The shape the three [forEach] bodies share, with the keys left open:
    [monthly_step], [yearly_step] and [category_step] are this function at
    their own keys (see [monthly_pass], [yearly_pass], [category_pass]). *)
Definition group_step (m : Js.Map K1 (Group K2)) (expense : Cost)
  : Js.Map K1 (Group K2) :=
  let m1 := if Js.has eqb1 m (key1 expense) then m
            else Js.set eqb1 m (key1 expense) (mkGroup 0 []) in
  match Js.get eqb1 m1 (key1 expense) with
  | None => m1
  | Some data =>
      Js.set eqb1 m1 (key1 expense)
        (mkGroup (PrimFloat.add (g_totalAmount data) (amount_of expense))
           (Js.set eqb2 (g_breakdown data) (key2 expense)
              (PrimFloat.add
                 (Js.float_or_0 (Js.get eqb2 (g_breakdown data) (key2 expense)))
                 (amount_of expense))))
  end.

(** The records of a group, and those of one of its breakdown entries. *)
Definition in_group (k : K1) (expenses : list Cost) : list Cost :=
  filter (fun e => eqb1 (key1 e) k) expenses.

Definition in_entry (j : K2) (expenses : list Cost) : list Cost :=
  filter (fun e => eqb2 (key2 e) j) expenses.

(** What a breakdown map holds once the records [rs] of its group went
    into it. *)
Definition breakdown_of (b : Js.Map K2 float) (rs : list Cost) : Prop :=
  map fst b = first_keys eqb2 (map key2 rs)
  /\ NoDup (map fst b)
  /\ forall j, Js.get eqb2 b j = entry_sum (map amount_of (in_entry j rs)).

(** What the outer map holds for the key [k] once the records [done] went
    into it. *)
Definition group_ok (m : Js.Map K1 (Group K2)) (done : list Cost) (k : K1) : Prop :=
  match Js.get eqb1 m k with
  | None => in_group k done = []
  | Some data =>
      in_group k done <> []
      /\ g_totalAmount data = Js.sum (map amount_of (in_group k done))
      /\ breakdown_of (g_breakdown data) (in_group k done)
  end.

Definition groups_of (m : Js.Map K1 (Group K2)) (done : list Cost) : Prop :=
  map fst m = first_keys eqb1 (map key1 done)
  /\ NoDup (map fst m)
  /\ forall k, group_ok m done k.

(** Adding the record [e] to the group [data] of its key. *)
Definition add_to (data : Group K2) (e : Cost) : Group K2 :=
  mkGroup (PrimFloat.add (g_totalAmount data) (amount_of e))
    (Js.set eqb2 (g_breakdown data) (key2 e)
       (PrimFloat.add (Js.float_or_0 (Js.get eqb2 (g_breakdown data) (key2 e)))
                      (amount_of e))).

End Grouping.

Arguments group_step {K1 K2} eqb1 eqb2 key1 key2 m expense.
Arguments in_group {K1} eqb1 key1 k expenses.
Arguments in_entry {K2} eqb2 key2 j expenses.
Arguments breakdown_of {K2} eqb2 key2 b rs.
Arguments group_ok {K1 K2} eqb1 eqb2 key1 key2 m done k.
Arguments groups_of {K1 K2} eqb1 eqb2 key1 key2 m done.
Arguments add_to {K2} eqb2 key2 data e.

(** Records whose year and month are not negative. *)
Definition plain_periods (expenses : list Cost) : Prop :=
  forall e, In e expenses -> 0 <= year e /\ 0 <= month e.

(** The real number a finite binary64 stands for. *)
Definition exact (x : float) : Q :=
  match Prim2SF x with
  | S754_finite negative m e =>
      ((if negative then -1 else 1) * Z.pos m # 1) * Qpower 2 e
  | _ => 0
  end.

Definition exact_sum (amounts : list float) : Q :=
  fold_left (fun s a => Qplus s (exact a)) amounts 0%Q.

(** The order [getTrends] reads the records in: by year, then month. *)
Definition period_le (a b : Cost) : Prop :=
  year a < year b \/ (year a = year b /\ month a <= month b).

End AggregatorSpec.

(* ===================================================================== *)
(** * Request validation: [expenseQuerySchema] *)
(* ===================================================================== *)

(** [ExpenseQuery], as validation hands it to [ExpenseService.getExpenses].
    [limit] and [offset] count rows: they are never negative there (the
    schema admits [limit] 1..100 and [offset] from 0). *)
Record ExpenseQuery := mkExpenseQuery {
  e_year : option Z;
  e_month : option Z;
  e_category : option ExpenseCategory;
  e_limit : option nat;
  e_offset : option nat
}.

Module QueryValidation.

(** [req.query] as received, its numbers read (the schema converts the
    strings); a category outside the enum, which the schema rejects, has
    no value here. *)
Record RawExpenseQuery := mkRawExpenseQuery {
  x_year : option Z;
  x_month : option Z;
  x_category : option ExpenseCategory;
  x_limit : option Z;
  x_offset : option Z
}.

(** The keys that carry a number. *)
Inductive QueryKey := k_year | k_month | k_limit | k_offset.

(** The Joi errors [number.unsafe], [number.min] and [number.max] on a
    key. *)
Inductive QueryError :=
| unsafe_number (k : QueryKey)
| below_min (k : QueryKey)
| above_max (k : QueryKey).

Inductive Checked (A : Type) :=
| Accepted (value : A)
| Rejected (error : QueryError).
Arguments Accepted {A} value.
Arguments Rejected {A} error.

(** Validation stops at the first rule that fails. *)
Definition and_then {A B} (r : Checked A) (f : A -> Checked B) : Checked B :=
  match r with
  | Accepted v => f v
  | Rejected e => Rejected e
  end.

(** [.min(lo)] and [.max(hi)]. *)
Definition at_least (k : QueryKey) (lo v : Z) : Checked Z :=
  if v <? lo then Rejected (below_min k) else Accepted v.

Definition at_most (k : QueryKey) (hi v : Z) : Checked Z :=
  if hi <? v then Rejected (above_max k) else Accepted v.

(** [Number.MAX_SAFE_INTEGER], 2^53 - 1. *)
Definition MAX_SAFE_INTEGER : Z := 9007199254740991.

(** [Joi.number()] itself, before any of its rules: a number beyond the
    safe integers (read from the query string, it would no longer be the
    number written there) is the error [number.unsafe]. *)
Definition safe_number (k : QueryKey) (v : Z) : Checked Z :=
  if (v <? - MAX_SAFE_INTEGER) || (MAX_SAFE_INTEGER <? v)
  then Rejected (unsafe_number k)
  else Accepted v.

(** [.optional()]: an absent key passes. *)
Definition optional_number (k : QueryKey) (rule : Z -> Checked Z) (v : option Z)
  : Checked (option Z) :=
  match v with
  | None => Accepted None
  | Some n => and_then (and_then (safe_number k n) rule) (fun n' => Accepted (Some n'))
  end.

(** [.default(d).optional()]: an absent key becomes [d]. *)
Definition default_number (k : QueryKey) (d : Z) (rule : Z -> Checked Z) (v : option Z)
  : Checked Z :=
  match v with
  | None => Accepted d
  | Some n => and_then (safe_number k n) rule
  end.

(** [expenseQuerySchema.validate(req.query)]: the keys in the order of the
    schema, the first failing rule reported. *)
Definition expenseQuerySchema (raw : RawExpenseQuery) : Checked ExpenseQuery :=
  and_then (optional_number k_year
              (fun v => and_then (at_least k_year 2020 v) (at_most k_year 2050))
              (x_year raw)) (fun year =>
  and_then (optional_number k_month
              (fun v => and_then (at_least k_month 1 v) (at_most k_month 12))
              (x_month raw)) (fun month =>
  and_then (default_number k_limit 50
              (fun v => and_then (at_least k_limit 1 v) (at_most k_limit 100))
              (x_limit raw)) (fun limit =>
  and_then (default_number k_offset 0 (at_least k_offset 0) (x_offset raw)) (fun offset =>
  Accepted (mkExpenseQuery year month (x_category raw)
           (Some (Z.to_nat limit)) (Some (Z.to_nat offset))))))).

End QueryValidation.

(* ===================================================================== *)
(** * API errors: [utils/errors.ts] *)
(* ===================================================================== *)

Module Errors.

Inductive ApiErrorCode :=
| VALIDATION_ERROR
| DUPLICATE_ENTRY
| NOT_FOUND
| INTERNAL_ERROR
| DATABASE_ERROR
| INVALID_INPUT.

(** The subclasses of [ApiError] the controller and the service throw.
    Where the message is a template, the constructor carries the values
    the template prints; a validation error carries the Joi error its
    message comes from. *)
Inductive ApiError :=
| ValidationError (detail : QueryValidation.QueryError)
| DuplicateEntryError (category : ExpenseCategory) (month year : Z)
| NotFoundError (id : Z)
| DatabaseError (message : string).

(** The [code] and the [statusCode] each constructor passes to [super]. *)
Definition code (error : ApiError) : ApiErrorCode :=
  match error with
  | ValidationError _ => VALIDATION_ERROR
  | DuplicateEntryError _ _ _ => DUPLICATE_ENTRY
  | NotFoundError _ => NOT_FOUND
  | DatabaseError _ => DATABASE_ERROR
  end.

Definition statusCode (error : ApiError) : Z :=
  match error with
  | ValidationError _ => 422
  | DuplicateEntryError _ _ _ => 409
  | NotFoundError _ => 404
  | DatabaseError _ => 500
  end.

End Errors.

(* ===================================================================== *)
(** * The expense service: [ExpenseService] *)
(* ===================================================================== *)

Module ExpenseService.
Import Errors RangeResolver TrendAggregator.

(** [ExpenseResponse]; a date is kept as its epoch time, which its ISO
    string is one-to-one with. *)
Record ExpenseResponse := mkResponse {
  r_id : Z;
  r_category : ExpenseCategory;
  r_amount : float;
  r_month : Z;
  r_year : Z;
  r_createdAt : Z;
  r_updatedAt : Z
}.

(** [toResponse]: the amount becomes a Number. *)
Definition toResponse (expense : Cost) : ExpenseResponse :=
  mkResponse (id expense) (category expense) (Js.Number (amount expense))
             (month expense) (year expense) (createdAt expense) (updatedAt expense).

(** How a call of the service ends. *)
Inductive Promise (A : Type) :=
| Resolve (value : A)
| Reject (error : ApiError).
Arguments Resolve {A} value.
Arguments Reject {A} error.

(** What the Prisma client throws: a known request error with its code,
    or anything else (a lost connection, say). *)
Inductive PrismaError := P2002 | P2025 | other_error.

(** [CreateExpenseRequest]; the amount in cents. *)
Record CreateExpenseRequest := mkCreate {
  d_category : ExpenseCategory;
  d_amount : Z;
  d_month : Z;
  d_year : Z
}.

(** ** The Prisma calls *)

(** The column [id] of [costs] is [SERIAL] ([Int] in the Prisma model):
    a 32-bit integer.  A number outside its range is no id: the client
    fails on it, with an error that is neither P2002 nor P2025. *)
Definition int4 (k : Z) : bool := (-2147483648 <=? k) && (k <=? 2147483647).

(** The row a primary-key value names, if any. *)
Definition row_of_id (k : Z) (table : list Cost) : option Cost :=
  find (fun c => id c =? k) table.

(** [prisma.cost.create({ data })].  [fault] says whether the database
    fails the call for a reason of its own (a lost connection, say);
    [nextId] is the value the id sequence hands out, [now] the time both
    timestamps default to.  A sequence that has run past the column's
    range fails the insert; the primary key and UNIQUE(category, month,
    year) are checked. *)
Definition create (fault : bool) (nextId now : Z) (data : CreateExpenseRequest)
  (table : list Cost) : (PrismaError + Cost) * list Cost :=
  let row := mkCost nextId (d_category data) (d_amount data) (d_month data)
                    (d_year data) now now in
  if fault then (inl other_error, table)
  else if negb (int4 nextId) then (inl other_error, table)
  else if existsb (fun c => id c =? nextId) table
          || existsb (Archive.same_period row) table
  then (inl P2002, table)
  else (inr row, table ++ [row]).

(** [prisma.cost.findUnique({ where: { id } })]: the row, [null], or the
    client's error on a number that is no id. *)
Definition findUnique (k : Z) (table : list Cost) : PrismaError + option Cost :=
  if int4 k then inr (row_of_id k table) else inl other_error.

(** [prisma.cost.update({ where: { id }, data: { amount, updatedAt } })]:
    the updated row and the table after. *)
Definition update (fault : bool) (now k new_amount : Z) (table : list Cost)
  : (PrismaError + Cost) * list Cost :=
  if fault then (inl other_error, table)
  else if negb (int4 k) then (inl other_error, table)
  else match row_of_id k table, Archive.updateExpense now k new_amount table with
       | Some existing, Some table' =>
           (inr (mkCost (id existing) (category existing) new_amount (month existing)
                        (year existing) (createdAt existing) now), table')
       | _, _ => (inl P2025, table)
       end.

(** [prisma.cost.delete({ where: { id } })]. *)
Definition delete (fault : bool) (k : Z) (table : list Cost)
  : (PrismaError + Cost) * list Cost :=
  if fault then (inl other_error, table)
  else if negb (int4 k) then (inl other_error, table)
  else match row_of_id k table with
       | Some existing => (inr existing, filter (fun c => negb (id c =? k)) table)
       | None => (inl P2025, table)
       end.

(** [prisma.cost.findFirst({ where: { category, month, year } })]. *)
Definition findFirst (category0 : ExpenseCategory) (month0 year0 : Z)
  (table : list Cost) : option Cost :=
  find (fun c => category_eqb (category c) category0
                 && (month c =? month0) && (year c =? year0)) table.

(** The position of a category in the enum, which [orderBy] on the column
    follows. *)
Definition category_rank (c : ExpenseCategory) : Z :=
  match c with
  | SALARIES => 0
  | SOFTWARE_TOOLS => 1
  | INFRASTRUCTURE_HOSTING => 2
  | HARDWARE_EQUIPMENT => 3
  | SECURITY_COMPLIANCE => 4
  | OPERATIONAL_ADMINISTRATIVE => 5
  | CONTINUOUS_LEARNING => 6
  end.

(** [orderBy: [{ year: 'desc' }, { month: 'desc' }, { category: 'asc' }]],
    as "[a] comes after [b]". *)
Definition newest_first (a b : Cost) : bool :=
  (year a <? year b)
  || ((year a =? year b)
      && ((month a <? month b)
          || ((month a =? month b)
              && (category_rank (category b) <? category_rank (category a))))).

(** [orderBy: [{ year: 'asc' }, { month: 'asc' }, { category: 'asc' }]]. *)
Definition oldest_first (a b : Cost) : bool :=
  (year b <? year a)
  || ((year a =? year b)
      && ((month b <? month a)
          || ((month a =? month b)
              && (category_rank (category b) <? category_rank (category a))))).

(** ** The service *)

(** [createExpense(data)]: the error P2002 becomes DuplicateEntryError,
    any other DatabaseError. *)
Definition createExpense (fault : bool) (nextId now : Z) (data : CreateExpenseRequest)
  (table : list Cost) : Promise ExpenseResponse * list Cost :=
  match create fault nextId now data table with
  | (inr expense, table') => (Resolve (toResponse expense), table')
  | (inl P2002, table') =>
      (Reject (DuplicateEntryError (d_category data) (d_month data) (d_year data)), table')
  | (inl _, table') => (Reject (DatabaseError "Failed to create expense"), table')
  end.

(** [query.limit || 50], [query.offset || 0]: an absent number and [0]
    are falsy. *)
Definition nat_or (n : option nat) (d : nat) : nat :=
  match n with
  | Some O | None => d
  | Some m => m
  end.

(** The [where] object of [getExpenses]. *)
Definition expenses_where (query : ExpenseQuery) : CostWhereInput :=
  mkWhere (option_map Equals (e_year query)) (option_map Equals (e_month query))
          None (e_category query).

(** [getExpenses(query)]: the page and the total. *)
Definition getExpenses (fault : bool) (query : ExpenseQuery) (table : list Cost)
  : Promise (list ExpenseResponse * nat) :=
  if fault then Reject (DatabaseError "Failed to retrieve expenses")
  else
    let where_ := expenses_where query in
    let total := List.length (filter (matches where_) table) in
    let expenses :=
      firstn (nat_or (e_limit query) 50)
        (skipn (nat_or (e_offset query) 0)
           (Js.sort newest_first (filter (matches where_) table))) in
    Resolve (map toResponse expenses, total).

(** [getExpenseById(id)]: NotFoundError when no row has the id; whatever
    the client throws becomes DatabaseError. *)
Definition getExpenseById (fault : bool) (k : Z) (table : list Cost)
  : Promise ExpenseResponse :=
  if fault then Reject (DatabaseError "Failed to retrieve expense")
  else match findUnique k table with
       | inl _ => Reject (DatabaseError "Failed to retrieve expense")
       | inr None => Reject (NotFoundError k)
       | inr (Some expense) => Resolve (toResponse expense)
       end.

(** [updateExpense(id, { amount })]: the error P2025 becomes
    NotFoundError, any other DatabaseError. *)
Definition updateExpense (fault : bool) (now k new_amount : Z) (table : list Cost)
  : Promise ExpenseResponse * list Cost :=
  match update fault now k new_amount table with
  | (inr expense, table') => (Resolve (toResponse expense), table')
  | (inl P2025, table') => (Reject (NotFoundError k), table')
  | (inl _, table') => (Reject (DatabaseError "Failed to update expense"), table')
  end.

(** [deleteExpense(id)]. *)
Definition deleteExpense (fault : bool) (k : Z) (table : list Cost)
  : Promise unit * list Cost :=
  match delete fault k table with
  | (inr _, table') => (Resolve tt, table')
  | (inl P2025, table') => (Reject (NotFoundError k), table')
  | (inl _, table') => (Reject (DatabaseError "Failed to delete expense"), table')
  end.

(** [expenseExists(category, month, year)]. *)
Definition expenseExists (fault : bool) (category0 : ExpenseCategory) (month0 year0 : Z)
  (table : list Cost) : Promise bool :=
  if fault then Reject (DatabaseError "Failed to check expense existence")
  else Resolve (match findFirst category0 month0 year0 table with
                | Some _ => true
                | None => false
                end).

(** ** [getTrends] *)

(** [TrendsApiResponse]: the data of one of the three modes, the summary
    with its period, the mode. *)
Inductive TrendsData :=
| MonthlyData (data : list MonthlyTrendData)
| YearlyData (data : list YearlyTrendData)
| CategoryData (data : list CategoryTrendData).

Record TrendsSummary := mkTrendsSummary {
  amounts : Summary;
  periodStart : string;
  periodEnd : string
}.

Record TrendsApiResponse := mkTrends {
  t_data : TrendsData;
  t_summary : TrendsSummary;
  t_groupBy : GroupBy
}.

(** [query.startMonth || 1], [query.endMonth || 12]. *)
Definition month_or (m : option Z) (d : Z) : Z :=
  match m with
  | Some 0 | None => d
  | Some z => z
  end.

(** [`${year}-${String(month).padStart(2, '0')}-01`]. *)
Definition period_label (y m : Z) : string :=
  (Js.String_of y ++ "-" ++ Js.padStart2 (Js.String_of m) ++ "-01")%string.

(** The rows [getTrends] reads: [findMany({ where, orderBy })]. *)
Definition trend_rows (query : TrendsQuery) (table : list Cost) : list Cost :=
  Js.sort oldest_first (filter (matches (build_where query)) table).

(** [getTrends(query)]: the rows of the range, aggregated in the mode
    asked for, and the period of the request added to the summary. *)
Definition getTrends (fault : bool) (query : TrendsQuery) (table : list Cost)
  : Promise TrendsApiResponse :=
  if fault then Reject (DatabaseError "Failed to retrieve trends data")
  else
    let expenses := trend_rows query table in
    let '(processedData, summary) :=
      match groupBy query with
      | by_year =>
          let '(data, summary) := processYearlyTrends expenses in (YearlyData data, summary)
      | by_category =>
          let '(data, summary) := processCategoryTrends expenses in (CategoryData data, summary)
      | by_month =>
          let '(data, summary) := processMonthlyTrends expenses in (MonthlyData data, summary)
      end in
    Resolve
      (mkTrends processedData
         (mkTrendsSummary summary
            (period_label (startYear query) (month_or (startMonth query) 1))
            (period_label (endYear query) (month_or (endMonth query) 12)))
         (groupBy query)).

End ExpenseService.

(* ===================================================================== *)
(** * The expense controller: [ExpenseController.getExpenses] *)
(* ===================================================================== *)

Module ExpenseController.
Import Errors ExpenseService.

(** The [pagination] object of a [PaginatedResponse]. *)
Record Pagination := mkPagination {
  p_total : nat;
  p_limit : nat;
  p_offset : nat;
  hasMore : bool
}.

(** [PaginatedResponse]; the timestamp is the time of the answer. *)
Record PaginatedResponse := mkPaginated {
  p_data : list ExpenseResponse;
  pagination : Pagination;
  timestamp : Z
}.

(** [getExpenses(req, res, next)]: the body sent with status 200, or the
    error handed to [next]. *)
Definition getExpenses (fault : bool) (now : Z) (raw : QueryValidation.RawExpenseQuery)
  (table : list Cost) : Promise PaginatedResponse :=
  match QueryValidation.expenseQuerySchema raw with
  | QueryValidation.Rejected error => Reject (ValidationError error)
  | QueryValidation.Accepted query =>
      match ExpenseService.getExpenses fault query table with
      | Reject error => Reject error
      | Resolve (expenses, total) =>
          Resolve
            (mkPaginated expenses
               (mkPagination total (nat_or (e_limit query) 50) (nat_or (e_offset query) 0)
                  (nat_or (e_offset query) 0 + List.length expenses <? total)%nat)
               now)
      end
  end.

End ExpenseController.

(* ===================================================================== *)
(** * Archive upkeep: [getArchiveStats], [cleanupOldArchives] *)
(* ===================================================================== *)

Module ArchiveUpkeep.
Import Archive.

(** What [getArchiveStats] resolves to; a count that [parseInt] could not
    read would be [None], a [null] date is [None]. *)
Record ArchiveStats := mkStats {
  totalArchivedRecords : option Z;
  oldestRecord : option Z;
  newestRecord : option Z;
  sizeEstimate : string
}.

(** [MIN(created_at)] and [MAX(created_at)]: [NULL] on an empty table. *)
Definition min_date (dates : list Z) : option Z :=
  match dates with
  | [] => None
  | d :: rest => Some (fold_left Z.min rest d)
  end.

Definition max_date (dates : list Z) : option Z :=
  match dates with
  | [] => None
  | d :: rest => Some (fold_left Z.max rest d)
  end.

(** [countResult[0]?.count || '0']: the count is a BigInt, and [0n] is
    falsy; [parseInt] then reads the BigInt through its decimal string. *)
Definition count_or_0 (n : Z) : string :=
  if n =? 0 then "0"%string else Js.String_of n.

Section Database.

(** [pg_size_pretty(pg_total_relation_size(table))]: the server's
    rendering of the table's size on disk, left abstract. *)
Variable pg_size_pretty : list ArchivedCost -> string.

(** [getArchiveStats()]. *)
Definition getArchiveStats (w : World) : ArchiveStats :=
  match costs_archive w with
  | None => mkStats (Some 0) None None "0 MB"
  | Some table =>
      mkStats (Js.parseInt (count_or_0 (Z.of_nat (List.length table))))
              (min_date (map created_at table))
              (max_date (map created_at table))
              (Js.str_or (Some (pg_size_pretty table)) "0 MB")
  end.

End Database.

(** [result.count] where [result] is what [$executeRawUnsafe] resolves
    to, the number of affected rows: a number has no [count] property, so
    the access gives [undefined]. *)
Definition count_of (result : nat) : option Z := None.

(** [x || 0] on a possibly undefined integer. *)
Definition int_or_0 (x : option Z) : Z :=
  match x with
  | Some z => z
  | None => 0
  end.

Section Clock.

Variable years_before : Z -> Z -> Z.

(** [cleanupOldArchives('costs_archive', maxArchiveYears)], called at
    time [now]. *)
Definition cleanupOldArchives (now maxArchiveYears : Z) (w : World)
  : Outcome Z * World :=
  let cutoffDate := years_before now maxArchiveYears in
  match costs_archive w with
  | None => (Throw undefined_table, w)
  | Some table =>
      let kept := filter (fun r => negb (created_at r <? cutoffDate)) table in
      let result := (List.length table - List.length kept)%nat in
      let deletedCount := int_or_0 (count_of result) in
      (Return deletedCount, mkWorld (costs w) (Some kept) (debug_log w))
  end.

End Clock.

End ArchiveUpkeep.

(* ===================================================================== *)
(** * The database under the writes of the application *)
(* ===================================================================== *)

Module Application.
Import Archive ExpenseService ArchiveUpkeep.

(** The database: its tables, and the next value of the sequence behind
    [costs.id] ([id SERIAL PRIMARY KEY]). *)
Record Database := mkDatabase {
  tables : World;
  costs_id_seq : Z
}.

(** The database as the migration leaves it: [costs] empty, no archive
    table yet, the sequence at its first value. *)
Definition migrated : Database := mkDatabase (mkWorld [] None []) 1.

(** The calls that write to it.  Rows of [costs] are written by
    [createExpense], [updateExpense], [deleteExpense], the [deleteMany] of
    [archiveOldData] and the [upsert] of [restoreFromArchive]; rows of
    [costs_archive] by the [INSERT] of [archiveBatch] and the [DELETE] of
    [cleanupOldArchives].  Each call carries its arguments, the time it
    runs at and the fate of its statements. *)
Inductive Call :=
| call_createExpense (fault : bool) (now : Z) (data : CreateExpenseRequest)
| call_updateExpense (fault : bool) (now k new_amount : Z)
| call_deleteExpense (fault : bool) (k : Z)
| call_archiveOldData (faults : nat -> bool) (now : Z) (config : PartialConfig)
| call_restoreFromArchive (now startDate endDate : Z)
| call_cleanupOldArchives (now maxArchiveYears : Z).

(** The tables with [costs] replaced. *)
Definition with_costs (w : World) (table : list Cost) : World :=
  mkWorld table (costs_archive w) (debug_log w).

Section Clock.

Variable years_before : Z -> Z -> Z.

(** The database after a call, however the call ends.  [createExpense]
    gets its id from the sequence; an insert the database runs uses the
    value up, also when it then fails on a constraint, while a statement
    lost on the way, or a sequence at its end, draws none. *)
Definition run (call : Call) (db : Database) : Database :=
  let w := tables db in
  match call with
  | call_createExpense fault now data =>
      let nextId := costs_id_seq db in
      mkDatabase (with_costs w (snd (createExpense fault nextId now data (costs w))))
                 (if fault || negb (int4 nextId) then nextId else nextId + 1)
  | call_updateExpense fault now k new_amount =>
      mkDatabase (with_costs w (snd (updateExpense fault now k new_amount (costs w))))
                 (costs_id_seq db)
  | call_deleteExpense fault k =>
      mkDatabase (with_costs w (snd (deleteExpense fault k (costs w))))
                 (costs_id_seq db)
  | call_archiveOldData faults now config =>
      mkDatabase (snd (archiveOldData years_before faults now config w))
                 (costs_id_seq db)
  | call_restoreFromArchive now startDate endDate =>
      mkDatabase (snd (restoreFromArchive now startDate endDate w))
                 (costs_id_seq db)
  | call_cleanupOldArchives now maxArchiveYears =>
      mkDatabase (snd (cleanupOldArchives years_before now maxArchiveYears w))
                 (costs_id_seq db)
  end.

(** A history of calls, the earliest first. *)
Definition run_all (calls : list Call) (db : Database) : Database :=
  fold_left (fun db call => run call db) calls db.

End Clock.

End Application.

(* ===================================================================== *)
(** * Vocabulary of the further properties *)
(* ===================================================================== *)

Module TrendsSpec.
Import TrendAggregator ExpenseService.

(** The aggregation [getTrends] answers with, by mode. *)
Definition aggregated (g : GroupBy) (expenses : list Cost) : TrendsData * Summary :=
  match g with
  | by_month => (MonthlyData (fst (processMonthlyTrends expenses)),
                 snd (processMonthlyTrends expenses))
  | by_year => (YearlyData (fst (processYearlyTrends expenses)),
                snd (processYearlyTrends expenses))
  | by_category => (CategoryData (fst (processCategoryTrends expenses)),
                    snd (processCategoryTrends expenses))
  end.

(** Two (year, month) pairs read back from keys, the first not after the
    second. *)
Definition chronological (ya ma yb mb : option Z) : Prop :=
  exists y1 m1 y2 m2,
    ya = Some y1 /\ ma = Some m1 /\ yb = Some y2 /\ mb = Some m2
    /\ (y1 < y2 \/ (y1 = y2 /\ m1 <= m2)).

End TrendsSpec.

Module ServiceSpec.
Import ExpenseService.

(** The rows a query of [getExpenses] asks for. *)
Definition selected (query : ExpenseQuery) (c : Cost) : Prop :=
  (forall y, e_year query = Some y -> year c = y)
  /\ (forall m, e_month query = Some m -> month c = m)
  /\ (forall k, e_category query = Some k -> category c = k).

(** The order of a page: later years first, within a year later months
    first, within a month the categories in the order of the enum. *)
Definition listed_before (a b : ExpenseResponse) : Prop :=
  r_year b < r_year a
  \/ (r_year a = r_year b
      /\ (r_month b < r_month a
          \/ (r_month a = r_month b
              /\ category_rank (r_category a) <= category_rank (r_category b)))).

(** The same query at another offset, and the page of an answer. *)
Definition at_offset (query : ExpenseQuery) (offset : nat) : ExpenseQuery :=
  mkExpenseQuery (e_year query) (e_month query) (e_category query)
                 (e_limit query) (Some offset).

Definition page_of (answer : Promise (list ExpenseResponse * nat))
  : list ExpenseResponse :=
  match answer with
  | Resolve (page, _) => page
  | Reject _ => []
  end.

End ServiceSpec.

Module FloatSpec.

(** The place of a number that is not NaN in the order of the floats:
    its class (-infinity, negative, zero, positive, +infinity), then its
    exponent and its mantissa, both negated for a negative number. *)
Definition rank (x : spec_float) : Z * Z * Z :=
  match x with
  | S754_infinity true => (-2, 0, 0)
  | S754_finite true m e => (-1, - e, - Z.pos m)
  | S754_zero _ | S754_nan => (0, 0, 0)
  | S754_finite false m e => (1, e, Z.pos m)
  | S754_infinity false => (2, 0, 0)
  end.

Definition rank_lt (a b : Z * Z * Z) : Prop :=
  let '(a1, a2, a3) := a in
  let '(b1, b2, b3) := b in
  a1 < b1 \/ (a1 = b1 /\ (a2 < b2 \/ (a2 = b2 /\ a3 < b3))).

End FloatSpec.

Module RestoreSpec.
Import Archive.

(** A live row that holds what a restore writes from an archived row. *)
Definition same_content (c : Cost) (record : ArchivedCost) : Prop :=
  id c = a_id record /\ category c = a_category record
  /\ amount c = a_amount record /\ month c = a_month record
  /\ year c = a_year record.

(** A live row with the given time as [updatedAt] when its id is among
    those of the records, and as it is otherwise. *)
Definition touched (now : Z) (records : list ArchivedCost) (c : Cost) : Cost :=
  if existsb (fun r => a_id r =? id c) records
  then mkCost (id c) (category c) (amount c) (month c) (year c) (createdAt c) now
  else c.

End RestoreSpec.

Module ApplicationSpec.
Import Archive ArchiveSpec ExpenseService Application.

(** A live row and an archived row that go back to one created expense:
    the columns no call changes are the same in both. *)
Definition same_origin (c : Cost) (r : ArchivedCost) : Prop :=
  a_category r = category c /\ a_month r = month c /\ a_year r = year c
  /\ created_at r = createdAt c.

(** What every history of calls keeps: ids are distinct within each
    table, all of them were handed out by the sequence, and rows of the
    two tables under one id have one origin. *)
Definition consistent (db : Database) : Prop :=
  let w := tables db in
  NoDup (map id (costs w))
  /\ NoDup (map a_id (table_of w))
  /\ (forall c r, In c (costs w) -> In r (table_of w) -> a_id r = id c -> same_origin c r)
  /\ (forall c, In c (costs w) -> id c < costs_id_seq db)
  /\ (forall r, In r (table_of w) -> a_id r < costs_id_seq db).

(** The example history: an expense is created and, ten years on,
    archived; it is restored, its amount then changed. *)
Definition example_history : list Call :=
  [ call_createExpense false 5 (mkCreate SALARIES 10000 1 2024);
    call_archiveOldData no_fault 100 (mkPartial None None);
    call_restoreFromArchive 110 0 10;
    call_updateExpense false 115 1 20000 ].

End ApplicationSpec.

(* ===================================================================== *)
(** * Properties of validation and range resolution *)
(* ===================================================================== *)

Module ValidationFacts.
Import Validation ValidationSpec.

Lemma in_range_valid k lo hi v n :
  in_range k lo hi v = Valid n -> n = v /\ lo <= v <= hi.
Proof.
  unfold in_range.
  destruct (v <? lo) eqn:Hlo; [discriminate|].
  destruct (hi <? v) eqn:Hhi; [discriminate|].
  intros H; injection H as <-.
  apply Z.ltb_ge in Hlo, Hhi. lia.
Qed.

Lemma optional_valid k lo hi v o :
  optional k lo hi v = Valid o -> o = v /\ forall n, v = Some n -> lo <= n <= hi.
Proof.
  destruct v as [n|]; simpl.
  - destruct (in_range k lo hi n) eqn:E; simpl; [|discriminate].
    intros H; injection H as <-.
    apply in_range_valid in E as [-> Hn].
    split; [reflexivity|]. intros ? [= <-]. exact Hn.
  - intros [= <-]. split; [reflexivity|]. discriminate.
Qed.

(** A query that passed the per-key rules has months within 1..12. *)
Lemma keys_months raw q :
  keys raw = Valid q ->
  (forall m, startMonth q = Some m -> 1 <= m <= 12)
  /\ (forall m, endMonth q = Some m -> 1 <= m <= 12).
Proof.
  unfold keys.
  destruct (required k_startYear 2020 2050 (r_startYear raw)); simpl; [|discriminate].
  destruct (required k_endYear 2020 2050 (r_endYear raw)); simpl; [|discriminate].
  destruct (optional k_startMonth 1 12 (r_startMonth raw)) as [sm|] eqn:Es; simpl; [|discriminate].
  destruct (optional k_endMonth 1 12 (r_endMonth raw)) as [em|] eqn:Ee; simpl; [|discriminate].
  intros [= <-]; simpl.
  apply optional_valid in Es as [-> Hs], Ee as [-> He]. split; assumption.
Qed.

(** The custom rule alone, on a query whose months are not [0]. *)
Lemma custom_spec q :
  startMonth q <> Some 0 -> endMonth q <> Some 0 ->
  (badly_ordered q -> exists msg, custom q = Invalid (any_invalid msg))
  /\ (~ badly_ordered q -> custom q = Valid q).
Proof.
  intros Hs He. unfold custom, badly_ordered.
  destruct (endYear q <? startYear q) eqn:Hy.
  - apply Z.ltb_lt in Hy. split; [eauto|]. intros H. exfalso. apply H. now left.
  - apply Z.ltb_ge in Hy.
    destruct (startYear q =? endYear q) eqn:Hsame; simpl.
    + apply Z.eqb_eq in Hsame.
      destruct (startMonth q) as [sm|] eqn:Esm; simpl.
      * assert (Hsm : sm <> 0) by congruence.
        apply Z.eqb_neq in Hsm. rewrite Hsm. simpl.
        destruct (endMonth q) as [em|] eqn:Eem; simpl.
        -- assert (Hem : em <> 0) by congruence.
           apply Z.eqb_neq in Hem. rewrite Hem. simpl.
           destruct (em <? sm) eqn:Hm.
           ++ split; [eauto|]. apply Z.ltb_lt in Hm. intros H. exfalso. apply H.
              right. split; [assumption|]. eauto.
           ++ apply Z.ltb_ge in Hm. split; [|reflexivity].
              intros [H|[_ (sm' & em' & [= <-] & [= <-] & H)]]; lia.
        -- split; [|reflexivity].
           intros [H|[_ (sm' & em' & _ & H & _)]]; [lia|discriminate].
      * split; [|reflexivity].
        intros [H|[_ (sm' & em' & H & _)]]; [lia|discriminate].
    + apply Z.eqb_neq in Hsame. split; [|reflexivity].
      intros [H|[H _]]; lia.
Qed.

(** C6. For every trends request that passes the per-key rules of the
    schema, validation fails with the ordering error ([any.invalid], the
    specification's RangeError) exactly when [endYear < startYear], or when
    [startYear = endYear], both months are given and [endMonth < startMonth];
    on every other such request validation succeeds and hands the query on
    unchanged. *)
Theorem trendsQuerySchema_range_error raw q :
  keys raw = Valid q ->
  ((exists msg, trendsQuerySchema raw = Invalid (any_invalid msg)) <-> badly_ordered q)
  /\ (~ badly_ordered q -> trendsQuerySchema raw = Valid q).
Proof.
  intros Hk. unfold trendsQuerySchema. rewrite Hk. simpl.
  destruct (keys_months raw q Hk) as [Hs He].
  assert (Hs0 : startMonth q <> Some 0) by (intros H; specialize (Hs _ H); lia).
  assert (He0 : endMonth q <> Some 0) by (intros H; specialize (He _ H); lia).
  destruct (custom_spec q Hs0 He0) as [Hbad Hgood].
  split; [split|]; [|exact Hbad|exact Hgood].
  intros [msg Hmsg].
  destruct (Decidable.dec_or (endYear q < startYear q) (startYear q = endYear q))
    as [Hd|Hd]; [apply Z.lt_decidable|apply Z.eq_decidable| |].
  - destruct Hd as [Hd|Hd]; [now left|].
    destruct (startMonth q) as [sm|] eqn:Esm, (endMonth q) as [em|] eqn:Eem.
    + destruct (Z.lt_ge_cases em sm) as [Hlt|Hge].
      * right. split; [assumption|]. exists sm, em. rewrite Esm, Eem. auto.
      * rewrite Hgood in Hmsg; [discriminate|].
        unfold badly_ordered. rewrite Esm, Eem.
        intros [H|[_ (sm' & em' & [= <-] & [= <-] & H)]]; lia.
    + rewrite Hgood in Hmsg; [discriminate|].
      unfold badly_ordered. rewrite Esm, Eem.
      intros [H|[_ (sm' & em' & _ & H & _)]]; [lia|discriminate].
    + rewrite Hgood in Hmsg; [discriminate|].
      unfold badly_ordered. rewrite Esm.
      intros [H|[_ (sm' & em' & H & _)]]; [lia|discriminate].
    + rewrite Hgood in Hmsg; [discriminate|].
      unfold badly_ordered. rewrite Esm.
      intros [H|[_ (sm' & em' & H & _)]]; [lia|discriminate].
  - rewrite Hgood in Hmsg; [discriminate|].
    intros [H|[H _]]; apply Hd; auto.
Qed.

Lemma trendsQuerySchema_range_error_witness :
  let raw := mkRaw (Some 2024) (Some 2024) (Some 7) (Some 3) None None in
  let q := mkTrendsQuery 2024 2024 (Some 7) (Some 3) None by_month in
  keys raw = Valid q
  /\ ((exists msg, trendsQuerySchema raw = Invalid (any_invalid msg)) <-> badly_ordered q)
  /\ (~ badly_ordered q -> trendsQuerySchema raw = Valid q).
Proof.
  split; [reflexivity|].
  apply (trendsQuerySchema_range_error
           (mkRaw (Some 2024) (Some 2024) (Some 7) (Some 3) None None)).
  reflexivity.
Defined.

Example same_year_months_reversed :
  trendsQuerySchema (mkRaw (Some 2024) (Some 2024) (Some 7) (Some 3) None None)
  = Invalid (any_invalid "End month cannot be before start month in the same year").
Proof. reflexivity. Qed.

Example cross_year_months_reversed_is_valid :
  trendsQuerySchema (mkRaw (Some 2023) (Some 2024) (Some 11) (Some 2) None None)
  = Valid (mkTrendsQuery 2023 2024 (Some 11) (Some 2) None by_month).
Proof. reflexivity. Qed.

End ValidationFacts.

Module RangeResolverFacts.
Import RangeResolver RangeSpec.

Lemma truthy_given o : o <> Some 0 -> Js.truthy o = match o with Some _ => true | None => false end.
Proof.
  destruct o as [z|]; [|reflexivity]. intros H. simpl.
  apply negb_true_iff, Z.eqb_neq. congruence.
Qed.

Lemma part_a_matches q y m :
  cond_matches (part_a q) y m = true
  <-> y = startYear q /\ forall sm, startMonth q = Some sm -> sm <= m.
Proof.
  unfold cond_matches, part_a; simpl.
  rewrite andb_true_iff, Z.eqb_eq.
  destruct (startMonth q) as [sm|]; simpl.
  - rewrite !andb_true_r, Z.geb_le. split.
    + intros [-> H]. split; [reflexivity|]. now intros ? [= <-].
    + intros [-> H]. split; [reflexivity|]. now apply H.
  - split; intros [-> _]; split; auto; discriminate.
Qed.

Lemma part_b_matches q y m :
  cond_matches (part_b q) y m = true <-> startYear q < y < endYear q.
Proof.
  unfold cond_matches, part_b; simpl.
  rewrite !andb_true_r, andb_true_iff, Z.gtb_ltb, !Z.ltb_lt. reflexivity.
Qed.

Lemma part_c_matches q y m :
  cond_matches (part_c q) y m = true
  <-> y = endYear q /\ forall em, endMonth q = Some em -> m <= em.
Proof.
  unfold cond_matches, part_c; simpl.
  rewrite andb_true_iff, Z.eqb_eq.
  destruct (endMonth q) as [em|]; simpl.
  - rewrite Z.leb_le. split.
    + intros [-> H]. split; [reflexivity|]. now intros ? [= <-].
    + intros [-> H]. split; [reflexivity|]. now apply H.
  - split; intros [-> _]; split; auto; discriminate.
Qed.

(** The conditions [getTrends] pushes are the three parts, the middle one
    left out when no year lies strictly between the two. *)
Lemma dateConditions_parts q :
  startMonth q <> Some 0 -> endMonth q <> Some 0 ->
  dateConditions q
  = [part_a q] ++ (if 1 <? endYear q - startYear q then [part_b q] else [])
    ++ [part_c q].
Proof.
  intros Hs He. unfold dateConditions, part_a, part_b, part_c.
  rewrite (truthy_given _ Hs), (truthy_given _ He).
  destruct (startMonth q), (endMonth q); reflexivity.
Qed.

(** C5. For every request with [startYear < endYear] (months, when given,
    not 0: validation admits 1..12 only), the [where] object is the
    three-part union: [startYear] from [startMonth] on (the whole year
    when absent), the years strictly between, [endYear] up to [endMonth]
    (the whole year when absent); a record matches it iff its category
    passes the category filter and its (year, month) matches one of the
    three parts, which is to say iff it lies in the inclusive span. *)
Theorem cross_year_union q r :
  startYear q < endYear q ->
  startMonth q <> Some 0 -> endMonth q <> Some 0 ->
  build_where q
  = mkWhere None None
      (Some ([part_a q] ++ (if 1 <? endYear q - startYear q then [part_b q] else [])
             ++ [part_c q]))
      (q_category q)
  /\ (matches (build_where q) r = true
      <-> category_matches (q_category q) (category r) = true
          /\ (cond_matches (part_a q) (year r) (month r) = true
              \/ cond_matches (part_b q) (year r) (month r) = true
              \/ cond_matches (part_c q) (year r) (month r) = true))
  /\ (matches (build_where q) r = true
      <-> category_matches (q_category q) (category r) = true
          /\ in_span q (year r) (month r)).
Proof.
  intros Hlt Hs He.
  assert (Hw : build_where q
    = mkWhere None None
        (Some ([part_a q] ++ (if 1 <? endYear q - startYear q then [part_b q] else [])
               ++ [part_c q]))
        (q_category q)).
  { unfold build_where.
    destruct (startYear q =? endYear q) eqn:E; [apply Z.eqb_eq in E; lia|].
    now rewrite dateConditions_parts. }
  assert (Hunion : matches (build_where q) r = true
      <-> category_matches (q_category q) (category r) = true
          /\ (cond_matches (part_a q) (year r) (month r) = true
              \/ cond_matches (part_b q) (year r) (month r) = true
              \/ cond_matches (part_c q) (year r) (month r) = true)).
  { rewrite Hw. unfold matches.
    cbn [w_year w_month w_OR w_category int_matches andb].
    rewrite andb_true_iff, !existsb_app, !orb_true_iff.
    cbn [existsb]. rewrite !orb_false_r.
    destruct (1 <? endYear q - startYear q) eqn:Hmid; cbn [existsb].
    - rewrite orb_false_r. tauto.
    - apply Z.ltb_ge in Hmid.
      rewrite (part_b_matches q (year r) (month r)).
      split; [intros [[H|[H|H]] Hc]; try discriminate; auto|].
      intros [Hc [H|[H|H]]]; auto; lia. }
  split; [exact Hw|]. split; [exact Hunion|].
  rewrite Hunion, part_a_matches, part_b_matches, part_c_matches.
  unfold in_span, from_start, upto_end.
  split; intros [Hc H]; (split; [exact Hc|]).
  - destruct H as [[-> H]|[H|[-> H]]].
    + split; [right; auto|left; lia].
    + split; left; lia.
    + split; [left; lia|right; auto].
  - destruct H as [[H1|[H1 H1']] [H2|[H2 H2']]]; auto; try lia.
Qed.

Lemma cross_year_union_witness :
  let q := mkTrendsQuery 2023 2024 (Some 11) (Some 2) None by_month in
  let r := mkCost 1 SALARIES 5000000 12 2023 0 0 in
  startYear q < endYear q /\ startMonth q <> Some 0 /\ endMonth q <> Some 0
  /\ matches (build_where q) r = true.
Proof.
  simpl.
  split; [lia|]. split; [discriminate|]. split; [discriminate|].
  apply (cross_year_union
           (mkTrendsQuery 2023 2024 (Some 11) (Some 2) None by_month)
           (mkCost 1 SALARIES 5000000 12 2023 0 0));
    [simpl; lia|discriminate|discriminate|].
  split; [reflexivity|].
  split; [right; split; [reflexivity|intros sm [= <-]; simpl; lia]
         |left; simpl; lia].
Defined.

(** The specification's cross-year example: 2023-11 to 2024-02 takes in
    2023-12 and 2024-01 and leaves out 2023-10 and 2024-03. *)
Example cross_year_example :
  let q := mkTrendsQuery 2023 2024 (Some 11) (Some 2) None by_month in
  let at_ y m := mkCost 1 SALARIES 100 m y 0 0 in
  build_where q
  = mkWhere None None
      (Some [ mkCond (Some (Equals 2023)) (Some (Bounds None (Some 11) None None));
              mkCond (Some (Equals 2024)) (Some (Bounds None None None (Some 2))) ])
      None
  /\ matches (build_where q) (at_ 2023 12) = true
  /\ matches (build_where q) (at_ 2024 1) = true
  /\ matches (build_where q) (at_ 2023 10) = false
  /\ matches (build_where q) (at_ 2024 3) = false.
Proof. repeat split. Qed.

End RangeResolverFacts.

(* ===================================================================== *)
(** * Lists: sorting, chunking *)
(* ===================================================================== *)

Module ListFacts.
Import Lists.
Local Open Scope nat_scope.

Section Sorting.
Variables (T : Type) (gt : T -> T -> bool).

Lemma insert_perm x l : Permutation (Js.insert gt x l) (x :: l).
Proof.
  induction l as [|y l IH]; simpl; [reflexivity|].
  destruct (gt x y); [|reflexivity].
  rewrite IH. apply perm_swap.
Qed.

Lemma sort_perm l : Permutation (Js.sort gt l) l.
Proof.
  induction l as [|x l IH]; simpl; [reflexivity|].
  rewrite insert_perm. now constructor.
Qed.

Lemma sort_length l : List.length (Js.sort gt l) = List.length l.
Proof. apply Permutation_length, sort_perm. Qed.

Lemma sort_In x l : In x (Js.sort gt l) <-> In x l.
Proof.
  split; apply Permutation_in; [apply sort_perm|apply Permutation_sym, sort_perm].
Qed.

(** Sorting leaves alone a list in which no element is greater than a
    later one. *)
Lemma insert_head x l :
  (forall y, In y l -> gt x y = false) -> Js.insert gt x l = x :: l.
Proof.
  destruct l as [|y l]; simpl; [reflexivity|].
  intros H. now rewrite (H y (or_introl eq_refl)).
Qed.

Lemma sort_sorted l :
  ForallOrdPairs (fun x y => gt x y = false) l -> Js.sort gt l = l.
Proof.
  induction 1 as [|x l Hx Hl IH]; simpl; [reflexivity|].
  rewrite IH. apply insert_head. now apply Forall_forall.
Qed.
End Sorting.

Lemma filter_none (T : Type) (f : T -> bool) (l : list T) :
  (forall x, In x l -> f x = false) -> filter f l = [].
Proof.
  induction l as [|x l IH]; intros H; simpl; [reflexivity|].
  rewrite (H x (or_introl eq_refl)). apply IH. intros y Hy. apply H. now right.
Qed.

Section Chunks.
Variable T : Type.

Lemma firstn_plus (a c : nat) (l : list T) :
  firstn (a + c) l = firstn a l ++ firstn c (skipn a l).
Proof.
  revert l; induction a as [|a IH]; intros l; simpl; [reflexivity|].
  destruct l as [|x l]; simpl.
  - now rewrite firstn_nil.
  - now rewrite IH.
Qed.

Lemma concat_chunks b (l : list T) k i :
  List.concat (map (chunk b l) (seq i k)) = firstn (k * b) (skipn (i * b) l).
Proof.
  revert i; induction k as [|k IH]; intros i; simpl; [reflexivity|].
  rewrite IH, firstn_plus. unfold chunk. f_equal. f_equal.
  rewrite skipn_skipn. f_equal.
Qed.

Lemma chunk_length b (l : list T) i :
  List.length (chunk b l i) = Nat.min b (List.length l - i * b).
Proof. unfold chunk. now rewrite length_firstn, length_skipn. Qed.
End Chunks.

Lemma ceil_div_lt n b i : 1 <= b -> (i < ceil_div n b <-> i * b < n).
Proof.
  intros Hb. unfold ceil_div.
  pose proof (Nat.div_mod_eq (n + b - 1) b) as E.
  pose proof (Nat.mod_upper_bound (n + b - 1) b ltac:(lia)) as M.
  split; intros H; nia.
Qed.

Lemma ceil_div_cover n b : 1 <= b -> n <= ceil_div n b * b.
Proof.
  intros Hb.
  destruct (Nat.le_gt_cases n (ceil_div n b * b)) as [H|H]; [exact H|].
  apply (ceil_div_lt n b (ceil_div n b) Hb) in H. lia.
Qed.

Lemma ceil_div_0 b : 1 <= b -> ceil_div 0 b = 0.
Proof.
  intros Hb. destruct (ceil_div 0 b) eqn:E; [reflexivity|].
  assert (H : 0 < ceil_div 0 b) by lia.
  apply (ceil_div_lt 0 b 0 Hb) in H. lia.
Qed.

End ListFacts.

(* ===================================================================== *)
(** * Properties of archival *)
(* ===================================================================== *)

Module ArchiveFacts.
Import Archive Lists ArchiveSpec ListFacts.
Local Open Scope nat_scope.
Local Arguments archiveBatch : simpl never.
Local Arguments findMany : simpl never.

(** ** The run, batch by batch *)

Lemma count_qualifying cutoff table :
  count cutoff table = List.length (qualifying cutoff table).
Proof. unfold count, qualifying, by_createdAt. now rewrite sort_length. Qed.

Lemma qualifying_In cutoff table r :
  In r (qualifying cutoff table) <-> In r table /\ older cutoff r = true.
Proof.
  unfold qualifying, by_createdAt. now rewrite sort_In, filter_In.
Qed.

Lemma archiveBatch_costs fault now records w out w1 :
  archiveBatch fault now records w = (out, w1) -> costs w1 = costs w.
Proof.
  unfold archiveBatch. destruct records; [now intros [= _ <-]|].
  destruct fault; [now intros [= _ <-]|].
  destruct (costs_archive w); now intros [= _ <-].
Qed.

Lemma chunk_nonempty cutoff b table i :
  1 <= b -> i * b < count cutoff table -> chunk b (qualifying cutoff table) i <> [].
Proof.
  intros Hb Hi E. apply (f_equal (@List.length _)) in E.
  rewrite chunk_length, <- count_qualifying in E. simpl in E. lia.
Qed.

(** With [batchSize >= 1] and fuel for one round per qualifying record,
    the loop is the run over the remaining batches. *)
Lemma archive_loop_batches faults now cutoff b table :
  1 <= b ->
  forall fuel i archived w,
    costs w = table ->
    count cutoff table - i * b <= fuel ->
    archive_loop fuel faults now cutoff b (count cutoff table) i (i * b) archived w
    = archive_batches faults now
        (map (chunk b (qualifying cutoff table))
             (seq i (ceil_div (count cutoff table) b - i)))
        i archived w.
Proof.
  intros Hb. set (n := count cutoff table).
  induction fuel as [|fuel IH]; intros i archived w Hw Hfuel.
  - simpl. destruct (i * b <? n) eqn:E.
    + apply Nat.ltb_lt in E. lia.
    + apply Nat.ltb_ge in E.
      replace (ceil_div n b - i) with 0; [reflexivity|].
      pose proof (ceil_div_lt n b i Hb). lia.
  - simpl. destruct (i * b <? n) eqn:E.
    + apply Nat.ltb_lt in E.
      assert (Hi : i < ceil_div n b) by now apply ceil_div_lt.
      replace (ceil_div n b - i) with (S (ceil_div n b - S i)) by lia.
      simpl. rewrite Hw.
      change (findMany cutoff b (i * b) table)
        with (chunk b (qualifying cutoff table) i).
      pose proof (chunk_nonempty cutoff b table i Hb E) as Hne.
      destruct (chunk b (qualifying cutoff table) i) as [|r batch] eqn:Ec;
        [congruence|].
      destruct (archiveBatch (faults i) now (r :: batch) w) as [[u|e|] w1] eqn:Eb;
        try reflexivity.
      replace (i * b + b) with (S i * b) by lia.
      apply IH.
      * simpl. now rewrite (archiveBatch_costs _ _ _ _ _ _ Eb).
      * lia.
    + apply Nat.ltb_ge in E.
      replace (ceil_div n b - i) with 0; [reflexivity|].
      pose proof (ceil_div_lt n b i Hb). lia.
Qed.

(** The fuel [archiveOldData] gives the loop is enough: the loop never
    runs out. *)
Lemma archive_loop_fuel faults now cutoff b table w :
  1 <= b -> costs w = table ->
  archive_loop (count cutoff table) faults now cutoff b (count cutoff table) 0 0 0 w
  = archive_batches faults now (batches cutoff b table) 0 0 w.
Proof.
  intros Hb Hw. unfold batches.
  rewrite <- (Nat.sub_0_r (ceil_div (count cutoff table) b)).
  apply (archive_loop_batches faults now cutoff b table Hb (count cutoff table) 0 0 w Hw).
  simpl. lia.
Qed.

Lemma batches_nonempty cutoff b table :
  1 <= b -> Forall (fun batch => batch <> []) (batches cutoff b table).
Proof.
  intros Hb. apply Forall_forall. intros batch Hin.
  apply in_map_iff in Hin as (i & <- & Hi). apply in_seq in Hi.
  apply chunk_nonempty; [exact Hb|]. apply ceil_div_lt; [exact Hb|lia].
Qed.

Lemma world_eta w table :
  costs_archive w = Some table ->
  mkWorld (costs w) (Some table) (debug_log w ++ []) = w.
Proof. destruct w; simpl. intros ->. now rewrite List.app_nil_r. Qed.

(** Every batch write succeeds: the run returns the number of records
    read, and the archive holds every batch. *)
Lemma archive_batches_ok faults now bs :
  Forall (fun batch => batch <> []) bs ->
  forall i archived w table,
    costs_archive w = Some table ->
    (forall j, j < List.length bs -> faults (i + j) = false) ->
    archive_batches faults now bs i archived w
    = (Return (archived + List.length (List.concat bs)),
       mkWorld (costs w) (Some (archived_after now bs table))
               (debug_log w ++ batch_logs archived bs)).
Proof.
  induction 1 as [|batch bs Hne Hbs IH]; intros i archived w table Hw Hf; simpl.
  - rewrite Nat.add_0_r. now rewrite world_eta.
  - destruct batch as [|r batch]; [congruence|].
    assert (Hf0 : faults i = false)
      by (rewrite <- (Nat.add_0_r i); apply Hf; simpl; lia).
    unfold archiveBatch. rewrite Hf0, Hw.
    rewrite (IH (S i) _ _ (insert_rows table (map (archive_row now) (r :: batch))));
      [|reflexivity
       |intros j Hj; replace (S i + j) with (i + S j) by lia; apply Hf; simpl; lia].
    simpl. rewrite List.length_app, <- List.app_assoc. simpl.
    f_equal. f_equal. lia.
Qed.

(** The [k]-th batch write is the first to fail: the run throws; the
    archive holds the [k] batches before it and nothing else changed. *)
Lemma archive_batches_fail faults now bs :
  Forall (fun batch => batch <> []) bs ->
  forall k i archived w table,
    costs_archive w = Some table ->
    k < List.length bs ->
    faults (i + k) = true ->
    (forall j, j < k -> faults (i + j) = false) ->
    archive_batches faults now bs i archived w
    = (Throw connection_error,
       mkWorld (costs w) (Some (archived_after now (firstn k bs) table))
               (debug_log w ++ batch_logs archived (firstn k bs))).
Proof.
  induction 1 as [|batch bs Hne Hbs IH]; intros k i archived w table Hw Hk Hf Hok;
    simpl in Hk; [lia|].
  destruct batch as [|r batch]; [congruence|].
  destruct k as [|k].
  - simpl. unfold archiveBatch. rewrite Nat.add_0_r in Hf. rewrite Hf.
    now rewrite world_eta.
  - cbn [archive_batches firstn batch_logs archived_after fold_left].
    assert (Hf0 : faults i = false)
      by (rewrite <- (Nat.add_0_r i); apply Hok; lia).
    unfold archiveBatch. rewrite Hf0, Hw.
    rewrite (IH k (S i) _ _ (insert_rows table (map (archive_row now) (r :: batch))));
      [|reflexivity|lia|now replace (S i + k) with (i + S k) by lia
       |intros j Hj; replace (S i + j) with (i + S j) by lia; apply Hok; lia].
    simpl. now rewrite <- List.app_assoc.
Qed.

(** ** The archive table under [ON CONFLICT (id) DO NOTHING] *)

Lemma insert_row_keeps table row a : In a table -> In a (insert_row table row).
Proof.
  unfold insert_row. destruct (existsb _ table); [auto|].
  intros H. apply in_or_app. now left.
Qed.

Lemma insert_rows_keeps rows : forall table a,
  In a table -> In a (insert_rows table rows).
Proof.
  induction rows as [|row rows IH]; intros table a H; simpl; [exact H|].
  apply IH. now apply insert_row_keeps.
Qed.

Lemma insert_row_id table row :
  exists a, In a (insert_row table row) /\ a_id a = a_id row.
Proof.
  unfold insert_row. destruct (existsb _ table) eqn:E.
  - apply existsb_exists in E as (a & Ha & Hid). apply Z.eqb_eq in Hid. eauto.
  - exists row. split; [|reflexivity]. apply in_or_app. right. now left.
Qed.

(** Every row handed to the insert has its id in the table afterwards. *)
Lemma insert_rows_ids rows : forall table row,
  In row rows -> exists a, In a (insert_rows table rows) /\ a_id a = a_id row.
Proof.
  induction rows as [|row0 rows IH]; intros table row Hin; simpl; [destruct Hin|].
  destruct Hin as [<-|Hin].
  - destruct (insert_row_id table row0) as (a & Ha & Hid).
    exists a. split; [|exact Hid]. now apply insert_rows_keeps.
  - now apply IH.
Qed.

Lemma insert_row_NoDup table row :
  NoDup (map a_id table) -> NoDup (map a_id (insert_row table row)).
Proof.
  unfold insert_row. destruct (existsb _ table) eqn:E; [auto|].
  intros H. rewrite map_app. simpl.
  apply NoDup_app_remove_l with (l := []). simpl.
  apply Permutation_NoDup with (l := a_id row :: map a_id table).
  - apply Permutation_cons_append.
  - constructor; [|exact H].
    intros Hin. apply in_map_iff in Hin as (a & Hid & Ha).
    assert (Ex : existsb (fun r => (a_id r =? a_id row)%Z) table = true).
    { apply existsb_exists. exists a. split; [exact Ha|]. now apply Z.eqb_eq. }
    congruence.
Qed.

(** The primary key of the archive survives any insert. *)
Lemma insert_rows_NoDup rows : forall table,
  NoDup (map a_id table) -> NoDup (map a_id (insert_rows table rows)).
Proof.
  induction rows as [|row rows IH]; intros table H; simpl; [exact H|].
  apply IH. now apply insert_row_NoDup.
Qed.

Lemma archived_after_insert now bs : forall table,
  archived_after now bs table
  = insert_rows table (map (archive_row now) (List.concat bs)).
Proof.
  unfold archived_after, insert_rows.
  induction bs as [|batch bs IH]; intros table; simpl; [reflexivity|].
  rewrite IH. now rewrite map_app, fold_left_app.
Qed.

Lemma archived_after_NoDup now bs table :
  NoDup (map a_id table) -> NoDup (map a_id (archived_after now bs table)).
Proof. rewrite archived_after_insert. apply insert_rows_NoDup. Qed.

Lemma archived_after_keeps now bs table a :
  In a table -> In a (archived_after now bs table).
Proof. rewrite archived_after_insert. apply insert_rows_keeps. Qed.

Lemma concat_batches cutoff b table :
  1 <= b -> List.concat (batches cutoff b table) = qualifying cutoff table.
Proof.
  intros Hb. unfold batches. rewrite concat_chunks. simpl.
  apply firstn_all2. rewrite <- count_qualifying. now apply ceil_div_cover.
Qed.

Lemma batches_length cutoff b table :
  List.length (batches cutoff b table) = ceil_div (count cutoff table) b.
Proof. unfold batches. now rewrite length_map, length_seq. Qed.

Lemma ensure_table w :
  costs_archive (ensureArchiveTableExists w) = Some (table_of w)
  /\ costs (ensureArchiveTableExists w) = costs w
  /\ debug_log (ensureArchiveTableExists w) = debug_log w.
Proof.
  unfold ensureArchiveTableExists, table_of.
  destruct (costs_archive w) eqn:E; simpl; auto.
Qed.

Section Runs.
Variable years_before : Z -> Z -> Z.

(** C2. If, in a run with [batchSize >= 1], the [k]-th batch write is
    the first to fail, then [archiveOldData] throws that error, the live
    table is what it was (the bulk delete did not run), and the archive
    table is the one left by the [k] earlier batches: every row it had
    is still there and every record of an earlier batch has its id in
    it. *)
Theorem archive_write_failure faults now config w k :
  let cutoff := years_before now (retentionYears (merge config)) in
  let bs := batches cutoff (batchSize (merge config)) (costs w) in
  1 <= batchSize (merge config) ->
  k < List.length bs ->
  faults k = true ->
  (forall j, j < k -> faults j = false) ->
  exists w',
    archiveOldData years_before faults now config w = (Throw connection_error, w')
    /\ costs w' = costs w
    /\ costs_archive w' = Some (archived_after now (firstn k bs) (table_of w))
    /\ (forall a, In a (table_of w) -> In a (table_of w'))
    /\ (forall j batch r,
          j < k -> nth_error bs j = Some batch -> In r batch ->
          exists a, In a (table_of w') /\ a_id a = id r).
Proof.
  intros cutoff bs Hb Hk Hfault Hok.
  destruct (ensure_table w) as (Ha & Hc & Hl).
  assert (Hn : count cutoff (costs w) <> 0).
  { intros E. unfold bs in Hk. rewrite batches_length, E, ceil_div_0 in Hk; lia. }
  eexists. split; [|split; [|split; [|split]]].
  - unfold archiveOldData. fold cutoff. rewrite Hc.
    destruct (count cutoff (costs w) =? 0) eqn:E; [apply Nat.eqb_eq in E; lia|].
    rewrite <- Hc at 1 2.
    rewrite (archive_loop_fuel faults now cutoff _ _ _ Hb eq_refl).
    rewrite Hc. fold bs.
    rewrite (archive_batches_fail faults now bs (batches_nonempty _ _ _ Hb)
               k 0 0 _ _ Ha Hk Hfault Hok).
    reflexivity.
  - simpl. exact Hc.
  - reflexivity.
  - intros a Hin. unfold table_of at 2; simpl. now apply archived_after_keeps.
  - intros j batch r Hj Hnth Hin. unfold table_of at 1; simpl.
    rewrite archived_after_insert.
    destruct (insert_rows_ids
                (map (archive_row now) (List.concat (firstn k bs)))
                (table_of w) (archive_row now r)) as (a & Ha' & Hid).
    + apply in_map. apply in_concat. exists batch. split; [|exact Hin].
      apply nth_error_In with (n := j). rewrite nth_error_firstn.
      destruct (j <? k) eqn:Ej; [exact Hnth|apply Nat.ltb_ge in Ej; lia].
    + exists a. split; [exact Ha'|exact Hid].
Qed.

Lemma count_after_delete cutoff table :
  count cutoff (filter (fun c => negb (older cutoff c)) table) = 0.
Proof.
  unfold count. induction table as [|c table IH]; simpl; [reflexivity|].
  destruct (older cutoff c) eqn:E; simpl; [exact IH|]. now rewrite E.
Qed.

(** A run in which every batch write succeeds. *)
Lemma archive_run_ok faults now config w :
  let cutoff := years_before now (retentionYears (merge config)) in
  let n := count cutoff (costs w) in
  let bs := batches cutoff (batchSize (merge config)) (costs w) in
  1 <= batchSize (merge config) ->
  (forall j, j < ceil_div n (batchSize (merge config)) -> faults j = false) ->
  n <> 0 ->
  archiveOldData years_before faults now config w
  = (Return (mkResult n n cutoff),
     mkWorld (filter (fun c => negb (older cutoff c)) (costs w))
             (Some (archived_after now bs (table_of w)))
             (debug_log w ++ batch_logs 0 bs)).
Proof.
  intros cutoff n bs Hb Hok Hn.
  destruct (ensure_table w) as (Ha & Hc & Hl).
  unfold archiveOldData. fold cutoff. rewrite Hc. fold n.
  destruct (n =? 0) eqn:E; [apply Nat.eqb_eq in E; lia|].
  unfold n. rewrite <- Hc at 1 2.
  rewrite (archive_loop_fuel faults now cutoff _ _ _ Hb eq_refl).
  rewrite Hc. fold bs.
  rewrite (archive_batches_ok faults now bs (batches_nonempty _ _ _ Hb) 0 0 _ _ Ha).
  - unfold deleteMany. cbn [costs costs_archive debug_log].
    rewrite Hc, Hl. unfold bs at 1.
    rewrite (concat_batches _ _ _ Hb), <- count_qualifying. reflexivity.
  - intros j Hj. apply Hok. unfold bs in Hj. now rewrite batches_length in Hj.
Qed.

(** A run that finds nothing to archive. *)
Lemma archive_run_nothing faults now config w :
  let cutoff := years_before now (retentionYears (merge config)) in
  count cutoff (costs w) = 0 ->
  archiveOldData years_before faults now config w
  = (Return (mkResult 0 0 cutoff), ensureArchiveTableExists w).
Proof.
  intros cutoff Hn. destruct (ensure_table w) as (Ha & Hc & Hl).
  unfold archiveOldData. fold cutoff. now rewrite Hc, Hn.
Qed.


(** C3. After a run in which every batch write succeeds (with
    [batchSize >= 1] and an archive table whose ids are distinct, as its
    primary key makes them), the live table holds no qualifying record, and
    a second run with the same cutoff over any live table without
    qualifying records returns counts 0 and 0 and changes nothing; the
    ids of the archive table are distinct after every batch of the first
    run, and so at its end and after the second run. *)
Theorem archive_idempotent faults faults2 now config w :
  let cutoff := years_before now (retentionYears (merge config)) in
  let b := batchSize (merge config) in
  let bs := batches cutoff b (costs w) in
  1 <= b ->
  (forall j, j < ceil_div (count cutoff (costs w)) b -> faults j = false) ->
  NoDup (map a_id (table_of w)) ->
  exists r1 w1,
    archiveOldData years_before faults now config w = (Return r1, w1)
    /\ count cutoff (costs w1) = 0
    /\ (forall w2,
          costs_archive w2 = costs_archive w1 ->
          count cutoff (costs w2) = 0 ->
          archiveOldData years_before faults2 now config w2
          = (Return (mkResult 0 0 cutoff), w2))
    /\ (forall k, NoDup (map a_id (archived_after now (firstn k bs) (table_of w))))
    /\ table_of w1 = archived_after now bs (table_of w)
    /\ NoDup (map a_id (table_of w1)).
Proof.
  intros cutoff b bs Hb Hok Hpk.
  destruct (Nat.eq_dec (count cutoff (costs w)) 0) as [Hn|Hn].
  - destruct (ensure_table w) as (Ha & Hc & Hl).
    exists (mkResult 0 0 cutoff), (ensureArchiveTableExists w).
    split; [now apply archive_run_nothing|].
    split; [now rewrite Hc|].
    split; [|split; [|split]].
    + intros w2 Harch Hn2.
      rewrite (archive_run_nothing faults2 now config w2 Hn2).
      f_equal. unfold ensureArchiveTableExists. now rewrite Harch, Ha.
    + intros k. now apply archived_after_NoDup.
    + unfold table_of at 1. rewrite Ha. unfold bs, batches.
      rewrite Hn, ceil_div_0 by exact Hb. reflexivity.
    + unfold table_of at 1. now rewrite Ha.
  - eexists _, _. split; [now apply archive_run_ok|].
    cbn [costs costs_archive debug_log].
    split; [apply count_after_delete|].
    split; [|split; [|split]].
    + intros w2 Harch Hn2.
      rewrite (archive_run_nothing faults2 now config w2 Hn2).
      f_equal. unfold ensureArchiveTableExists. now rewrite Harch.
    + intros k. now apply archived_after_NoDup.
    + reflexivity.
    + unfold table_of at 1; simpl. now apply archived_after_NoDup.
Qed.

End Runs.

(** ** Restoring *)



Lemma find_id_In k table c :
  find (fun c' => (id c' =? k)%Z) table = Some c -> In c table /\ id c = k.
Proof.
  intros H. apply find_some in H as [Hin Hid]. split; [exact Hin|now apply Z.eqb_eq].
Qed.

Lemma find_id_None k table :
  find (fun c' => (id c' =? k)%Z) table = None -> ~ In k (map id table).
Proof.
  intros H Hin. apply in_map_iff in Hin as (c & Hid & Hc).
  apply (find_none _ _ H) in Hc. apply Z.eqb_neq in Hc. contradiction.
Qed.

Lemma find_id_NoDup table c :
  NoDup (map id table) -> In c table ->
  find (fun c' => (id c' =? id c)%Z) table = Some c.
Proof.
  induction table as [|c0 table IH]; intros Hnd Hin; [destruct Hin|].
  simpl in Hnd. apply NoDup_cons_iff in Hnd as [Hfresh Hnd]. simpl.
  destruct (id c0 =? id c)%Z eqn:E.
  - apply Z.eqb_eq in E. destruct Hin as [->|Hin]; [reflexivity|].
    exfalso. apply Hfresh. rewrite E. now apply in_map.
  - apply Z.eqb_neq in E. destruct Hin as [->|Hin]; [congruence|]. now apply IH.
Qed.

(** The two ways an upsert returns. *)
Lemma upsert_return now record table u table' :
  upsert now record table = (Return u, table') ->
  (exists existing,
      find (fun c => (id c =? a_id record)%Z) table = Some existing
      /\ table' = map (fun c => if (id c =? a_id record)%Z
                                then updated_of now existing record else c) table)
  \/ (find (fun c => (id c =? a_id record)%Z) table = None
      /\ table' = table ++ [created_of record]).
Proof.
  unfold upsert.
  destruct (find (fun c => (id c =? a_id record)%Z) table) as [existing|] eqn:Ef.
  - destruct (existsb _ _); [discriminate|].
    intros [= _ <-]. left. exists existing. split; reflexivity.
  - destruct (existsb _ _); [discriminate|].
    intros [= _ <-]. right. split; reflexivity.
Qed.

(** An upsert touches no row with another id. *)
Lemma upsert_other now record table u table' c :
  upsert now record table = (Return u, table') ->
  id c <> a_id record ->
  (In c table <-> In c table').
Proof.
  intros Hup Hid.
  apply upsert_return in Hup as [(existing & Hf & ->)|(Hf & ->)].
  - apply find_id_In in Hf as [_ Hex]. rewrite in_map_iff. split.
    + intros Hin. exists c. split; [|exact Hin].
      destruct (id c =? a_id record)%Z eqn:E; [apply Z.eqb_eq in E; contradiction|reflexivity].
    + intros (c0 & Hc0 & Hin).
      destruct (id c0 =? a_id record)%Z eqn:E.
      * subst c. simpl in Hid. contradiction.
      * now subst c0.
  - rewrite in_app_iff. simpl. split; [auto|].
    intros [H|[H|[]]]; [exact H|]. subst c. simpl in Hid. contradiction.
Qed.

Lemma upsert_ids now record table u table' :
  upsert now record table = (Return u, table') ->
  NoDup (map id table) -> NoDup (map id table').
Proof.
  intros Hup Hnd.
  apply upsert_return in Hup as [(existing & Hf & ->)|(Hf & ->)].
  - apply find_id_In in Hf as [_ Hex].
    replace (map id (map _ table)) with (map id table); [exact Hnd|].
    rewrite map_map. apply map_ext_in. intros c _.
    destruct (id c =? a_id record)%Z eqn:E; [|reflexivity].
    apply Z.eqb_eq in E. simpl. congruence.
  - rewrite map_app. simpl.
    apply Permutation_NoDup with (l := a_id record :: map id table).
    + apply Permutation_cons_append.
    + constructor; [now apply find_id_None|exact Hnd].
Qed.

Lemma upsert_created now record table u table' :
  upsert now record table = (Return u, table') ->
  ~ In (a_id record) (map id table) ->
  In (created_of record) table'.
Proof.
  intros Hup Hfresh.
  apply upsert_return in Hup as [(existing & Hf & ->)|(Hf & ->)].
  - apply find_id_In in Hf as [Hin Hex]. exfalso. apply Hfresh.
    rewrite <- Hex. now apply in_map.
  - apply in_or_app. right. now left.
Qed.

Lemma upsert_updated now record table u table' existing :
  upsert now record table = (Return u, table') ->
  NoDup (map id table) -> In existing table -> id existing = a_id record ->
  In (updated_of now existing record) table'.
Proof.
  intros Hup Hnd Hin Hid.
  apply upsert_return in Hup as [(existing' & Hf & ->)|(Hf & ->)].
  - rewrite <- Hid, (find_id_NoDup _ _ Hnd Hin) in Hf. injection Hf as <-.
    apply in_map_iff. exists existing. split; [|exact Hin].
    now rewrite Hid, Z.eqb_refl.
  - exfalso. apply (find_id_None _ _ Hf). rewrite <- Hid. now apply in_map.
Qed.

Lemma restore_each_cons now record rest table u table' :
  restore_each now (record :: rest) table = (Return u, table') ->
  exists u1 table1,
    upsert now record table = (Return u1, table1)
    /\ restore_each now rest table1 = (Return u, table').
Proof.
  simpl. destruct (upsert now record table) as [[u1|e|] table1]; try discriminate.
  intros H. now exists u1, table1.
Qed.

(** Rows whose id is not being restored are left alone. *)
Lemma restore_each_other now records : forall table u table' c,
  restore_each now records table = (Return u, table') ->
  (forall record, In record records -> a_id record <> id c) ->
  In c table -> In c table'.
Proof.
  induction records as [|record rest IH]; intros table u table' c Hr Hids Hin.
  - simpl in Hr. now injection Hr as _ <-.
  - apply restore_each_cons in Hr as (u1 & table1 & Hup & Hr).
    apply (IH table1 u table' c Hr).
    + intros r Hr'. apply Hids. now right.
    + apply (upsert_other _ _ _ _ _ c Hup); [|exact Hin].
      intros E. apply (Hids record); [now left|now symmetry].
Qed.

Lemma restore_each_ids now records : forall table u table',
  restore_each now records table = (Return u, table') ->
  NoDup (map id table) -> NoDup (map id table').
Proof.
  induction records as [|record rest IH]; intros table u table' Hr Hnd.
  - simpl in Hr. now injection Hr as _ <-.
  - apply restore_each_cons in Hr as (u1 & table1 & Hup & Hr).
    apply (IH table1 u table' Hr). now apply (upsert_ids _ _ _ _ _ Hup).
Qed.

(** What a restore that returns leaves for each archived row it read:
    the row created from it when its id was free, the existing row
    overwritten from it when its id was taken. *)
Lemma restore_each_final now records : forall table u table' record,
  restore_each now records table = (Return u, table') ->
  NoDup (map a_id records) -> NoDup (map id table) ->
  In record records ->
  (~ In (a_id record) (map id table) -> In (created_of record) table')
  /\ (forall existing, In existing table -> id existing = a_id record ->
        In (updated_of now existing record) table').
Proof.
  induction records as [|record0 rest IH];
    intros table u table' record Hr Hpk Hnd Hin; [destruct Hin|].
  apply restore_each_cons in Hr as (u1 & table1 & Hup & Hr).
  simpl in Hpk. apply NoDup_cons_iff in Hpk as [Hfresh Hpk].
  assert (Hlater : forall x, id x = a_id record0 ->
            forall r, In r rest -> a_id r <> id x).
  { intros x Hx r Hr' E. apply Hfresh. rewrite <- Hx, <- E. now apply in_map. }
  destruct Hin as [->|Hin].
  - split.
    + intros Hfree.
      apply (restore_each_other _ _ _ _ _ _ Hr); [now apply Hlater|].
      now apply (upsert_created _ _ _ _ _ Hup).
    + intros existing Hex Hid.
      apply (restore_each_other _ _ _ _ _ _ Hr); [now apply Hlater|].
      now apply (upsert_updated _ _ _ _ _ _ Hup).
  - assert (Hne : a_id record <> a_id record0).
    { intros E. apply Hfresh. rewrite <- E. now apply in_map. }
    destruct (IH table1 u table' record Hr Hpk (upsert_ids _ _ _ _ _ Hup Hnd) Hin)
      as [Hc Hu].
    split.
    + intros Hfree. apply Hc. intros Hin1.
      apply in_map_iff in Hin1 as (c & Hid & Hc1).
      apply (upsert_other _ _ _ _ _ c Hup) in Hc1; [|congruence].
      apply Hfree. rewrite <- Hid. now apply in_map.
    + intros existing Hex Hid. apply Hu; [|exact Hid].
      apply (upsert_other _ _ _ _ _ existing Hup); [congruence|exact Hex].
Qed.

(** Selecting rows keeps a key distinct. *)
Lemma NoDup_map_filter (Row Key : Type) (key : Row -> Key) (keep : Row -> bool)
  (rows : list Row) (Hkey : NoDup (map key rows)) :
  NoDup (map key (filter keep rows)).
Proof.
  induction rows as [|row rows IH]; simpl; [constructor|].
  simpl in Hkey. apply NoDup_cons_iff in Hkey as [Hrow Hkey].
  destruct (keep row); simpl; [|now apply IH].
  constructor; [|now apply IH].
  intros Hin. apply Hrow. apply in_map_iff in Hin as (other & Hsame & Hin).
  apply filter_In in Hin as [Hin _]. rewrite <- Hsame. now apply in_map.
Qed.

Lemma restore_return now startDate endDate w n w2 :
  restoreFromArchive now startDate endDate w = (Return n, w2) ->
  costs_archive w2 = costs_archive w
  /\ (filter (in_range startDate endDate) (table_of w) = [] /\ costs w2 = costs w
      \/ exists u,
           restore_each now (filter (in_range startDate endDate) (table_of w)) (costs w)
           = (Return u, costs w2)).
Proof.
  unfold restoreFromArchive, table_of.
  destruct (costs_archive w) as [table|] eqn:Ea; [|discriminate].
  destruct (filter (in_range startDate endDate) table) as [|record records] eqn:Ef.
  - intros [= _ <-]. split; [exact Ea|]. left. split; reflexivity.
  - destruct (restore_each now (record :: records) (costs w)) as [[u|e|] table1] eqn:Er;
      try discriminate.
    intros [= _ <-]. split; [reflexivity|]. right. now exists u.
Qed.

(** The update payload of the upsert, on any tables with distinct ids:
    when [restoreFromArchive] returns and an archived row in the range
    has the id of a live row, that live row gets the archived category,
    amount, month and year and the current time as [updatedAt]; its id
    and [createdAt] stay, and every live row whose id is not among the
    restored ones is left as it was. *)
Lemma restore_collision now startDate endDate w n w2 existing record :
  NoDup (map id (costs w)) ->
  NoDup (map a_id (table_of w)) ->
  In existing (costs w) ->
  In record (table_of w) ->
  in_range startDate endDate record = true ->
  a_id record = id existing ->
  restoreFromArchive now startDate endDate w = (Return n, w2) ->
  In (mkCost (id existing) (a_category record) (a_amount record) (a_month record)
             (a_year record) (createdAt existing) now) (costs w2)
  /\ NoDup (map id (costs w2))
  /\ (forall c, In c (costs w) ->
        (forall r, In r (table_of w) -> in_range startDate endDate r = true ->
                   a_id r <> id c) ->
        In c (costs w2)).
Proof.
  intros Hlive Hpk Hex Hrec Hin Hid Hret.
  apply restore_return in Hret as [_ [[Hnil _]|[u Hr]]].
  - exfalso. assert (H : In record (filter (in_range startDate endDate) (table_of w)))
      by (apply filter_In; now split).
    rewrite Hnil in H. destruct H.
  - split; [|split].
    + apply (restore_each_final _ _ _ _ _ record Hr).
      * now apply NoDup_map_filter.
      * exact Hlive.
      * apply filter_In. now split.
      * exact Hex.
      * now symmetry.
    + now apply (restore_each_ids _ _ _ _ _ Hr).
    + intros c Hc Hfree. apply (restore_each_other _ _ _ _ _ c Hr); [|exact Hc].
      intros r Hr'. apply filter_In in Hr' as [Hr1 Hr2]. now apply Hfree.
Qed.

(** ** Archive, then restore *)

(** Rows with fresh, distinct ids are all appended. *)
Lemma insert_rows_fresh rows : forall table,
  NoDup (map a_id rows) ->
  (forall row a, In row rows -> In a table -> a_id a <> a_id row) ->
  insert_rows table rows = table ++ rows.
Proof.
  induction rows as [|row rows IH]; intros table Hnd Hfresh.
  - simpl. now rewrite List.app_nil_r.
  - simpl in Hnd. apply NoDup_cons_iff in Hnd as [Hrow Hnd].
    assert (E : existsb (fun r => (a_id r =? a_id row)%Z) table = false).
    { apply not_true_is_false. intros H.
      apply existsb_exists in H as (a & Ha & Hid). apply Z.eqb_eq in Hid.
      now apply (Hfresh row a (or_introl eq_refl) Ha). }
    change (insert_rows table (row :: rows))
      with (insert_rows (insert_row table row) rows).
    replace (insert_row table row) with (table ++ [row])
      by (unfold insert_row; now rewrite E).
    rewrite IH, <- List.app_assoc; [reflexivity|exact Hnd|].
    intros r a Hr Ha. apply in_app_or in Ha as [Ha|[<-|[]]].
    + apply Hfresh; [now right|exact Ha].
    + intros Hid. apply Hrow. rewrite Hid. now apply in_map.
Qed.



Lemma category_eqb_eq a b : category_eqb a b = true <-> a = b.
Proof. destruct a, b; simpl; split; congruence. Qed.

Lemma same_period_eq a b : same_period a b = true <-> unique_key a = unique_key b.
Proof.
  unfold same_period, unique_key.
  rewrite !andb_true_iff, category_eqb_eq, !Z.eqb_eq.
  split; [intros [[-> ->] ->]; reflexivity|intros [= -> -> ->]; auto].
Qed.




Section RoundTrip.
Variable years_before : Z -> Z -> Z.


End RoundTrip.

(** ** Concrete runs *)

Lemma archive_write_failure_witness :
  1 <= 2
  /\ second_fails 1 = true
  /\ exists w',
       archiveOldData years_back second_fails 100 batch_of_2 fresh_db
       = (Throw connection_error, w')
       /\ costs w' = live6
       /\ costs_archive w'
          = Some (map (archive_row 100) (map old_record [1; 2]%Z)).
Proof.
  split; [lia|]. split; [reflexivity|].
  destruct (archive_write_failure years_back second_fails 100 batch_of_2 fresh_db 1)
    as (w' & Hrun & Hlive & Harch & _).
  - simpl. lia.
  - vm_compute. lia.
  - reflexivity.
  - intros j Hj. destruct j; [reflexivity|lia].
  - exists w'. split; [exact Hrun|]. split; [exact Hlive|exact Harch].
Defined.

(** The specification's example: 5 qualifying records, batches of 2. *)
Example archive_5_by_2 :
  archiveOldData years_back no_fault 100 batch_of_2 fresh_db
  = (Return (mkResult 5 5 90),
     mkWorld [mkCost 6 SOFTWARE_TOOLS 700 6 2020 95 95]
             (Some (map (archive_row 100) (map old_record [1; 2; 3; 4; 5]%Z)))
             [mkBatchLog 2 2; mkBatchLog 2 4; mkBatchLog 1 5]).
Proof. reflexivity. Qed.

Example archive_5_by_2_again :
  let w1 := snd (archiveOldData years_back no_fault 100 batch_of_2 fresh_db) in
  archiveOldData years_back no_fault 100 batch_of_2 w1
  = (Return (mkResult 0 0 90), w1).
Proof. reflexivity. Qed.



Lemma archive_idempotent_witness :
  1 <= batchSize (merge batch_of_2)
  /\ NoDup (map a_id (table_of fresh_db))
  /\ exists r1 w1,
       archiveOldData years_back no_fault 100 batch_of_2 fresh_db = (Return r1, w1)
       /\ archiveOldData years_back second_fails 100 batch_of_2 w1
          = (Return (mkResult 0 0 90), w1)
       /\ NoDup (map a_id (table_of w1)).
Proof.
  split; [simpl; lia|]. split; [constructor|].
  destruct (archive_idempotent years_back no_fault second_fails 100 batch_of_2 fresh_db)
    as (r1 & w1 & Hrun & Hnone & Hagain & _ & _ & Hpk).
  - simpl. lia.
  - reflexivity.
  - constructor.
  - exists r1, w1. split; [exact Hrun|]. split; [|exact Hpk].
    apply Hagain; [reflexivity|exact Hnone].
Defined.



(** The payload at work on tables no call of the application produces:
    a live row and an archived row under one id, with different
    categories and periods.  There the restore rewrites category, month
    and year; [ApplicationFacts] shows that the tables the application
    leaves never hold such a pair. *)
Example upsert_payload_on_foreign_rows :
  let before := mkCost 1 SALARIES 100 1 2024 5 5 in
  let w := mkWorld [before] (Some [mkArchived 1 SOFTWARE_TOOLS 200 2 2023 5 5 50]) [] in
  restoreFromArchive 100 0 10 w
  = (Return 1%nat,
     mkWorld [mkCost 1 SOFTWARE_TOOLS 200 2 2023 5 100] (costs_archive w) []).
Proof. reflexivity. Qed.



End ArchiveFacts.

(* ===================================================================== *)
(** * Keys: printing a period and reading it back *)
(* ===================================================================== *)

Module JsFacts.
Import TrendAggregator AggregatorSpec.

Lemma digit_not_sign c :
  Js.is_digit c = true -> Ascii.eqb c "-" = false /\ Ascii.eqb c "+" = false.
Proof.
  destruct c as [[] [] [] [] [] [] [] []]; vm_compute; intros H;
    try discriminate H; split; reflexivity.
Qed.

Lemma string_of_uint_digits d : all_digits (NilEmpty.string_of_uint d) = true.
Proof. induction d; simpl; auto. Qed.

Lemma digit_prefix_all s : all_digits s = true -> Js.digit_prefix s = s.
Proof.
  induction s as [|c s IH]; simpl; [reflexivity|].
  intros H. apply andb_true_iff in H as [Hc Hs]. rewrite Hc. now rewrite IH.
Qed.

Lemma all_digits_app a b :
  all_digits a = true -> all_digits b = true -> all_digits (a ++ b) = true.
Proof.
  induction a as [|c a IH]; simpl; [auto|].
  intros H Hb. apply andb_true_iff in H as [Hc Ha]. rewrite Hc. now apply IH.
Qed.

Lemma parse_digits_uint d :
  d <> Decimal.Nil ->
  Js.parse_digits (NilEmpty.string_of_uint d) = Some (Z.of_N (N.of_uint d)).
Proof.
  intros Hd. unfold Js.parse_digits.
  rewrite (digit_prefix_all _ (string_of_uint_digits d)).
  pose proof (NilEmpty.usu d) as U.
  destruct (NilEmpty.string_of_uint d) as [|c s] eqn:E.
  - destruct d; try discriminate E. congruence.
  - now rewrite U.
Qed.

Lemma parseInt_uint d :
  d <> Decimal.Nil ->
  Js.parseInt (NilEmpty.string_of_uint d) = Some (Z.of_N (N.of_uint d)).
Proof.
  intros Hd. rewrite <- (parse_digits_uint d Hd).
  pose proof (string_of_uint_digits d) as Hall.
  destruct (NilEmpty.string_of_uint d) as [|c s] eqn:E; [reflexivity|].
  simpl in Hall. apply andb_true_iff in Hall as [Hc _].
  destruct c as [[] [] [] [] [] [] [] []]; try reflexivity; discriminate Hc.
Qed.

Lemma to_uint_nonnil n : N.to_uint n <> Decimal.Nil.
Proof.
  intros H. pose proof (DecimalN.Unsigned.of_to n) as E. rewrite H in E.
  destruct n; [discriminate H|discriminate E].
Qed.

Lemma String_of_nonneg n :
  0 <= n -> Js.String_of n = NilEmpty.string_of_uint (N.to_uint (Z.to_N n)).
Proof.
  intros Hn. unfold Js.String_of. destruct n as [|p|p]; [reflexivity| |lia].
  simpl. pose proof (to_uint_nonnil (N.pos p)) as H. simpl in H.
  now destruct (Pos.to_uint p).
Qed.

Lemma of_to_Z n : 0 <= n -> Z.of_N (N.of_uint (N.to_uint (Z.to_N n))) = n.
Proof. intros Hn. rewrite DecimalN.Unsigned.of_to. now apply Z2N.id. Qed.

Lemma parseInt_String_of n : 0 <= n -> Js.parseInt (Js.String_of n) = Some n.
Proof.
  intros Hn. rewrite (String_of_nonneg n Hn), parseInt_uint by apply to_uint_nonnil.
  now rewrite of_to_Z.
Qed.

Lemma padStart2_uint d :
  d <> Decimal.Nil ->
  exists d', d' <> Decimal.Nil
    /\ Js.padStart2 (NilEmpty.string_of_uint d) = NilEmpty.string_of_uint d'
    /\ N.of_uint d' = N.of_uint d.
Proof.
  intros Hd. unfold Js.padStart2.
  destruct (String.length (NilEmpty.string_of_uint d)) as [|[|n]] eqn:E.
  - destruct d; try discriminate E. congruence.
  - exists (Decimal.D0 d). split; [discriminate|]. split; reflexivity.
  - exists d. auto.
Qed.

Lemma split_digits s : all_digits s = true -> Js.split "-" s = [s].
Proof.
  induction s as [|c s IH]; simpl; [reflexivity|].
  intros H. apply andb_true_iff in H as [Hc Hs].
  destruct (digit_not_sign c Hc) as [-> _]. now rewrite IH.
Qed.

Lemma split_app s1 s2 :
  all_digits s1 = true ->
  Js.split "-" (s1 ++ String "-" s2) = s1 :: Js.split "-" s2.
Proof.
  induction s1 as [|c s1 IH]; simpl; [reflexivity|].
  intros H. apply andb_true_iff in H as [Hc Hs].
  destruct (digit_not_sign c Hc) as [-> _]. now rewrite IH.
Qed.

(** A key names its period: splitting it gives the year and the month
    back, for a year and a month that are not negative. *)
Lemma split_month_key (e : Cost) :
  0 <= year e -> 0 <= month e ->
  split_key (period_key e) = (Some (year e), Some (month e)).
Proof.
  intros Hy Hm. unfold split_key, period_key.
  rewrite (String_of_nonneg _ Hy), (String_of_nonneg _ Hm).
  destruct (padStart2_uint (N.to_uint (Z.to_N (month e))) (to_uint_nonnil _))
    as (d' & Hd' & -> & Hval).
  change ("-" ++ NilEmpty.string_of_uint d')%string
    with (String "-" (NilEmpty.string_of_uint d')).
  rewrite split_app, split_digits by apply string_of_uint_digits.
  simpl nth_error.
  assert (Hne : forall d, d <> Decimal.Nil ->
            Js.str_or (Some (NilEmpty.string_of_uint d)) "0" = NilEmpty.string_of_uint d).
  { intros d Hd. destruct d; try reflexivity. congruence. }
  rewrite !Hne by (try apply to_uint_nonnil; exact Hd').
  rewrite !parseInt_uint by (try apply to_uint_nonnil; exact Hd').
  rewrite Hval, !of_to_Z by assumption. reflexivity.
Qed.

End JsFacts.

(* ===================================================================== *)
(** * Properties of trend aggregation *)
(* ===================================================================== *)

Module AggregatorFacts.
Import TrendAggregator Lists AggregatorSpec.

(** ** [Map] *)

Section MapFacts.
Variables (K V : Type) (eqb : K -> K -> bool).
Hypothesis eqb_spec : forall a b, eqb a b = true <-> a = b.

Lemma eqb_refl k : eqb k k = true.
Proof. now apply eqb_spec. Qed.

Lemma eqb_neq a b : a <> b -> eqb a b = false.
Proof.
  intros H. destruct (eqb a b) eqn:E; [|reflexivity].
  apply eqb_spec in E. contradiction.
Qed.

Lemma get_set (m : Js.Map K V) k v k' :
  Js.get eqb (Js.set eqb m k v) k' = if eqb k' k then Some v else Js.get eqb m k'.
Proof.
  induction m as [|[k0 v0] m IH]; simpl.
  - destruct (eqb k' k); reflexivity.
  - destruct (eqb k k0) eqn:E; simpl.
    + apply eqb_spec in E. subst k0. destruct (eqb k' k); reflexivity.
    + rewrite IH. destruct (eqb k' k0) eqn:E0; [|reflexivity].
      apply eqb_spec in E0. subst k0.
      destruct (eqb k' k) eqn:E1; [|reflexivity].
      apply eqb_spec in E1. subst k'. rewrite eqb_refl in E. discriminate.
Qed.

Lemma keys_set (m : Js.Map K V) k v :
  map fst (Js.set eqb m k v)
  = if Js.has eqb m k then map fst m else map fst m ++ [k].
Proof.
  unfold Js.has. induction m as [|[k0 v0] m IH]; simpl; [reflexivity|].
  destruct (eqb k k0) eqn:E; simpl; [reflexivity|].
  rewrite IH. now destruct (Js.get eqb m k).
Qed.

Lemma get_None_keys (m : Js.Map K V) k :
  Js.get eqb m k = None -> ~ In k (map fst m).
Proof.
  induction m as [|[k0 v0] m IH]; simpl; [tauto|].
  destruct (eqb k k0) eqn:E; [discriminate|].
  intros H [->|Hin]; [rewrite eqb_refl in E; discriminate|now apply IH].
Qed.

Lemma keys_set_NoDup (m : Js.Map K V) k v :
  NoDup (map fst m) -> NoDup (map fst (Js.set eqb m k v)).
Proof.
  intros H. rewrite keys_set. unfold Js.has.
  destruct (Js.get eqb m k) eqn:E; [exact H|].
  apply Permutation_NoDup with (l := k :: map fst m).
  - apply Permutation_cons_append.
  - constructor; [now apply get_None_keys|exact H].
Qed.

Lemma first_keys_snoc l k :
  first_keys eqb (l ++ [k])
  = if existsb (eqb k) (first_keys eqb l) then first_keys eqb l else first_keys eqb l ++ [k].
Proof. unfold first_keys. now rewrite fold_left_app. Qed.

Lemma has_keys (m : Js.Map K V) k :
  Js.has eqb m k = existsb (eqb k) (map fst m).
Proof.
  unfold Js.has. induction m as [|[k0 v0] m IH]; simpl; [reflexivity|].
  destruct (eqb k k0); [reflexivity|exact IH].
Qed.

Lemma keys_set_first (m : Js.Map K V) k v l :
  map fst m = first_keys eqb l ->
  map fst (Js.set eqb m k v) = first_keys eqb (l ++ [k]).
Proof. intros H. now rewrite keys_set, has_keys, first_keys_snoc, H. Qed.

Lemma existsb_eqb_false k l : ~ In k l -> existsb (eqb k) l = false.
Proof.
  intros H. apply not_true_is_false. intros E.
  apply existsb_exists in E as (k' & Hin & Hk). apply eqb_spec in Hk. now subst k'.
Qed.

(** Keys that are already distinct come out as they went in. *)
Lemma first_keys_NoDup l : NoDup l -> first_keys eqb l = l.
Proof.
  induction l as [|k l IH] using rev_ind; intros H; [reflexivity|].
  apply NoDup_remove in H as [Hl Hk]. rewrite List.app_nil_r in Hl, Hk.
  rewrite first_keys_snoc, (IH Hl). now rewrite existsb_eqb_false.
Qed.

Lemma In_get (m : Js.Map K V) k v :
  NoDup (map fst m) -> In (k, v) m -> Js.get eqb m k = Some v.
Proof.
  induction m as [|[k0 v0] m IH]; simpl; [tauto|].
  intros Hnd Hin. apply NoDup_cons_iff in Hnd as [Hk0 Hnd].
  destruct Hin as [[= -> ->]|Hin]; [now rewrite eqb_refl|].
  destruct (eqb k k0) eqn:E; [|now apply IH].
  apply eqb_spec in E. subst k0. exfalso. apply Hk0.
  change k with (fst (k, v)). now apply in_map.
Qed.
End MapFacts.

(** ** One pass over the records: what each map holds *)

Section Grouping.
Variables (K1 K2 : Type) (eqb1 : K1 -> K1 -> bool) (eqb2 : K2 -> K2 -> bool).
Hypothesis eqb1_spec : forall a b, eqb1 a b = true <-> a = b.
Hypothesis eqb2_spec : forall a b, eqb2 a b = true <-> a = b.
Variables (key1 : Cost -> K1) (key2 : Cost -> K2).

Lemma filter_snoc (p : Cost -> bool) l e :
  filter p (l ++ [e]) = if p e then filter p l ++ [e] else filter p l.
Proof.
  rewrite filter_app. simpl. destruct (p e); [reflexivity|apply List.app_nil_r].
Qed.

Lemma entry_sum_snoc amounts a :
  entry_sum (amounts ++ [a])
  = Some (PrimFloat.add (Js.float_or_0 (entry_sum amounts)) a).
Proof. unfold entry_sum. now rewrite fold_left_app. Qed.

Lemma sum_snoc amounts a :
  Js.sum (amounts ++ [a]) = PrimFloat.add (Js.sum amounts) a.
Proof. unfold Js.sum. now rewrite fold_left_app. Qed.

Lemma eqb1_sym_false a b : eqb1 a b = false -> eqb1 b a = false.
Proof.
  intros H. apply (eqb_neq _ eqb1 eqb1_spec). intros ->.
  rewrite (eqb_refl _ eqb1 eqb1_spec) in H. discriminate.
Qed.

Lemma eqb2_sym_false a b : eqb2 a b = false -> eqb2 b a = false.
Proof.
  intros H. apply (eqb_neq _ eqb2 eqb2_spec). intros ->.
  rewrite (eqb_refl _ eqb2 eqb2_spec) in H. discriminate.
Qed.

Lemma breakdown_step b rs e :
  breakdown_of eqb2 key2 b rs ->
  breakdown_of eqb2 key2
    (Js.set eqb2 b (key2 e)
       (PrimFloat.add (Js.float_or_0 (Js.get eqb2 b (key2 e))) (amount_of e)))
    (rs ++ [e]).
Proof.
  intros (Hkeys & Hnd & Hget).
  split; [rewrite map_app; now apply keys_set_first|].
  split; [now apply keys_set_NoDup|].
  intros j. rewrite (get_set _ _ eqb2 eqb2_spec).
  unfold in_entry in *. rewrite filter_snoc.
  destruct (eqb2 j (key2 e)) eqn:E.
  - apply eqb2_spec in E. subst j. rewrite (eqb_refl _ eqb2 eqb2_spec).
    rewrite map_app. simpl. rewrite entry_sum_snoc. now rewrite <- Hget.
  - rewrite (eqb2_sym_false _ _ E). apply Hget.
Qed.

Lemma groups_set m done e data :
  map fst (Js.set eqb1 m (key1 e) (add_to eqb2 key2 data e))
  = first_keys eqb1 (map key1 (done ++ [e])) ->
  NoDup (map fst m) ->
  (forall k, k <> key1 e -> group_ok eqb1 eqb2 key1 key2 m done k) ->
  g_totalAmount data = Js.sum (map amount_of (in_group eqb1 key1 (key1 e) done)) ->
  breakdown_of eqb2 key2 (g_breakdown data) (in_group eqb1 key1 (key1 e) done) ->
  groups_of eqb1 eqb2 key1 key2 (Js.set eqb1 m (key1 e) (add_to eqb2 key2 data e)) (done ++ [e]).
Proof.
  intros Hkeys Hnd Hother Htotal Hbreak.
  split; [exact Hkeys|]. split; [now apply keys_set_NoDup|].
  intros k. unfold group_ok. rewrite (get_set _ _ eqb1 eqb1_spec).
  unfold in_group in *. rewrite filter_snoc.
  destruct (eqb1 k (key1 e)) eqn:E.
  - apply eqb1_spec in E. subst k. rewrite (eqb_refl _ eqb1 eqb1_spec).
    split; [now destruct (filter _ done)|]. split.
    + rewrite map_app. simpl. rewrite sum_snoc. now rewrite <- Htotal.
    + now apply breakdown_step.
  - rewrite (eqb1_sym_false _ _ E). apply (Hother k).
    intros ->. rewrite (eqb_refl _ eqb1 eqb1_spec) in E. discriminate.
Qed.

Lemma groups_step m done e :
  groups_of eqb1 eqb2 key1 key2 m done -> groups_of eqb1 eqb2 key1 key2 (group_step eqb1 eqb2 key1 key2 m e) (done ++ [e]).
Proof.
  intros (Hkeys & Hnd & Hget). unfold group_step, Js.has.
  pose proof (Hget (key1 e)) as Hk. unfold group_ok in Hk.
  destruct (Js.get eqb1 m (key1 e)) as [data|] eqn:E.
  - rewrite E. destruct Hk as (_ & Htotal & Hbreak).
    apply groups_set; auto.
    rewrite map_app. now apply keys_set_first.
  - rewrite (get_set _ _ eqb1 eqb1_spec), (eqb_refl _ eqb1 eqb1_spec).
    apply groups_set.
    + assert (Hfresh : existsb (eqb1 (key1 e)) (map fst m) = false)
        by now apply (existsb_eqb_false _ eqb1 eqb1_spec),
                     (get_None_keys _ _ eqb1 eqb1_spec).
      assert (Hin : map fst (Js.set eqb1 m (key1 e) (mkGroup 0 []))
                    = map fst m ++ [key1 e])
        by now rewrite keys_set, has_keys, Hfresh.
      rewrite keys_set, has_keys, Hin, existsb_app. cbn [existsb].
      rewrite (eqb_refl _ eqb1 eqb1_spec), orb_true_r.
      rewrite map_app. cbn [map].
      now rewrite first_keys_snoc, <- Hkeys, Hfresh.
    + now apply keys_set_NoDup.
    + intros k Hne. unfold group_ok. rewrite (get_set _ _ eqb1 eqb1_spec).
      rewrite (eqb_neq _ eqb1 eqb1_spec _ _ Hne). apply Hget.
    + now rewrite Hk.
    + rewrite Hk. split; [reflexivity|]. split; [constructor|reflexivity].
Qed.

(** The [get(key)!] of a step always finds its group: the branch of
    [group_step] for a missing one is never taken. *)
Lemma group_found (m : Js.Map K1 (Group K2)) e :
  Js.get eqb1
    (if Js.has eqb1 m (key1 e) then m
     else Js.set eqb1 m (key1 e) (mkGroup 0 []))
    (key1 e) <> None.
Proof.
  unfold Js.has. destruct (Js.get eqb1 m (key1 e)) as [data|] eqn:E.
  - now rewrite E.
  - now rewrite (get_set _ _ eqb1 eqb1_spec), (eqb_refl _ eqb1 eqb1_spec).
Qed.

(** The map a pass leaves. *)
Lemma groups_fold expenses : forall m done,
  groups_of eqb1 eqb2 key1 key2 m done ->
  groups_of eqb1 eqb2 key1 key2 (fold_left (group_step eqb1 eqb2 key1 key2) expenses m) (done ++ expenses).
Proof.
  induction expenses as [|e expenses IH]; intros m done H; simpl.
  - now rewrite List.app_nil_r.
  - replace (done ++ e :: expenses) with ((done ++ [e]) ++ expenses)
      by now rewrite <- List.app_assoc.
    apply IH. now apply groups_step.
Qed.

Lemma groups_pass expenses :
  groups_of eqb1 eqb2 key1 key2 (fold_left (group_step eqb1 eqb2 key1 key2) expenses []) expenses.
Proof.
  apply (groups_fold expenses [] []).
  split; [reflexivity|]. split; [constructor|]. intros k. reflexivity.
Qed.

(** Every entry of the map is a group of records, with its sums. *)
Lemma groups_entry m done k data :
  groups_of eqb1 eqb2 key1 key2 m done -> In (k, data) m ->
  (exists e, In e done /\ key1 e = k)
  /\ g_totalAmount data = Js.sum (map amount_of (in_group eqb1 key1 k done))
  /\ breakdown_of eqb2 key2 (g_breakdown data) (in_group eqb1 key1 k done).
Proof.
  intros (_ & Hnd & Hget) Hin. apply (In_get _ _ eqb1 eqb1_spec _ _ _ Hnd) in Hin.
  specialize (Hget k). unfold group_ok in Hget. rewrite Hin in Hget.
  destruct Hget as (Hne & Htotal & Hb).
  split; [|split; [exact Htotal|exact Hb]].
  destruct (in_group eqb1 key1 k done) as [|e rs] eqn:E; [congruence|].
  assert (He : In e (in_group eqb1 key1 k done)) by (rewrite E; now left).
  apply filter_In in He as [He Hk]. apply eqb1_spec in Hk. eauto.
Qed.

Lemma breakdown_entry b rs j a :
  breakdown_of eqb2 key2 b rs -> In (j, a) b ->
  (exists e, In e rs /\ key2 e = j)
  /\ Some a = entry_sum (map amount_of (in_entry eqb2 key2 j rs)).
Proof.
  intros (_ & Hnd & Hget) Hja. apply (In_get _ _ eqb2 eqb2_spec _ _ _ Hnd) in Hja.
  rewrite Hget in Hja. split; [|now symmetry].
  destruct (in_entry eqb2 key2 j rs) as [|e rs'] eqn:E; [discriminate|].
  assert (He : In e (in_entry eqb2 key2 j rs)) by (rewrite E; now left).
  apply filter_In in He as [He Hj]. apply eqb2_spec in Hj. eauto.
Qed.

End Grouping.


(** ** The three aggregators as instances *)

Lemma category_eqb_spec a b : category_eqb a b = true <-> a = b.
Proof. destruct a, b; simpl; split; congruence. Qed.

Lemma monthly_pass expenses :
  groups_of String.eqb category_eqb period_key category
    (fold_left monthly_step expenses []) expenses.
Proof.
  change monthly_step with (group_step String.eqb category_eqb period_key category).
  apply groups_pass; [apply String.eqb_eq|apply category_eqb_spec].
Qed.

Lemma yearly_pass expenses :
  groups_of Z.eqb category_eqb year category
    (fold_left yearly_step expenses []) expenses.
Proof.
  change yearly_step with (group_step Z.eqb category_eqb year category).
  apply groups_pass; [apply Z.eqb_eq|apply category_eqb_spec].
Qed.

Lemma category_pass expenses :
  groups_of category_eqb String.eqb category period_key
    (fold_left category_step expenses []) expenses.
Proof.
  change category_step with (group_step category_eqb String.eqb category period_key).
  apply groups_pass; [apply category_eqb_spec|apply String.eqb_eq].
Qed.

(** ** Keys are unique *)

Lemma NoDup_map_on (A B : Type) (f : A -> B) (l : list A) :
  NoDup l ->
  (forall x y, In x l -> In y l -> f x = f y -> x = y) ->
  NoDup (map f l).
Proof.
  induction 1 as [|x l Hx Hl IH]; intros Hinj; simpl; constructor.
  - intros Hin. apply in_map_iff in Hin as (y & Hy & Hin).
    apply Hx. rewrite (Hinj x y); auto; [now left|now right].
  - apply IH. intros a b Ha Hb. apply Hinj; now right.
Qed.

(** Distinct keys of such records name distinct (year, month) pairs. *)
Lemma split_keys_NoDup keys expenses :
  plain_periods expenses ->
  NoDup keys ->
  (forall k, In k keys -> exists e, In e expenses /\ period_key e = k) ->
  NoDup (map split_key keys).
Proof.
  intros Hplain Hnd Hkeys. apply NoDup_map_on; [exact Hnd|].
  intros k1 k2 H1 H2 E.
  destruct (Hkeys k1 H1) as (e1 & He1 & <-), (Hkeys k2 H2) as (e2 & He2 & <-).
  destruct (Hplain e1 He1) as [Hy1 Hm1], (Hplain e2 He2) as [Hy2 Hm2].
  rewrite !JsFacts.split_month_key in E by assumption.
  injection E as Ey Em. unfold period_key. now rewrite Ey, Em.
Qed.

Lemma monthly_entry_period e :
  (m_year (monthly_entry e), m_month (monthly_entry e)) = split_key (fst e).
Proof.
  destruct e as [k v]. unfold monthly_entry. cbn [fst].
  now destruct (split_key k).
Qed.

Lemma month_amount_period e :
  (ma_year (month_amount e), ma_month (month_amount e)) = split_key (fst e).
Proof.
  destruct e as [k a]. unfold month_amount. cbn [fst].
  now destruct (split_key k).
Qed.

Lemma category_breakdown_keys (b : Js.Map ExpenseCategory float) :
  map ca_category (category_breakdown b) = map fst b.
Proof.
  unfold category_breakdown, Js.entries. rewrite map_map.
  apply map_ext. now intros [c a].
Qed.

Lemma sorted_NoDup (A B : Type) (gt : A -> A -> bool) (f : A -> B) (l : list A) :
  NoDup (map f l) -> NoDup (map f (Js.sort gt l)).
Proof.
  apply Permutation_NoDup, Permutation_map, Permutation_sym, ListFacts.sort_perm.
Qed.

(** C10. In every result of the aggregators, over records whose year and
    month are not negative (the table admits 2020..2050 and 1..12): in
    monthly mode no two groups share a (year, month) and no
    [categoryBreakdown] names a category twice; in yearly mode no two
    groups share a year (and no [categoryBreakdown] names a category
    twice); in category mode no two groups share a category and no
    [monthlyBreakdown] names a (year, month) twice. *)
Theorem trend_keys_unique expenses :
  plain_periods expenses ->
  (NoDup (map (fun g => (m_year g, m_month g)) (fst (processMonthlyTrends expenses)))
   /\ forall g, In g (fst (processMonthlyTrends expenses)) ->
        NoDup (map ca_category (m_categoryBreakdown g)))
  /\ (NoDup (map y_year (fst (processYearlyTrends expenses)))
      /\ forall g, In g (fst (processYearlyTrends expenses)) ->
           NoDup (map ca_category (y_categoryBreakdown g)))
  /\ (NoDup (map c_category (fst (processCategoryTrends expenses)))
      /\ forall g, In g (fst (processCategoryTrends expenses)) ->
           NoDup (map (fun b => (ma_year b, ma_month b)) (c_monthlyBreakdown g))).
Proof.
  intros Hplain. split; [|split].
  - (* monthly *)
    pose proof (monthly_pass expenses) as Hpass.
    unfold processMonthlyTrends, Js.entries. cbn [fst].
    set (m := fold_left monthly_step expenses []) in *. split.
    + apply sorted_NoDup. rewrite map_map.
      rewrite (map_ext _ (fun e => split_key (fst e)))
        by (intros e; apply monthly_entry_period).
      rewrite <- map_map. apply (split_keys_NoDup _ expenses Hplain).
      * apply Hpass.
      * intros k Hk. apply in_map_iff in Hk as ([k' data] & <- & Hin).
        apply (groups_entry _ _ _ _ String.eqb_eq _ _ _ _ _ _ Hpass Hin).
    + intros g Hg. apply ListFacts.sort_In in Hg.
      apply in_map_iff in Hg as ([k data] & <- & Hin).
      destruct (groups_entry _ _ _ _ String.eqb_eq _ _ _ _ _ _ Hpass Hin)
        as (_ & _ & _ & Hnd & _).
      unfold monthly_entry. destruct (split_key k).
      cbn [m_categoryBreakdown]. now rewrite category_breakdown_keys.
  - (* yearly *)
    pose proof (yearly_pass expenses) as Hpass.
    unfold processYearlyTrends, Js.entries. cbn [fst].
    set (m := fold_left yearly_step expenses []) in *. split.
    + apply sorted_NoDup. rewrite map_map.
      rewrite (map_ext _ fst) by now intros [k data]. apply Hpass.
    + intros g Hg. apply ListFacts.sort_In in Hg.
      apply in_map_iff in Hg as ([k data] & <- & Hin).
      destruct (groups_entry _ _ _ _ Z.eqb_eq _ _ _ _ _ _ Hpass Hin)
        as (_ & _ & _ & Hnd & _).
      simpl. now rewrite category_breakdown_keys.
  - (* category *)
    pose proof (category_pass expenses) as Hpass.
    unfold processCategoryTrends, Js.entries. cbn [fst].
    set (m := fold_left category_step expenses []) in *. split.
    + apply sorted_NoDup. rewrite map_map.
      rewrite (map_ext _ fst) by now intros [k data]. apply Hpass.
    + intros g Hg. apply ListFacts.sort_In in Hg.
      apply in_map_iff in Hg as ([k data] & <- & Hin).
      destruct (groups_entry _ _ _ _ category_eqb_spec _ _ _ _ _ _ Hpass Hin)
        as (_ & _ & Hb).
      simpl. apply sorted_NoDup. unfold Js.entries. rewrite map_map.
      rewrite (map_ext _ (fun e => split_key (fst e)))
        by (intros e; apply month_amount_period).
      rewrite <- map_map. apply (split_keys_NoDup _ expenses Hplain).
      * apply Hb.
      * intros j Hj. apply in_map_iff in Hj as ([j' a] & <- & Hja).
        destruct (breakdown_entry _ _ String.eqb_eq _ _ _ _ _ Hb Hja)
          as ((e & He & Hkey) & _).
        apply filter_In in He as [He _]. eauto.
Qed.

Lemma trend_keys_unique_witness :
  let expenses := [ mkCost 1 SALARIES 5000000 1 2024 0 0;
                    mkCost 2 SOFTWARE_TOOLS 200000 1 2024 0 0;
                    mkCost 3 SALARIES 5100000 2 2024 0 0 ] in
  plain_periods expenses
  /\ NoDup (map (fun g => (m_year g, m_month g)) (fst (processMonthlyTrends expenses)))
  /\ NoDup (map y_year (fst (processYearlyTrends expenses)))
  /\ NoDup (map c_category (fst (processCategoryTrends expenses))).
Proof.
  cbv zeta.
  set (expenses := [ mkCost 1 SALARIES 5000000 1 2024 0 0;
                     mkCost 2 SOFTWARE_TOOLS 200000 1 2024 0 0;
                     mkCost 3 SALARIES 5100000 2 2024 0 0 ]).
  assert (Hplain : plain_periods expenses).
  { intros e [<-|[<-|[<-|[]]]]; simpl; lia. }
  destruct (trend_keys_unique expenses Hplain) as ((Hm & _) & (Hy & _) & (Hc & _)).
  split; [exact Hplain|]. split; [exact Hm|]. split; [exact Hy|exact Hc].
Defined.

(** ** Totals and breakdowns *)

(** C1, as stated, fails.  Salaries 50000.00 and Software & Tools 24.99
    in January 2024, Salaries 51000.00 in February: the yearly group adds
    (50000 + 24.99) + 51000 for its total and 50000 + 51000 for Salaries,
    in binary floating point, and the total is neither the floating-point
    sum nor the exact sum of the two breakdown amounts, nor is it
    101024.99. *)
Lemma yearly_total_drifts :
  let expenses := [ mkCost 1 SALARIES 5000000 1 2024 0 0;
                    mkCost 2 SOFTWARE_TOOLS 2499 1 2024 0 0;
                    mkCost 3 SALARIES 5100000 2 2024 0 0 ] in
  exists g,
    fst (processYearlyTrends expenses) = [g]
    /\ PrimFloat.eqb (y_totalAmount g)
         (Js.sum (map ca_amount (y_categoryBreakdown g))) = false
    /\ ~ (exact (y_totalAmount g) == exact_sum (map ca_amount (y_categoryBreakdown g)))%Q
    /\ ~ (exact (y_totalAmount g) == 10102499 # 100)%Q.
Proof.
  eexists. split; [vm_compute; reflexivity|].
  split; [vm_compute; reflexivity|].
  split; intros H; apply Qeq_bool_iff in H; vm_compute in H; discriminate H.
Qed.

(** ** A breakdown of single records *)

Section Singles.
Variables (K2 : Type) (eqb2 : K2 -> K2 -> bool).
Hypothesis eqb2_spec : forall a b, eqb2 a b = true <-> a = b.
Variable key2 : Cost -> K2.

Lemma get_absent (V : Type) (m : Js.Map K2 V) k :
  ~ In k (map fst m) -> Js.get eqb2 m k = None.
Proof.
  induction m as [|[k0 v0] m IH]; simpl; [reflexivity|].
  intros H. rewrite (eqb_neq _ eqb2 eqb2_spec) by (intros ->; apply H; now left).
  apply IH. intros Hin. apply H. now right.
Qed.

Lemma in_entry_cons j e rs :
  in_entry eqb2 key2 j (e :: rs)
  = if eqb2 (key2 e) j then e :: in_entry eqb2 key2 j rs
    else in_entry eqb2 key2 j rs.
Proof. reflexivity. Qed.

Lemma entry_sum_one a : entry_sum [a] = Some (PrimFloat.add 0 a).
Proof. reflexivity. Qed.

(** A breakdown whose entries each took one record lists the amounts of
    those records, in their order (given that adding an amount to 0 gives
    the amount back, which fails for the Number -0 only). *)
Lemma breakdown_singles rs : forall b,
  map fst b = map key2 rs ->
  (forall j, Js.get eqb2 b j = entry_sum (map amount_of (in_entry eqb2 key2 j rs))) ->
  NoDup (map key2 rs) ->
  (forall e, In e rs -> PrimFloat.add 0 (amount_of e) = amount_of e) ->
  b = map (fun e => (key2 e, amount_of e)) rs.
Proof.
  induction rs as [|e rs IH]; intros b Hkeys Hget Hdistinct Hzero.
  - now destruct b.
  - destruct b as [|[j a] b]; [discriminate Hkeys|].
    cbn [map fst] in Hkeys. injection Hkeys as -> Hkeys.
    cbn [map] in Hdistinct. apply NoDup_cons_iff in Hdistinct as [Hfresh Hdistinct].
    assert (Hnone : in_entry eqb2 key2 (key2 e) rs = []).
    { apply ListFacts.filter_none. intros e' He'.
      apply (eqb_neq _ eqb2 eqb2_spec). intros E. apply Hfresh.
      rewrite <- E. now apply in_map. }
    cbn [map]. f_equal.
    + f_equal. pose proof (Hget (key2 e)) as H. cbn [Js.get] in H.
      rewrite in_entry_cons, (eqb_refl _ eqb2 eqb2_spec), Hnone in H.
      cbn [map] in H. rewrite entry_sum_one in H.
      injection H as ->. apply Hzero. now left.
    + apply IH; [exact Hkeys| |exact Hdistinct|intros e' He'; apply Hzero; now right].
      intros j. pose proof (Hget j) as H. cbn [Js.get] in H.
      rewrite in_entry_cons in H.
      destruct (eqb2 j (key2 e)) eqn:E.
      * apply eqb2_spec in E. subst j. rewrite Hnone.
        apply get_absent. now rewrite Hkeys.
      * rewrite (eqb_neq _ eqb2 eqb2_spec) in H; [exact H|].
        intros E'. rewrite E', (eqb_refl _ eqb2 eqb2_spec) in E. discriminate.
Qed.
End Singles.

(** ** Part A: what each total and each breakdown amount is *)

Lemma monthly_totals expenses g :
  In g (fst (processMonthlyTrends expenses)) ->
  exists key,
    let rs := in_group String.eqb period_key key expenses in
    rs <> []
    /\ (m_year g, m_month g) = split_key key
    /\ m_totalAmount g = Js.sum (map amount_of rs)
    /\ forall b, In b (m_categoryBreakdown g) ->
         Some (ca_amount b)
         = entry_sum (map amount_of (in_entry category_eqb category (ca_category b) rs)).
Proof.
  unfold processMonthlyTrends, Js.entries. cbn [fst]. intros Hg.
  apply ListFacts.sort_In in Hg. apply in_map_iff in Hg as ([key data] & <- & Hin).
  destruct (groups_entry _ _ _ _ String.eqb_eq _ _ _ _ _ _ (monthly_pass expenses) Hin)
    as ((e & He & Hkey) & Htotal & Hb).
  exists key. cbv zeta. split; [|split; [|split]].
  - intros E. assert (H : In e (in_group String.eqb period_key key expenses)).
    { apply filter_In. split; [exact He|]. now apply String.eqb_eq. }
    rewrite E in H. destruct H.
  - apply monthly_entry_period.
  - unfold monthly_entry. now destruct (split_key key).
  - intros b Hbin. unfold monthly_entry in Hbin. destruct (split_key key).
    cbn [m_categoryBreakdown] in Hbin. unfold category_breakdown, Js.entries in Hbin.
    apply in_map_iff in Hbin as ([c a] & <- & Hca).
    apply (breakdown_entry _ _ category_eqb_spec _ _ _ _ _ Hb Hca).
Qed.

Lemma yearly_totals expenses g :
  In g (fst (processYearlyTrends expenses)) ->
  let rs := in_group Z.eqb year (y_year g) expenses in
  rs <> []
  /\ y_totalAmount g = Js.sum (map amount_of rs)
  /\ forall b, In b (y_categoryBreakdown g) ->
       Some (ca_amount b)
       = entry_sum (map amount_of (in_entry category_eqb category (ca_category b) rs)).
Proof.
  unfold processYearlyTrends, Js.entries. cbn [fst]. intros Hg.
  apply ListFacts.sort_In in Hg. apply in_map_iff in Hg as ([key data] & <- & Hin).
  destruct (groups_entry _ _ _ _ Z.eqb_eq _ _ _ _ _ _ (yearly_pass expenses) Hin)
    as ((e & He & Hkey) & Htotal & Hb).
  cbv zeta. cbn [yearly_entry y_year y_totalAmount y_categoryBreakdown].
  split; [|split].
  - intros E. assert (H : In e (in_group Z.eqb year key expenses)).
    { apply filter_In. split; [exact He|]. now apply Z.eqb_eq. }
    rewrite E in H. destruct H.
  - exact Htotal.
  - intros b Hbin. unfold category_breakdown, Js.entries in Hbin.
    apply in_map_iff in Hbin as ([c a] & <- & Hca).
    apply (breakdown_entry _ _ category_eqb_spec _ _ _ _ _ Hb Hca).
Qed.

Lemma category_totals expenses g :
  In g (fst (processCategoryTrends expenses)) ->
  let rs := in_group category_eqb category (c_category g) expenses in
  rs <> []
  /\ c_totalAmount g = Js.sum (map amount_of rs)
  /\ forall b, In b (c_monthlyBreakdown g) ->
       exists key,
         (ma_year b, ma_month b) = split_key key
         /\ Some (ma_amount b)
            = entry_sum (map amount_of (in_entry String.eqb period_key key rs)).
Proof.
  unfold processCategoryTrends, Js.entries. cbn [fst]. intros Hg.
  apply ListFacts.sort_In in Hg. apply in_map_iff in Hg as ([key data] & <- & Hin).
  destruct (groups_entry _ _ _ _ category_eqb_spec _ _ _ _ _ _ (category_pass expenses) Hin)
    as ((e & He & Hkey) & Htotal & Hb).
  cbv zeta. cbn [category_entry c_category c_totalAmount c_monthlyBreakdown].
  split; [|split].
  - intros E. assert (H : In e (in_group category_eqb category key expenses)).
    { apply filter_In. split; [exact He|]. now apply category_eqb_spec. }
    rewrite E in H. destruct H.
  - exact Htotal.
  - intros b Hbin. apply ListFacts.sort_In in Hbin. unfold Js.entries in Hbin.
    apply in_map_iff in Hbin as ([k a] & <- & Hka). exists k. split.
    + apply (month_amount_period (k, a)).
    + unfold month_amount. destruct (split_key k). cbn [ma_amount].
      apply (breakdown_entry _ _ String.eqb_eq _ _ _ _ _ Hb Hka).
Qed.

(** ** Part B: where the total is the sum of the breakdown *)

Lemma period_key_plain e1 e2 :
  0 <= year e1 -> 0 <= month e1 -> 0 <= year e2 -> 0 <= month e2 ->
  period_key e1 = period_key e2 -> year e1 = year e2 /\ month e1 = month e2.
Proof.
  intros Hy1 Hm1 Hy2 Hm2 E. apply (f_equal split_key) in E.
  rewrite !JsFacts.split_month_key in E by assumption.
  now injection E.
Qed.

Lemma NoDup_within (A B C : Type) (f : A -> B) (g : A -> C) (p : A -> bool) l :
  NoDup (map f l) ->
  (forall x y, In x l -> In y l -> p x = true -> p y = true -> g x = g y -> f x = f y) ->
  NoDup (map g (filter p l)).
Proof.
  induction l as [|x l IH]; simpl; intros Hnd Hsame; [constructor|].
  apply NoDup_cons_iff in Hnd as [Hx Hnd].
  assert (Hl : NoDup (map g (filter p l))).
  { apply IH; [exact Hnd|]. intros a b Ha Hb. apply Hsame; now right. }
  destruct (p x) eqn:Px; [|exact Hl]. simpl. constructor; [|exact Hl].
  intros Hin. apply in_map_iff in Hin as (y & Hy & Hin).
  apply filter_In in Hin as [Hin Py]. apply Hx.
  assert (E : f x = f y)
    by (apply Hsame; [now left|now right|exact Px|exact Py|now symmetry]).
  rewrite E. now apply in_map.
Qed.

Lemma FOP_filter (A : Type) (R : A -> A -> Prop) (p : A -> bool) l :
  ForallOrdPairs R l -> ForallOrdPairs R (filter p l).
Proof.
  induction 1 as [|x l Hx Hl IH]; simpl; [constructor|].
  destruct (p x); [|exact IH]. constructor; [|exact IH].
  apply Forall_forall. intros y Hy. apply filter_In in Hy as [Hy _].
  now apply (proj1 (Forall_forall _ _) Hx).
Qed.

Lemma FOP_map (A B : Type) (R : A -> A -> Prop) (R' : B -> B -> Prop) (f : A -> B) l :
  (forall x y, In x l -> In y l -> R x y -> R' (f x) (f y)) ->
  ForallOrdPairs R l -> ForallOrdPairs R' (map f l).
Proof.
  intros Hf H. induction H as [|x l Hx Hl IH]; simpl; constructor.
  - apply Forall_forall. intros b Hb. apply in_map_iff in Hb as (y & <- & Hy).
    apply Hf; [now left|now right|]. now apply (proj1 (Forall_forall _ _) Hx).
  - apply IH. intros a b Ha Hb. apply Hf; now right.
Qed.

Lemma period_gt_le y1 m1 y2 m2 :
  y1 < y2 \/ (y1 = y2 /\ m1 <= m2) ->
  period_gt (Some y1) (Some m1) (Some y2) (Some m2) = false.
Proof.
  unfold period_gt. cbn [Js.sub]. intros [H|[-> H]].
  - destruct (y1 - y2) eqn:E; try lia. reflexivity.
  - rewrite Z.sub_diag. cbn [Js.num_or Js.positive]. apply Z.ltb_ge. lia.
Qed.

Section Exact.
Variable expenses : list Cost.
Hypothesis zero_plus : forall e, In e expenses ->
  PrimFloat.add 0 (amount_of e) = amount_of e.
Hypothesis unique : NoDup (map unique_key expenses).
Hypothesis plain : plain_periods expenses.

Lemma monthly_total_is_sum g :
  In g (fst (processMonthlyTrends expenses)) ->
  m_totalAmount g = Js.sum (map ca_amount (m_categoryBreakdown g)).
Proof.
  unfold processMonthlyTrends, Js.entries. cbn [fst]. intros Hg.
  apply ListFacts.sort_In in Hg. apply in_map_iff in Hg as ([key data] & <- & Hin).
  destruct (groups_entry _ _ _ _ String.eqb_eq _ _ _ _ _ _ (monthly_pass expenses) Hin)
    as (_ & Htotal & Hkeys & Hnd & Hget).
  set (rs := in_group String.eqb period_key key expenses) in *.
  assert (Hdistinct : NoDup (map category rs)).
  { apply (NoDup_within _ _ _ unique_key); [exact unique|].
    intros x y Hx Hy Px Py E. apply String.eqb_eq in Px, Py.
    destruct (plain x Hx), (plain y Hy).
    destruct (period_key_plain x y) as [Ey Em]; try assumption; [congruence|].
    unfold unique_key. now rewrite E, Ey, Em. }
  rewrite (first_keys_NoDup _ category_eqb category_eqb_spec _ Hdistinct) in Hkeys.
  unfold monthly_entry. destruct (split_key key).
  cbn [m_totalAmount m_categoryBreakdown].
  rewrite (breakdown_singles _ category_eqb category_eqb_spec category rs
             (g_breakdown data) Hkeys Hget Hdistinct).
  - unfold category_breakdown, Js.entries. rewrite !map_map. exact Htotal.
  - intros e He. apply zero_plus. now apply filter_In in He as [He _].
Qed.

Hypothesis ordered : ForallOrdPairs period_le expenses.

Lemma category_total_is_sum g :
  In g (fst (processCategoryTrends expenses)) ->
  c_totalAmount g = Js.sum (map ma_amount (c_monthlyBreakdown g)).
Proof.
  unfold processCategoryTrends, Js.entries. cbn [fst]. intros Hg.
  apply ListFacts.sort_In in Hg. apply in_map_iff in Hg as ([key data] & <- & Hin).
  destruct (groups_entry _ _ _ _ category_eqb_spec _ _ _ _ _ _ (category_pass expenses) Hin)
    as (_ & Htotal & Hkeys & Hnd & Hget).
  set (rs := in_group category_eqb category key expenses) in *.
  assert (Hrs : forall e, In e rs -> In e expenses /\ category e = key).
  { intros e He. apply filter_In in He as [He Hc]. now apply category_eqb_spec in Hc. }
  assert (Hdistinct : NoDup (map period_key rs)).
  { apply (NoDup_within _ _ _ unique_key); [exact unique|].
    intros x y Hx Hy Px Py E. apply category_eqb_spec in Px, Py.
    destruct (plain x Hx), (plain y Hy).
    destruct (period_key_plain x y) as [Ey Em]; try assumption.
    unfold unique_key. now rewrite Px, Py, Ey, Em. }
  rewrite (first_keys_NoDup _ String.eqb String.eqb_eq _ Hdistinct) in Hkeys.
  cbn [category_entry c_totalAmount c_monthlyBreakdown]. unfold Js.entries.
  rewrite (breakdown_singles _ String.eqb String.eqb_eq period_key rs
             (g_breakdown data) Hkeys Hget Hdistinct)
    by (intros e He; apply zero_plus; now apply Hrs).
  rewrite map_map, ListFacts.sort_sorted.
  - rewrite map_map, Htotal. apply (f_equal Js.sum). apply map_ext. intros e.
    unfold month_amount. now destruct (split_key (period_key e)).
  - apply (FOP_map _ _ period_le); [|now apply FOP_filter].
    intros x y Hx Hy Hle. apply Hrs in Hx as [Hx _], Hy as [Hy _].
    destruct (plain x Hx), (plain y Hy).
    unfold month_amount_gt, month_amount.
    rewrite !JsFacts.split_month_key by assumption.
    cbn [ma_year ma_month]. now apply period_gt_le.
Qed.
End Exact.

(** C1 (amended). For every list of expense records and every grouping
    mode, each group's [totalAmount] is the sum of the amounts of the
    records of the group, added one by one in the order of the records in
    binary floating point ([Number]), and each breakdown amount is the like
    sum, by [(entry || 0) + amount], over the records of the group under
    that breakdown key.  The two are floating-point sums, not exact decimal
    ones.  [totalAmount] is the floating-point sum of the breakdown amounts,
    taken in the order of the breakdown, for monthly groups, and for
    category groups when the records come ordered by (year, month) as
    [getTrends] reads them, provided no two records share a (category,
    month, year), years and months are not negative, and no amount is the
    Number -0. *)
Theorem trend_totals expenses :
  (forall g, In g (fst (processMonthlyTrends expenses)) ->
     exists key,
       let rs := in_group String.eqb period_key key expenses in
       rs <> []
       /\ (m_year g, m_month g) = split_key key
       /\ m_totalAmount g = Js.sum (map amount_of rs)
       /\ forall b, In b (m_categoryBreakdown g) ->
            Some (ca_amount b)
            = entry_sum (map amount_of
                           (in_entry category_eqb category (ca_category b) rs)))
  /\ (forall g, In g (fst (processYearlyTrends expenses)) ->
       let rs := in_group Z.eqb year (y_year g) expenses in
       rs <> []
       /\ y_totalAmount g = Js.sum (map amount_of rs)
       /\ forall b, In b (y_categoryBreakdown g) ->
            Some (ca_amount b)
            = entry_sum (map amount_of
                           (in_entry category_eqb category (ca_category b) rs)))
  /\ (forall g, In g (fst (processCategoryTrends expenses)) ->
       let rs := in_group category_eqb category (c_category g) expenses in
       rs <> []
       /\ c_totalAmount g = Js.sum (map amount_of rs)
       /\ forall b, In b (c_monthlyBreakdown g) ->
            exists key,
              (ma_year b, ma_month b) = split_key key
              /\ Some (ma_amount b)
                 = entry_sum (map amount_of (in_entry String.eqb period_key key rs)))
  /\ ((forall e, In e expenses -> PrimFloat.add 0 (amount_of e) = amount_of e) ->
      NoDup (map unique_key expenses) ->
      plain_periods expenses ->
      (forall g, In g (fst (processMonthlyTrends expenses)) ->
         m_totalAmount g = Js.sum (map ca_amount (m_categoryBreakdown g)))
      /\ (ForallOrdPairs period_le expenses ->
          forall g, In g (fst (processCategoryTrends expenses)) ->
            c_totalAmount g = Js.sum (map ma_amount (c_monthlyBreakdown g)))).
Proof.
  split; [intros g; apply monthly_totals|].
  split; [intros g; apply yearly_totals|].
  split; [intros g; apply category_totals|].
  intros Hzero Hunique Hplain. split.
  - intros g. now apply monthly_total_is_sum.
  - intros Hordered g. now apply category_total_is_sum.
Qed.

(** The specification's monthly example. *)
Example monthly_example :
  processMonthlyTrends
    [ mkCost 1 SALARIES 5000000 1 2024 0 0;
      mkCost 2 SOFTWARE_TOOLS 200000 1 2024 0 0;
      mkCost 3 SALARIES 5100000 2 2024 0 0 ]
  = ([ mkMonthly (Some 1) (Some 2024) 52000
         [mkCategoryAmount SALARIES 50000; mkCategoryAmount SOFTWARE_TOOLS 2000];
       mkMonthly (Some 2) (Some 2024) 51000 [mkCategoryAmount SALARIES 51000] ],
     mkSummary 103000 51500 52000 51000).
Proof. vm_compute. reflexivity. Qed.

Lemma trend_totals_witness :
  let expenses := [ mkCost 1 SALARIES 5000010 1 2024 0 0;
                    mkCost 2 SOFTWARE_TOOLS 2499 1 2024 0 0;
                    mkCost 3 SALARIES 5100035 2 2024 0 0 ] in
  (forall e, In e expenses -> PrimFloat.add 0 (amount_of e) = amount_of e)
  /\ NoDup (map unique_key expenses)
  /\ plain_periods expenses
  /\ ForallOrdPairs period_le expenses
  /\ (forall g, In g (fst (processMonthlyTrends expenses)) ->
        m_totalAmount g = Js.sum (map ca_amount (m_categoryBreakdown g)))
  /\ (forall g, In g (fst (processCategoryTrends expenses)) ->
        c_totalAmount g = Js.sum (map ma_amount (c_monthlyBreakdown g))).
Proof.
  cbv zeta.
  set (expenses := [ mkCost 1 SALARIES 5000010 1 2024 0 0;
                     mkCost 2 SOFTWARE_TOOLS 2499 1 2024 0 0;
                     mkCost 3 SALARIES 5100035 2 2024 0 0 ]).
  assert (Hzero : forall e, In e expenses ->
            PrimFloat.add 0 (amount_of e) = amount_of e).
  { intros e [<-|[<-|[<-|[]]]]; vm_compute; reflexivity. }
  assert (Hunique : NoDup (map unique_key expenses)).
  { repeat constructor; simpl; intuition discriminate. }
  assert (Hplain : plain_periods expenses).
  { intros e [<-|[<-|[<-|[]]]]; simpl; lia. }
  assert (Hordered : ForallOrdPairs period_le expenses).
  { repeat constructor; unfold period_le; simpl; lia. }
  destruct (trend_totals expenses) as (_ & _ & _ & Hsum).
  destruct (Hsum Hzero Hunique Hplain) as [Hmonthly Hcategory].
  split; [exact Hzero|]. split; [exact Hunique|]. split; [exact Hplain|].
  split; [exact Hordered|]. split; [exact Hmonthly|exact (Hcategory Hordered)].
Defined.

End AggregatorFacts.
(* ===================================================================== *)
(** * Order: what [sort] leaves *)
(* ===================================================================== *)

Module OrderFacts.

(** Boolean tests of the source as propositions. *)
Ltac bools :=
  repeat rewrite ?andb_true_iff, ?orb_true_iff, ?andb_false_iff, ?orb_false_iff,
    ?negb_true_iff, ?negb_false_iff,
    ?Z.ltb_lt, ?Z.ltb_ge, ?Z.leb_le, ?Z.leb_gt, ?Z.eqb_eq, ?Z.eqb_neq,
    ?Z.geb_le, ?Z.gtb_lt in *.

Section Ordered.
Variables (T : Type) (gt : T -> T -> bool) (dom : T -> Prop).

(** On the elements at hand [gt] is the strict part of a total preorder. *)
Hypothesis gt_asym : forall x y, dom x -> dom y -> gt x y = true -> gt y x = false.
Hypothesis gt_trans : forall x y z, dom x -> dom y -> dom z ->
  gt x y = false -> gt y z = false -> gt x z = false.

Let le (a b : T) : Prop := gt a b = false.

Lemma insert_ordered x l :
  dom x -> Forall dom l ->
  ForallOrdPairs le l -> ForallOrdPairs le (Js.insert gt x l).
Proof.
  intros Hx Hl Hs. induction Hs as [|y l Hy Hs IH]; simpl.
  - repeat constructor.
  - inversion Hl as [|? ? Hdy Hdl]; subst.
    destruct (gt x y) eqn:E.
    + constructor; [|now apply IH].
      apply Forall_forall. intros z Hz.
      apply (Permutation_in _ (ListFacts.insert_perm _ gt x l)) in Hz.
      destruct Hz as [<-|Hz].
      * now apply gt_asym.
      * now apply (proj1 (Forall_forall _ _) Hy).
    + constructor; [|now constructor].
      constructor; [exact E|].
      apply Forall_forall. intros z Hz.
      apply (gt_trans x y z); auto.
      * now apply (proj1 (Forall_forall _ _) Hdl).
      * now apply (proj1 (Forall_forall _ _) Hy).
Qed.

(** No element of a sorted list is greater than a later one. *)
Lemma sort_ordered l :
  Forall dom l -> ForallOrdPairs le (Js.sort gt l).
Proof.
  induction 1 as [|x l Hx Hl IH]; simpl; [constructor|].
  apply insert_ordered; auto.
  apply Forall_forall. intros z Hz. apply ListFacts.sort_In in Hz.
  now apply (proj1 (Forall_forall _ _) Hl).
Qed.
End Ordered.

Lemma FOP_weaken (A : Type) (R R' : A -> A -> Prop) (l : list A) :
  (forall x y, In x l -> In y l -> R x y -> R' x y) ->
  ForallOrdPairs R l -> ForallOrdPairs R' l.
Proof.
  intros H Hl. rewrite <- (map_id l).
  now apply (AggregatorFacts.FOP_map A A R R' (fun x => x)).
Qed.

Lemma firstn_sub (A : Type) (n : nat) (l : list A) x : In x (firstn n l) -> In x l.
Proof.
  intros H. rewrite <- (firstn_skipn n l). apply in_or_app. now left.
Qed.

Lemma skipn_sub (A : Type) (n : nat) (l : list A) x : In x (skipn n l) -> In x l.
Proof.
  intros H. rewrite <- (firstn_skipn n l). apply in_or_app. now right.
Qed.

End OrderFacts.

(* ===================================================================== *)
(** * Properties of [getTrends] *)
(* ===================================================================== *)

Module TrendsFacts.
Import Validation ValidationSpec RangeResolver RangeSpec TrendAggregator.
Import AggregatorSpec Errors ExpenseService TrendsSpec OrderFacts.

(** ** The rows a request selects *)

Lemma same_year_matches q r :
  startYear q = endYear q ->
  startMonth q <> Some 0 -> endMonth q <> Some 0 ->
  (matches (build_where q) r = true
   <-> category_matches (q_category q) (category r) = true
       /\ in_span q (year r) (month r)).
Proof.
  intros Hy Hs He. unfold build_where. rewrite (proj2 (Z.eqb_eq _ _) Hy).
  unfold matches, month_filter, in_span, from_start, upto_end.
  cbn [w_year w_month w_OR w_category].
  rewrite !(RangeResolverFacts.truthy_given _ Hs), !(RangeResolverFacts.truthy_given _ He).
  rewrite <- Hy.
  destruct (startMonth q) as [sm|], (endMonth q) as [em|]; cbn;
    unfold bound; cbn; bools; rewrite ?Z.geb_le; bools.
  all: split;
    [ intros H; decompose [and] H; clear H; split; [assumption|];
      split; right; (split; [assumption|]); intros ? E;
      try discriminate E; injection E as <-; lia
    | intros (Hc & [?|(Hyr & H1)] & [?|(Hyr' & H2)]); try lia;
      try specialize (H1 _ eq_refl); try specialize (H2 _ eq_refl);
      repeat split; auto; lia ].
Qed.

Lemma cross_year_matches q r :
  startYear q < endYear q ->
  startMonth q <> Some 0 -> endMonth q <> Some 0 ->
  (matches (build_where q) r = true
   <-> category_matches (q_category q) (category r) = true
       /\ in_span q (year r) (month r)).
Proof.
  intros Hy Hs He. unfold build_where.
  rewrite (proj2 (Z.eqb_neq _ _)) by lia.
  unfold matches. cbn [w_year w_month w_OR w_category int_matches].
  rewrite (RangeResolverFacts.dateConditions_parts q Hs He).
  rewrite !existsb_app. cbn [existsb andb]. rewrite !orb_false_r.
  rewrite andb_true_iff, !orb_true_iff.
  rewrite RangeResolverFacts.part_a_matches, RangeResolverFacts.part_c_matches.
  assert (Hb : existsb (fun c => cond_matches c (year r) (month r))
                 (if 1 <? endYear q - startYear q then [part_b q] else []) = true
               <-> startYear q < year r < endYear q).
  { destruct (1 <? endYear q - startYear q) eqn:E; cbn [existsb].
    - rewrite orb_false_r. apply RangeResolverFacts.part_b_matches.
    - apply Z.ltb_ge in E. split; [discriminate|lia]. }
  rewrite Hb. unfold in_span, from_start, upto_end.
  split.
  - intros ([(H1 & H2)|[H|(H1 & H2)]] & Hc); (split; [exact Hc|]).
    + split; [right; now split|left; lia].
    + split; left; lia.
    + split; [left; lia|right; now split].
  - intros (Hc & [H1|(H1 & H1')] & [H2|(H2 & H2')]); (split; [|exact Hc]).
    + right; left; lia.
    + right; right; now split.
    + left; now split.
    + lia.
Qed.

(** A query validation lets through is well ordered, its months not 0. *)
Lemma validated_query raw q :
  trendsQuerySchema raw = Valid q ->
  startYear q <= endYear q
  /\ (forall m, startMonth q = Some m -> 1 <= m <= 12)
  /\ (forall m, endMonth q = Some m -> 1 <= m <= 12)
  /\ (startYear q = endYear q ->
      forall sm em, startMonth q = Some sm -> endMonth q = Some em -> sm <= em).
Proof.
  unfold trendsQuerySchema. destruct (keys raw) as [q0|e] eqn:K; [|discriminate].
  cbn [bind]. intros C.
  destruct (ValidationFacts.keys_months raw q0 K) as [Hs He].
  assert (Hs0 : startMonth q0 <> Some 0) by (intros E; specialize (Hs _ E); lia).
  assert (He0 : endMonth q0 <> Some 0) by (intros E; specialize (He _ E); lia).
  destruct (ValidationFacts.custom_spec q0 Hs0 He0) as [Hbad Hgood].
  assert (Hnb : ~ badly_ordered q0).
  { intros B. destruct (Hbad B) as [msg Hm]. congruence. }
  rewrite (Hgood Hnb) in C. injection C as <-.
  split; [|split; [exact Hs|split; [exact He|]]].
  - destruct (Z.le_gt_cases (startYear q0) (endYear q0)) as [H|H]; [exact H|].
    exfalso. apply Hnb. left. lia.
  - intros Hy sm em Hsm Hem.
    destruct (Z.le_gt_cases sm em) as [H|H]; [exact H|].
    exfalso. apply Hnb. right. split; [exact Hy|]. exists sm, em. auto.
Qed.

Lemma validated_years raw q :
  trendsQuerySchema raw = Valid q ->
  2020 <= startYear q <= 2050 /\ 2020 <= endYear q <= 2050.
Proof.
  unfold trendsQuerySchema. destruct (keys raw) as [q0|e] eqn:K; [|discriminate].
  cbn [bind]. intros C.
  assert (q0 = q) as ->.
  { unfold custom in C.
    destruct (endYear q0 <? startYear q0); [discriminate|].
    destruct ((startYear q0 =? endYear q0) && Js.truthy (startMonth q0)
              && Js.truthy (endMonth q0)); [|congruence].
    destruct (startMonth q0), (endMonth q0); try congruence.
    destruct (_ <? _); [discriminate|congruence]. }
  clear C. revert K. unfold keys.
  destruct (r_startYear raw) as [sy|]; [|discriminate].
  destruct (r_endYear raw) as [ey|];
    [|cbn; destruct (in_range k_startYear 2020 2050 sy); discriminate].
  cbn [required].
  destruct (in_range k_startYear 2020 2050 sy) as [sy'|] eqn:E1; [|discriminate].
  destruct (in_range k_endYear 2020 2050 ey) as [ey'|] eqn:E2; [|discriminate].
  cbn [bind].
  apply ValidationFacts.in_range_valid in E1 as [-> E1].
  apply ValidationFacts.in_range_valid in E2 as [-> E2].
  destruct (optional k_startMonth 1 12 (r_startMonth raw)); [|discriminate].
  destruct (optional k_endMonth 1 12 (r_endMonth raw)); [|discriminate].
  cbn [bind]. intros [= <-]. cbn. lia.
Qed.

(** ** The order of the rows *)

Lemma oldest_first_asym x y : oldest_first x y = true -> oldest_first y x = false.
Proof. unfold oldest_first. bools. lia. Qed.

Lemma oldest_first_trans x y z :
  oldest_first x y = false -> oldest_first y z = false -> oldest_first x z = false.
Proof. unfold oldest_first. bools. lia. Qed.

Lemma oldest_first_le x y : oldest_first x y = false -> period_le x y.
Proof. unfold oldest_first, period_le. bools. lia. Qed.

Lemma trend_rows_perm q table :
  Permutation (trend_rows q table) (filter (matches (build_where q)) table).
Proof. apply ListFacts.sort_perm. Qed.

Lemma trend_rows_ordered q table : ForallOrdPairs period_le (trend_rows q table).
Proof.
  unfold trend_rows.
  apply (OrderFacts.FOP_weaken _ (fun a b => oldest_first a b = false)).
  - intros x y _ _. apply oldest_first_le.
  - apply (OrderFacts.sort_ordered _ oldest_first (fun _ => True)).
    + intros x y _ _. apply oldest_first_asym.
    + intros x y z _ _ _. apply oldest_first_trans.
    + apply Forall_forall. auto.
Qed.

(** X1. The same-year branch of [getTrends]: for every request with
    [startYear = endYear] (months, when given, not 0), the [where] object
    fixes the year and bounds the month by the months given, an absent
    month leaving its side open; a record matches it iff its category
    passes the category filter, its year is that year and its month lies
    between the months given. *)
Theorem same_year_where q r :
  startYear q = endYear q ->
  startMonth q <> Some 0 -> endMonth q <> Some 0 ->
  build_where q
  = mkWhere (Some (Equals (startYear q)))
      (match startMonth q, endMonth q with
       | None, None => None
       | sm, em => Some (Bounds None sm None em)
       end)
      None (q_category q)
  /\ (matches (build_where q) r = true
      <-> category_matches (q_category q) (category r) = true
          /\ year r = startYear q
          /\ (forall sm, startMonth q = Some sm -> sm <= month r)
          /\ (forall em, endMonth q = Some em -> month r <= em)).
Proof.
  intros Hy Hs He. split.
  - unfold build_where, month_filter. rewrite (proj2 (Z.eqb_eq _ _) Hy).
    rewrite !(RangeResolverFacts.truthy_given _ Hs), !(RangeResolverFacts.truthy_given _ He).
    now destruct (startMonth q), (endMonth q).
  - rewrite (same_year_matches q r Hy Hs He).
    unfold in_span, from_start, upto_end. rewrite <- Hy.
    split.
    + intros (Hc & [?|(Hyr & H1)] & [?|(Hyr' & H2)]); try lia. auto.
    + intros (Hc & Hyr & H1 & H2). split; [exact Hc|]. split; right; auto.
Qed.

Lemma same_year_where_witness :
  let q := mkTrendsQuery 2024 2024 (Some 3) None (Some SALARIES) by_month in
  let r := mkCost 1 SALARIES 5000000 7 2024 0 0 in
  startYear q = endYear q /\ startMonth q <> Some 0 /\ endMonth q <> Some 0
  /\ build_where q
     = mkWhere (Some (Equals 2024)) (Some (Bounds None (Some 3) None None)) None
               (Some SALARIES)
  /\ matches (build_where q) r = true.
Proof.
  cbv zeta.
  set (q := mkTrendsQuery 2024 2024 (Some 3) None (Some SALARIES) by_month).
  set (r := mkCost 1 SALARIES 5000000 7 2024 0 0).
  assert (Hy : startYear q = endYear q) by reflexivity.
  assert (Hs : startMonth q <> Some 0) by discriminate.
  assert (He : endMonth q <> Some 0) by discriminate.
  destruct (same_year_where q r Hy Hs He) as [Hw Hm].
  split; [exact Hy|]. split; [exact Hs|]. split; [exact He|]. split; [exact Hw|].
  reflexivity.
Defined.

Lemma getTrends_rows q table :
  getTrends false q table
  = Resolve
      (mkTrends (fst (aggregated (groupBy q) (trend_rows q table)))
         (mkTrendsSummary (snd (aggregated (groupBy q) (trend_rows q table)))
            (period_label (startYear q) (month_or (startMonth q) 1))
            (period_label (endYear q) (month_or (endMonth q) 12)))
         (groupBy q)).
Proof.
  unfold getTrends, aggregated. cbv zeta.
  destruct (groupBy q).
  - now destruct (processMonthlyTrends (trend_rows q table)).
  - now destruct (processYearlyTrends (trend_rows q table)).
  - now destruct (processCategoryTrends (trend_rows q table)).
Qed.

(** X2. For every request [trendsQuerySchema] lets through, [getTrends]
    aggregates, in the mode asked for, the rows of the table that lie in
    the inclusive span of the request and pass its category filter (each
    once, whether the two years are equal or not), read in the order of
    their periods. *)
Theorem getTrends_validated raw q table :
  trendsQuerySchema raw = Valid q ->
  exists expenses resp,
    getTrends false q table = Resolve resp
    /\ t_data resp = fst (aggregated (groupBy q) expenses)
    /\ amounts (t_summary resp) = snd (aggregated (groupBy q) expenses)
    /\ t_groupBy resp = groupBy q
    /\ Permutation expenses (filter (matches (build_where q)) table)
    /\ (forall r, matches (build_where q) r = true
                  <-> category_matches (q_category q) (category r) = true
                      /\ in_span q (year r) (month r))
    /\ (forall r, In r expenses
                  <-> In r table
                      /\ category_matches (q_category q) (category r) = true
                      /\ in_span q (year r) (month r))
    /\ ForallOrdPairs period_le expenses.
Proof.
  intros V. destruct (validated_query raw q V) as (Hy & Hs & He & _).
  assert (Hs0 : startMonth q <> Some 0) by (intros E; specialize (Hs _ E); lia).
  assert (He0 : endMonth q <> Some 0) by (intros E; specialize (He _ E); lia).
  assert (Hm : forall r, matches (build_where q) r = true
                 <-> category_matches (q_category q) (category r) = true
                     /\ in_span q (year r) (month r)).
  { intros r. destruct (Z.eq_dec (startYear q) (endYear q)) as [E|E].
    - now apply same_year_matches.
    - apply cross_year_matches; auto. lia. }
  exists (trend_rows q table). eexists. split; [apply getTrends_rows|].
  cbn [t_data t_summary amounts t_groupBy].
  split; [reflexivity|]. split; [reflexivity|]. split; [reflexivity|].
  split; [apply trend_rows_perm|]. split; [exact Hm|].
  split; [|apply trend_rows_ordered].
  intros r. split.
  - intros Hr. apply (Permutation_in _ (trend_rows_perm q table)) in Hr.
    apply filter_In in Hr as [Hin Hr]. split; [exact Hin|now apply Hm].
  - intros (Hin & Hc & Hsp).
    apply (Permutation_in _ (Permutation_sym (trend_rows_perm q table))).
    apply filter_In. split; [exact Hin|]. apply Hm. now split.
Qed.

Lemma getTrends_validated_witness :
  let raw := mkRaw (Some 2023) (Some 2024) (Some 11) (Some 2) None None in
  let q := mkTrendsQuery 2023 2024 (Some 11) (Some 2) None by_month in
  let table := [ mkCost 1 SALARIES 5000000 1 2024 0 0;
                 mkCost 2 SALARIES 4900000 12 2023 0 0;
                 mkCost 3 SALARIES 4800000 10 2023 0 0 ] in
  trendsQuerySchema raw = Valid q
  /\ exists expenses resp,
       getTrends false q table = Resolve resp
       /\ t_data resp = fst (aggregated (groupBy q) expenses)
       /\ Permutation expenses (filter (matches (build_where q)) table)
       /\ ForallOrdPairs period_le expenses.
Proof.
  cbv zeta.
  set (raw := mkRaw (Some 2023) (Some 2024) (Some 11) (Some 2) None None).
  set (q := mkTrendsQuery 2023 2024 (Some 11) (Some 2) None by_month).
  set (table := [ mkCost 1 SALARIES 5000000 1 2024 0 0;
                  mkCost 2 SALARIES 4900000 12 2023 0 0;
                  mkCost 3 SALARIES 4800000 10 2023 0 0 ]).
  assert (V : trendsQuerySchema raw = Valid q) by reflexivity.
  split; [exact V|].
  destruct (getTrends_validated raw q table V)
    as (expenses & resp & H1 & H2 & _ & _ & H5 & _ & _ & H8).
  exists expenses, resp. auto.
Defined.

(** X3. Over a table that keeps UNIQUE(category, month, year) (years and
    months not negative, no amount the Number -0), every group
    [getTrends] returns in month mode, and in category mode, has a
    [totalAmount] equal to the floating-point sum of its breakdown
    amounts: the rows reach the aggregators ordered by period, which is
    what the category mode needs. *)
Theorem getTrends_totals q table resp :
  NoDup (map unique_key table) ->
  plain_periods table ->
  (forall e, In e table -> PrimFloat.add 0 (amount_of e) = amount_of e) ->
  getTrends false q table = Resolve resp ->
  match t_data resp with
  | MonthlyData data =>
      forall g, In g data ->
        m_totalAmount g = Js.sum (map ca_amount (m_categoryBreakdown g))
  | CategoryData data =>
      forall g, In g data ->
        c_totalAmount g = Js.sum (map ma_amount (c_monthlyBreakdown g))
  | YearlyData _ => True
  end.
Proof.
  intros Hu Hp Hz. rewrite getTrends_rows. intros [= <-].
  cbn [t_data].
  pose proof (trend_rows_perm q table) as Hperm.
  assert (Hin : forall e, In e (trend_rows q table) -> In e table).
  { intros e He. apply (Permutation_in _ Hperm) in He.
    now apply filter_In in He. }
  assert (Hu' : NoDup (map unique_key (trend_rows q table))).
  { apply (Permutation_NoDup (Permutation_map unique_key (Permutation_sym Hperm))).
    now apply ArchiveFacts.NoDup_map_filter. }
  assert (Hp' : plain_periods (trend_rows q table)) by (intros e He; auto).
  assert (Hz' : forall e, In e (trend_rows q table) ->
                          PrimFloat.add 0 (amount_of e) = amount_of e) by auto.
  unfold aggregated. destruct (groupBy q); cbn [fst]; [|exact I|].
  - apply (AggregatorFacts.monthly_total_is_sum _ Hz' Hu' Hp').
  - apply (AggregatorFacts.category_total_is_sum _ Hz' Hu' Hp').
    apply trend_rows_ordered.
Qed.

Lemma getTrends_totals_witness :
  let q := mkTrendsQuery 2024 2024 None None None by_category in
  let table := [ mkCost 1 SALARIES 5100035 2 2024 0 0;
                 mkCost 2 SOFTWARE_TOOLS 2499 1 2024 0 0;
                 mkCost 3 SALARIES 5000010 1 2024 0 0 ] in
  NoDup (map unique_key table)
  /\ plain_periods table
  /\ (forall e, In e table -> PrimFloat.add 0 (amount_of e) = amount_of e)
  /\ exists data,
       option_map t_data
         (match getTrends false q table with Resolve r => Some r | Reject _ => None end)
       = Some (CategoryData data)
       /\ forall g, In g data ->
            c_totalAmount g = Js.sum (map ma_amount (c_monthlyBreakdown g)).
Proof.
  cbv zeta.
  set (q := mkTrendsQuery 2024 2024 None None None by_category).
  set (table := [ mkCost 1 SALARIES 5100035 2 2024 0 0;
                  mkCost 2 SOFTWARE_TOOLS 2499 1 2024 0 0;
                  mkCost 3 SALARIES 5000010 1 2024 0 0 ]).
  assert (Hu : NoDup (map unique_key table)).
  { repeat constructor; simpl; intuition discriminate. }
  assert (Hp : plain_periods table).
  { intros e [<-|[<-|[<-|[]]]]; simpl; lia. }
  assert (Hz : forall e, In e table -> PrimFloat.add 0 (amount_of e) = amount_of e).
  { intros e [<-|[<-|[<-|[]]]]; vm_compute; reflexivity. }
  split; [exact Hu|]. split; [exact Hp|]. split; [exact Hz|].
  destruct (getTrends false q table) as [resp|err] eqn:G; [|discriminate G].
  pose proof (getTrends_totals q table resp Hu Hp Hz G) as H.
  rewrite getTrends_rows in G. injection G as <-.
  cbn [t_data aggregated fst groupBy q] in *.
  eexists. split; [reflexivity|]. exact H.
Defined.

(** ** The period of the summary *)

Lemma padStart2_parse m :
  0 <= m ->
  all_digits (Js.padStart2 (Js.String_of m)) = true
  /\ Js.parseInt (Js.padStart2 (Js.String_of m)) = Some m.
Proof.
  intros Hm. rewrite (JsFacts.String_of_nonneg m Hm).
  destruct (JsFacts.padStart2_uint (N.to_uint (Z.to_N m)) (JsFacts.to_uint_nonnil _))
    as (d' & Hd' & -> & Hn).
  split; [apply JsFacts.string_of_uint_digits|].
  rewrite (JsFacts.parseInt_uint d' Hd'), Hn. f_equal. now apply JsFacts.of_to_Z.
Qed.

Lemma String_of_digits y : 0 <= y -> all_digits (Js.String_of y) = true.
Proof.
  intros Hy. rewrite (JsFacts.String_of_nonneg y Hy).
  apply JsFacts.string_of_uint_digits.
Qed.

(** A label is read back as its year, its month and the day 1. *)
Lemma period_label_parse y m :
  0 <= y -> 0 <= m ->
  map Js.parseInt (Js.split "-" (period_label y m)) = [Some y; Some m; Some 1].
Proof.
  intros Hy Hm. unfold period_label.
  destruct (padStart2_parse m Hm) as [Hd Hp].
  change (Js.String_of y ++ "-" ++ Js.padStart2 (Js.String_of m) ++ "-01")%string
    with (Js.String_of y ++ String "-" (Js.padStart2 (Js.String_of m) ++ "-01"))%string.
  rewrite (JsFacts.split_app _ _ (String_of_digits y Hy)).
  change (Js.padStart2 (Js.String_of m) ++ "-01")%string
    with (Js.padStart2 (Js.String_of m) ++ String "-" "01")%string.
  rewrite (JsFacts.split_app _ _ Hd).
  cbn [map]. rewrite (JsFacts.parseInt_String_of y Hy), Hp. reflexivity.
Qed.

(** X4. For every request validation lets through, [periodStart] and
    [periodEnd] of the summary have the form year-month-day: split at
    [-] and read by [parseInt] they give the start year, the start month
    (1 when the request has none) and the day 1, and the end year, the
    end month (12 when the request has none) and the day 1. *)
Theorem getTrends_period raw q table :
  trendsQuerySchema raw = Valid q ->
  exists resp,
    getTrends false q table = Resolve resp
    /\ map Js.parseInt (Js.split "-" (periodStart (t_summary resp)))
       = [Some (startYear q);
          Some (match startMonth q with Some m => m | None => 1 end); Some 1]
    /\ map Js.parseInt (Js.split "-" (periodEnd (t_summary resp)))
       = [Some (endYear q);
          Some (match endMonth q with Some m => m | None => 12 end); Some 1].
Proof.
  intros V. destruct (validated_query raw q V) as (Hy & Hs & He & _).
  destruct (validated_years raw q V) as [Hsy Hey].
  eexists. split; [apply getTrends_rows|]. cbn [t_summary periodStart periodEnd].
  assert (Hms : month_or (startMonth q) 1
                = match startMonth q with Some m => m | None => 1 end).
  { destruct (startMonth q) as [m|]; [|reflexivity].
    specialize (Hs m eq_refl). destruct m; try reflexivity; lia. }
  assert (Hme : month_or (endMonth q) 12
                = match endMonth q with Some m => m | None => 12 end).
  { destruct (endMonth q) as [m|]; [|reflexivity].
    specialize (He m eq_refl). destruct m; try reflexivity; lia. }
  rewrite Hms, Hme. split; apply period_label_parse; try lia.
  - destruct (startMonth q) as [m|]; [specialize (Hs m eq_refl)|]; lia.
  - destruct (endMonth q) as [m|]; [specialize (He m eq_refl)|]; lia.
Qed.

Lemma getTrends_period_witness :
  let raw := mkRaw (Some 2023) (Some 2024) (Some 11) None None None in
  let q := mkTrendsQuery 2023 2024 (Some 11) None None by_month in
  trendsQuerySchema raw = Valid q
  /\ exists resp,
       getTrends false q [] = Resolve resp
       /\ map Js.parseInt (Js.split "-" (periodStart (t_summary resp)))
          = [Some 2023; Some 11; Some 1]
       /\ map Js.parseInt (Js.split "-" (periodEnd (t_summary resp)))
          = [Some 2024; Some 12; Some 1].
Proof.
  cbv zeta.
  set (raw := mkRaw (Some 2023) (Some 2024) (Some 11) None None None).
  set (q := mkTrendsQuery 2023 2024 (Some 11) None None by_month).
  assert (V : trendsQuerySchema raw = Valid q) by reflexivity.
  split; [exact V|]. exact (getTrends_period raw q [] V).
Defined.

(** X5. When no row of the table matches the request, [getTrends]
    answers, in each of the three modes, with an empty [data] and a
    summary whose four amounts are 0 (the period and the mode are still
    those of the request). *)
Theorem getTrends_nothing q table :
  (forall r, In r table -> matches (build_where q) r = false) ->
  getTrends false q table
  = Resolve
      (mkTrends
         (match groupBy q with
          | by_month => MonthlyData []
          | by_year => YearlyData []
          | by_category => CategoryData []
          end)
         (mkTrendsSummary (mkSummary 0 0 0 0)
            (period_label (startYear q) (month_or (startMonth q) 1))
            (period_label (endYear q) (month_or (endMonth q) 12)))
         (groupBy q)).
Proof.
  intros H. rewrite getTrends_rows.
  unfold trend_rows. rewrite (ListFacts.filter_none _ _ _ H).
  now destruct (groupBy q).
Qed.

Lemma getTrends_nothing_witness :
  let q := mkTrendsQuery 2024 2024 None None None by_year in
  let table := [ mkCost 1 SALARIES 5000000 1 2023 0 0 ] in
  (forall r, In r table -> matches (build_where q) r = false)
  /\ getTrends false q table
     = Resolve (mkTrends (YearlyData [])
                  (mkTrendsSummary (mkSummary 0 0 0 0) "2024-01-01" "2024-12-01")
                  by_year).
Proof.
  cbv zeta.
  set (q := mkTrendsQuery 2024 2024 None None None by_year).
  set (table := [ mkCost 1 SALARIES 5000000 1 2023 0 0 ]).
  assert (H : forall r, In r table -> matches (build_where q) r = false).
  { intros r [<-|[]]. reflexivity. }
  split; [exact H|]. exact (getTrends_nothing q table H).
Defined.

End TrendsFacts.

(* ===================================================================== *)
(** * The order of the aggregated data *)
(* ===================================================================== *)

Module TrendOrderFacts.
Import TrendAggregator Lists AggregatorSpec TrendsSpec.

(** The comparator on two periods that were read back as numbers. *)
Lemma period_gt_numbers y1 m1 y2 m2 :
  period_gt (Some y1) (Some m1) (Some y2) (Some m2) = true
  <-> y2 < y1 \/ (y1 = y2 /\ m2 < m1).
Proof.
  unfold period_gt, Js.sub, Js.num_or, Js.positive.
  destruct (y1 - y2) eqn:E; rewrite Z.ltb_lt; lia.
Qed.

Lemma period_gt_false y1 m1 y2 m2 :
  period_gt (Some y1) (Some m1) (Some y2) (Some m2) = false
  <-> y1 < y2 \/ (y1 = y2 /\ m1 <= m2).
Proof.
  rewrite <- Bool.not_true_iff_false, period_gt_numbers. lia.
Qed.

Section Periods.
Variables (T : Type) (year_of month_of : T -> option Z).

Let gt (a b : T) : bool := period_gt (year_of a) (month_of a) (year_of b) (month_of b).
Let numbered (a : T) : Prop := exists y m, year_of a = Some y /\ month_of a = Some m.

(** Sorting by the period comparator puts numbered periods in
    chronological order. *)
Lemma sort_chronological l :
  Forall numbered l ->
  ForallOrdPairs
    (fun a b => chronological (year_of a) (month_of a) (year_of b) (month_of b))
    (Js.sort gt l).
Proof.
  intros Hl.
  assert (Hs : Forall numbered (Js.sort gt l)).
  { apply Forall_forall. intros x Hx. apply ListFacts.sort_In in Hx.
    now apply (proj1 (Forall_forall _ _) Hl). }
  apply (OrderFacts.FOP_weaken _ (fun a b => gt a b = false)).
  - intros x y Hx Hy Hxy.
    destruct (proj1 (Forall_forall _ _) Hs x Hx) as (y1 & m1 & Ey1 & Em1).
    destruct (proj1 (Forall_forall _ _) Hs y Hy) as (y2 & m2 & Ey2 & Em2).
    exists y1, m1, y2, m2. repeat (split; [assumption|]).
    unfold gt in Hxy. rewrite Ey1, Em1, Ey2, Em2 in Hxy.
    now apply period_gt_false.
  - apply (OrderFacts.sort_ordered _ gt numbered); [| |exact Hl].
    + intros x y (y1 & m1 & Ey1 & Em1) (y2 & m2 & Ey2 & Em2).
      unfold gt. rewrite Ey1, Em1, Ey2, Em2.
      rewrite period_gt_numbers, period_gt_false. lia.
    + intros x y z (y1 & m1 & Ey1 & Em1) (y2 & m2 & Ey2 & Em2) (y3 & m3 & Ey3 & Em3).
      unfold gt. rewrite Ey1, Em1, Ey2, Em2, Ey3, Em3.
      rewrite !period_gt_false. lia.
Qed.
End Periods.

(** X6. The data of the aggregators come in order, for records whose
    year and month are not negative: the monthly groups by (year, month),
    earliest first; the yearly groups by year, earliest first; and within
    each category group the entries of [monthlyBreakdown] by (year,
    month), earliest first. *)
Theorem trends_in_order expenses :
  plain_periods expenses ->
  ForallOrdPairs
    (fun a b => chronological (m_year a) (m_month a) (m_year b) (m_month b))
    (fst (processMonthlyTrends expenses))
  /\ ForallOrdPairs (fun a b => y_year a <= y_year b)
       (fst (processYearlyTrends expenses))
  /\ (forall g, In g (fst (processCategoryTrends expenses)) ->
        ForallOrdPairs
          (fun a b => chronological (ma_year a) (ma_month a) (ma_year b) (ma_month b))
          (c_monthlyBreakdown g)).
Proof.
  intros Hplain. split; [|split].
  - unfold processMonthlyTrends, Js.entries. cbn [fst].
    apply (sort_chronological _ m_year m_month).
    apply Forall_forall. intros g Hg.
    apply in_map_iff in Hg as ([k data] & <- & Hin).
    destruct (AggregatorFacts.groups_entry _ _ _ _ String.eqb_eq _ _ _ _ _ _
                (AggregatorFacts.monthly_pass expenses) Hin)
      as ((e & He & Hk) & _).
    pose proof (AggregatorFacts.monthly_entry_period (k, data)) as P.
    cbn [fst] in P. rewrite <- Hk in P at 3.
    destruct (Hplain e He) as [Hy Hm].
    rewrite (JsFacts.split_month_key e Hy Hm) in P.
    exists (year e), (month e).
    split; [exact (f_equal fst P)|exact (f_equal snd P)].
  - unfold processYearlyTrends. cbn [fst].
    apply (OrderFacts.FOP_weaken _ (fun a b => yearly_gt a b = false)).
    + intros x y _ _. unfold yearly_gt. rewrite Z.ltb_ge. lia.
    + apply (OrderFacts.sort_ordered _ yearly_gt (fun _ => True)).
      * intros x y _ _. unfold yearly_gt. rewrite Z.ltb_lt, Z.ltb_ge. lia.
      * intros x y z _ _ _. unfold yearly_gt. rewrite !Z.ltb_ge. lia.
      * apply Forall_forall. auto.
  - intros g Hg. unfold processCategoryTrends, Js.entries in Hg. cbn [fst] in Hg.
    apply ListFacts.sort_In in Hg.
    apply in_map_iff in Hg as ([k data] & <- & Hin).
    destruct (AggregatorFacts.groups_entry _ _ _ _ AggregatorFacts.category_eqb_spec
                _ _ _ _ _ _ (AggregatorFacts.category_pass expenses) Hin)
      as (_ & _ & Hb).
    cbn [category_entry c_monthlyBreakdown]. unfold Js.entries.
    apply (sort_chronological _ ma_year ma_month).
    apply Forall_forall. intros b Hbi.
    apply in_map_iff in Hbi as ([j a] & <- & Hja).
    destruct (AggregatorFacts.breakdown_entry _ _ String.eqb_eq _ _ _ _ _ Hb Hja)
      as ((e & He & Hkey) & _).
    apply filter_In in He as [He _].
    pose proof (AggregatorFacts.month_amount_period (j, a)) as P.
    cbn [fst] in P. rewrite <- Hkey in P at 3.
    destruct (Hplain e He) as [Hy Hm].
    rewrite (JsFacts.split_month_key e Hy Hm) in P.
    exists (year e), (month e).
    split; [exact (f_equal fst P)|exact (f_equal snd P)].
Qed.

Lemma trends_in_order_witness :
  let expenses := [ mkCost 1 SALARIES 5100000 2 2024 0 0;
                    mkCost 2 SOFTWARE_TOOLS 200000 11 2023 0 0;
                    mkCost 3 SALARIES 5000000 1 2024 0 0 ] in
  plain_periods expenses
  /\ map (fun g => (m_year g, m_month g)) (fst (processMonthlyTrends expenses))
     = [(Some 2023, Some 11); (Some 2024, Some 1); (Some 2024, Some 2)]
  /\ ForallOrdPairs
       (fun a b => chronological (m_year a) (m_month a) (m_year b) (m_month b))
       (fst (processMonthlyTrends expenses))
  /\ ForallOrdPairs (fun a b => y_year a <= y_year b)
       (fst (processYearlyTrends expenses)).
Proof.
  cbv zeta.
  set (expenses := [ mkCost 1 SALARIES 5100000 2 2024 0 0;
                     mkCost 2 SOFTWARE_TOOLS 200000 11 2023 0 0;
                     mkCost 3 SALARIES 5000000 1 2024 0 0 ]).
  assert (Hplain : plain_periods expenses).
  { intros e [<-|[<-|[<-|[]]]]; simpl; lia. }
  destruct (trends_in_order expenses Hplain) as (Hm & Hy & _).
  split; [exact Hplain|]. split; [vm_compute; reflexivity|].
  split; [exact Hm|exact Hy].
Defined.

End TrendOrderFacts.

(* ===================================================================== *)
(** * Properties of the expense service *)
(* ===================================================================== *)

Module ExpenseServiceFacts.
Import Archive Lists RangeResolver Errors ExpenseService OrderFacts.

(** ** Looking rows up *)

Lemma category_eqb_sym a b : category_eqb a b = category_eqb b a.
Proof. now destruct a, b. Qed.

Lemma findFirst_same_period row table :
  existsb (same_period row) table
  = match findFirst (category row) (month row) (year row) table with
    | Some _ => true
    | None => false
    end.
Proof.
  unfold findFirst, same_period.
  induction table as [|c table IH]; cbn [existsb find]; [reflexivity|].
  rewrite (category_eqb_sym (category row)), (Z.eqb_sym (month row)),
    (Z.eqb_sym (year row)).
  destruct (category_eqb (category c) (category row) && (month c =? month row)
            && (year c =? year row)); [reflexivity|exact IH].
Qed.

Lemma findFirst_key category0 month0 year0 table :
  (exists c, findFirst category0 month0 year0 table = Some c)
  <-> In (category0, month0, year0) (map unique_key table).
Proof.
  unfold findFirst. split.
  - intros [c H]. apply find_some in H as [Hin H]. bools.
    destruct H as [[Hc Hm] Hy]. apply ArchiveFacts.category_eqb_eq in Hc.
    apply in_map_iff. exists c. split; [|exact Hin].
    unfold unique_key. congruence.
  - intros H. apply in_map_iff in H as (c & E & Hin).
    unfold unique_key in E. injection E as Ec Em Ey.
    destruct (find _ table) as [c'|] eqn:F; [eauto|].
    exfalso. apply (find_none _ _ F) in Hin. bools.
    rewrite Ec, Em, Ey in Hin.
    destruct Hin as [[Hin|Hin]|Hin]; try lia.
    assert (category_eqb category0 category0 = true)
      by now apply ArchiveFacts.category_eqb_eq.
    congruence.
Qed.

Lemma row_of_id_In k table :
  (exists c, row_of_id k table = Some c) <-> In k (map id table).
Proof.
  unfold row_of_id. split.
  - intros [c H]. apply ArchiveFacts.find_id_In in H as [Hin <-]. now apply in_map.
  - intros H. destruct (find _ table) as [c|] eqn:F; [eauto|].
    now apply ArchiveFacts.find_id_None in F.
Qed.

Lemma existsb_id k table :
  existsb (fun c => id c =? k) table = true <-> In k (map id table).
Proof.
  rewrite existsb_exists, in_map_iff. split.
  - intros (c & Hin & E). apply Z.eqb_eq in E. eauto.
  - intros (c & E & Hin). exists c. split; [exact Hin|now apply Z.eqb_eq].
Qed.

Lemma int4_range k : int4 k = true <-> -2147483648 <= k <= 2147483647.
Proof. unfold int4. bools. lia. Qed.

Lemma int4_beyond k : int4 k = false <-> k < -2147483648 \/ 2147483647 < k.
Proof.
  pose proof (int4_range k) as H. destruct (int4 k).
  - split; [discriminate|]. intros. assert (true = true) by reflexivity. lia.
  - split; [|reflexivity]. intros _.
    destruct (Z_lt_dec k (-2147483648)); [now left|].
    destruct (Z_lt_dec 2147483647 k); [now right|].
    assert (false = true) by (apply H; lia). discriminate.
Qed.

Lemma row_of_id_snoc k table row :
  ~ In (id row) (map id table) ->
  row_of_id k (table ++ [row])
  = if id row =? k then Some row else row_of_id k table.
Proof.
  unfold row_of_id. intros Hfresh.
  induction table as [|c table IH]; cbn [app find].
  - now destruct (id row =? k).
  - destruct (id c =? k) eqn:E.
    + apply Z.eqb_eq in E. destruct (id row =? k) eqn:E'; [|reflexivity].
      apply Z.eqb_eq in E'. exfalso. apply Hfresh. left. congruence.
    + apply IH. intros H. apply Hfresh. now right.
Qed.

(** ** Creating *)

(** X7. Whether [createExpense] succeeds is what [expenseExists] says
    of the request's (category, month, year), for every id the sequence
    can hand out (a value of the 32-bit id column): where it answers true,
    the create is rejected with DuplicateEntryError (status 409) and the
    table is left as it was; where it answers false (and the id is
    unused), the create resolves with the response of the new row, which
    is appended to the table.  A sequence that has run past the range of
    the column fails the create with DatabaseError (status 500), the
    table left as it was. *)
Theorem createExpense_duplicate nextId now data table :
  let taken := expenseExists false (d_category data) (d_month data) (d_year data) table in
  let row := mkCost nextId (d_category data) (d_amount data) (d_month data)
                    (d_year data) now now in
  let duplicate := DuplicateEntryError (d_category data) (d_month data) (d_year data) in
  let failed := DatabaseError "Failed to create expense" in
  (-2147483648 <= nextId <= 2147483647 ->
   (taken = Resolve true ->
    createExpense false nextId now data table = (Reject duplicate, table)
    /\ statusCode duplicate = 409 /\ code duplicate = DUPLICATE_ENTRY)
   /\ (taken = Resolve false -> ~ In nextId (map id table) ->
       createExpense false nextId now data table
       = (Resolve (toResponse row), table ++ [row])))
  /\ (nextId < -2147483648 \/ 2147483647 < nextId ->
      createExpense false nextId now data table = (Reject failed, table)
      /\ statusCode failed = 500).
Proof.
  cbv zeta. unfold expenseExists, createExpense, create.
  set (row := mkCost nextId (d_category data) (d_amount data) (d_month data)
                     (d_year data) now now).
  rewrite (findFirst_same_period row table). cbn [category month year row].
  split.
  - intros Hid. apply int4_range in Hid. rewrite Hid. cbn [negb]. split.
    + intros H. destruct (findFirst _ _ _ table); [|discriminate H].
      rewrite orb_true_r. auto.
    + intros H Hfresh. destruct (findFirst _ _ _ table); [discriminate H|].
      rewrite orb_false_r.
      destruct (existsb (fun c => id c =? nextId) table) eqn:E; [|reflexivity].
      now apply existsb_id in E.
  - intros Hid. apply int4_beyond in Hid. rewrite Hid. cbn [negb]. auto.
Qed.

Lemma createExpense_duplicate_witness :
  let table := [ mkCost 1 SALARIES 5000000 1 2024 10 10 ] in
  expenseExists false SALARIES 1 2024 table = Resolve true
  /\ createExpense false 2 20 (mkCreate SALARIES 5100000 1 2024) table
     = (Reject (DuplicateEntryError SALARIES 1 2024), table)
  /\ expenseExists false SALARIES 2 2024 table = Resolve false
  /\ ~ In 2 (map id table)
  /\ createExpense false 2 20 (mkCreate SALARIES 5100000 2 2024) table
     = (Resolve (toResponse (mkCost 2 SALARIES 5100000 2 2024 20 20)),
        table ++ [mkCost 2 SALARIES 5100000 2 2024 20 20])
  /\ createExpense false 2147483648 20 (mkCreate SALARIES 5100000 2 2024) table
     = (Reject (DatabaseError "Failed to create expense"), table).
Proof.
  cbv zeta.
  set (table := [ mkCost 1 SALARIES 5000000 1 2024 10 10 ]).
  assert (H0 : -2147483648 <= 2 <= 2147483647) by lia.
  assert (H1 : expenseExists false SALARIES 1 2024 table = Resolve true) by reflexivity.
  assert (H2 : expenseExists false SALARIES 2 2024 table = Resolve false) by reflexivity.
  assert (H3 : ~ In 2 (map id table)) by (simpl; intuition discriminate).
  assert (H4 : 2147483648 < -2147483648 \/ 2147483647 < 2147483648) by lia.
  split; [exact H1|].
  split; [exact (proj1 (proj1 (proj1 (createExpense_duplicate 2 20
                   (mkCreate SALARIES 5100000 1 2024) table) H0) H1))|].
  split; [exact H2|]. split; [exact H3|].
  split; [exact (proj2 (proj1 (createExpense_duplicate 2 20
                  (mkCreate SALARIES 5100000 2 2024) table) H0) H2 H3)|].
  exact (proj1 (proj2 (createExpense_duplicate 2147483648 20
                  (mkCreate SALARIES 5100000 2 2024) table) H4)).
Defined.

(** X8. A created expense can be read back: after a [createExpense]
    that resolves, [getExpenseById] on the new id resolves with the same
    response, which carries the request's category, month and year, its
    amount as a Number and the creation time as both timestamps;
    [expenseExists] now answers true for its (category, month, year), and
    the lookup of every other id is what it was. *)
Theorem createExpense_then_get nextId now data table resp table' :
  createExpense false nextId now data table = (Resolve resp, table') ->
  getExpenseById false nextId table' = Resolve resp
  /\ resp = mkResponse nextId (d_category data) (Js.Number (d_amount data))
              (d_month data) (d_year data) now now
  /\ expenseExists false (d_category data) (d_month data) (d_year data) table'
     = Resolve true
  /\ (forall k, k <> nextId ->
        getExpenseById false k table' = getExpenseById false k table).
Proof.
  unfold createExpense, create.
  set (row := mkCost nextId (d_category data) (d_amount data) (d_month data)
                     (d_year data) now now).
  destruct (int4 nextId) eqn:Hid; cbn [negb]; [|discriminate].
  destruct (existsb (fun c => id c =? nextId) table) eqn:E1;
    [cbn [orb]; discriminate|].
  destruct (existsb (same_period row) table) eqn:E2; [cbn [orb]; discriminate|].
  cbn [orb]. intros [= <- <-].
  assert (Hfresh : ~ In (id row) (map id table)).
  { intros H. apply existsb_id in H. cbn [id row] in H. congruence. }
  unfold getExpenseById, expenseExists, findUnique.
  split; [|split; [reflexivity|split]].
  - rewrite Hid, (row_of_id_snoc nextId table row Hfresh). cbn [id row].
    now rewrite Z.eqb_refl.
  - destruct (findFirst _ _ _ (table ++ [row])) eqn:F; [reflexivity|].
    exfalso.
    assert (H : In (d_category data, d_month data, d_year data)
                   (map unique_key (table ++ [row]))).
    { rewrite map_app. apply in_or_app. right. now left. }
    apply findFirst_key in H as [c H]. congruence.
  - intros k Hk. rewrite (row_of_id_snoc k table row Hfresh). cbn [id row].
    now rewrite (proj2 (Z.eqb_neq _ _)) by congruence.
Qed.

Lemma createExpense_then_get_witness :
  let table := [ mkCost 1 SALARIES 5000000 1 2024 10 10 ] in
  let data := mkCreate SOFTWARE_TOOLS 150050 3 2024 in
  let resp := mkResponse 2 SOFTWARE_TOOLS (Js.Number 150050) 3 2024 20 20 in
  let table' := table ++ [mkCost 2 SOFTWARE_TOOLS 150050 3 2024 20 20] in
  createExpense false 2 20 data table = (Resolve resp, table')
  /\ getExpenseById false 2 table' = Resolve resp.
Proof.
  cbv zeta.
  set (table := [ mkCost 1 SALARIES 5000000 1 2024 10 10 ]).
  set (data := mkCreate SOFTWARE_TOOLS 150050 3 2024).
  set (resp := mkResponse 2 SOFTWARE_TOOLS (Js.Number 150050) 3 2024 20 20).
  set (table' := table ++ [mkCost 2 SOFTWARE_TOOLS 150050 3 2024 20 20]).
  assert (H : createExpense false 2 20 data table = (Resolve resp, table'))
    by reflexivity.
  split; [exact H|].
  exact (proj1 (createExpense_then_get 2 20 data table resp table' H)).
Defined.

(** ** Updating and deleting *)

Lemma updateExpense_table now k new_amount table :
  In k (map id table) ->
  Archive.updateExpense now k new_amount table
  = Some (map (fun c => if id c =? k
                        then mkCost (id c) (category c) new_amount (month c)
                                    (year c) (createdAt c) now
                        else c) table).
Proof.
  intros H. unfold Archive.updateExpense.
  apply row_of_id_In in H as [c H]. unfold row_of_id in H. now rewrite H.
Qed.

Lemma row_of_id_map k (f : Cost -> Cost) table :
  (forall c, id (f c) = id c) ->
  row_of_id k (map f table) = option_map f (row_of_id k table).
Proof.
  intros Hf. unfold row_of_id.
  induction table as [|c table IH]; cbn [map find]; [reflexivity|].
  rewrite Hf. destruct (id c =? k); [reflexivity|exact IH].
Qed.

(** X9. [updateExpense] on the id of a row resolves with the response
    of that row carrying the new amount and the time of the update as
    [updatedAt]; a later [getExpenseById] gives the same response.  The
    row keeps its id, category, month, year and [createdAt]; the table
    keeps its ids and its (category, month, year) keys in place, hence the
    unique constraint, and every row with another id is as it was.  On an
    id of the column's 32-bit range that no row has, it is rejected with
    NotFoundError (status 404); on a number beyond that range, which is
    no id, with DatabaseError (status 500), as [getExpenseById] is; the
    table is left as it was in both cases. *)
Theorem updateExpense_effect now k new_amount table :
  let failed := DatabaseError "Failed to update expense" in
  (forall existing, findUnique k table = inr (Some existing) ->
     let updated := mkCost (id existing) (category existing) new_amount
                           (month existing) (year existing) (createdAt existing) now in
     exists table',
       updateExpense false now k new_amount table = (Resolve (toResponse updated), table')
       /\ getExpenseById false k table' = Resolve (toResponse updated)
       /\ map id table' = map id table
       /\ map unique_key table' = map unique_key table
       /\ (forall c, id c <> k -> (In c table <-> In c table')))
  /\ (findUnique k table = inr None ->
      -2147483648 <= k <= 2147483647
      /\ updateExpense false now k new_amount table = (Reject (NotFoundError k), table)
      /\ statusCode (NotFoundError k) = 404)
  /\ (k < -2147483648 \/ 2147483647 < k ->
      findUnique k table = inl other_error
      /\ updateExpense false now k new_amount table = (Reject failed, table)
      /\ getExpenseById false k table
         = Reject (DatabaseError "Failed to retrieve expense")
      /\ statusCode failed = 500).
Proof.
  cbv zeta. unfold findUnique. split; [|split].
  - intros existing F.
    destruct (int4 k) eqn:Hid; [|discriminate]. injection F as F.
    assert (Hk : In k (map id table)) by (apply row_of_id_In; eauto).
    pose proof (updateExpense_table now k new_amount table Hk) as U.
    set (f := fun c => if id c =? k
                       then mkCost (id c) (category c) new_amount (month c)
                                   (year c) (createdAt c) now
                       else c) in U.
    assert (Hf : forall c, id (f c) = id c).
    { intros c. unfold f. now destruct (id c =? k). }
    exists (map f table).
    unfold updateExpense, update. rewrite Hid, F, U. cbn [negb].
    split; [reflexivity|]. split; [|split; [|split]].
    + unfold getExpenseById, findUnique.
      rewrite Hid, (row_of_id_map k f table Hf), F.
      cbn [option_map]. unfold f.
      apply ArchiveFacts.find_id_In in F as [_ ->]. now rewrite Z.eqb_refl.
    + rewrite map_map. apply map_ext. exact Hf.
    + rewrite map_map. apply map_ext. intros c. unfold f.
      now destruct (id c =? k).
    + intros c Hc. rewrite in_map_iff. split.
      * intros Hin. exists c. split; [|exact Hin]. unfold f.
        now rewrite (proj2 (Z.eqb_neq _ _) Hc).
      * intros (c' & E & Hin). unfold f in E. destruct (id c' =? k) eqn:E'.
        -- apply Z.eqb_eq in E'. subst c. cbn [id] in Hc. congruence.
        -- now subst c'.
  - intros F. destruct (int4 k) eqn:Hid; [|discriminate]. injection F as F.
    split; [now apply int4_range|]. split; [|reflexivity].
    unfold updateExpense, update. now rewrite Hid, F.
  - intros Hid. apply int4_beyond in Hid.
    unfold updateExpense, update, getExpenseById, findUnique.
    rewrite Hid. cbn [negb]. auto.
Qed.

Lemma updateExpense_effect_witness :
  let table := [ mkCost 1 SALARIES 5000000 1 2024 10 10;
                 mkCost 2 SOFTWARE_TOOLS 150050 1 2024 11 11 ] in
  findUnique 2 table = inr (Some (mkCost 2 SOFTWARE_TOOLS 150050 1 2024 11 11))
  /\ findUnique 7 table = inr None
  /\ updateExpense false 30 7 99 table = (Reject (NotFoundError 7), table)
  /\ updateExpense false 30 2147483648 99 table
     = (Reject (DatabaseError "Failed to update expense"), table)
  /\ exists table',
       updateExpense false 30 2 175000 table
       = (Resolve (toResponse (mkCost 2 SOFTWARE_TOOLS 175000 1 2024 11 30)), table')
       /\ map unique_key table' = map unique_key table.
Proof.
  cbv zeta.
  set (table := [ mkCost 1 SALARIES 5000000 1 2024 10 10;
                  mkCost 2 SOFTWARE_TOOLS 150050 1 2024 11 11 ]).
  assert (F2 : findUnique 2 table
               = inr (Some (mkCost 2 SOFTWARE_TOOLS 150050 1 2024 11 11)))
    by reflexivity.
  assert (F7 : findUnique 7 table = inr None) by reflexivity.
  assert (Hbig : 2147483648 < -2147483648 \/ 2147483647 < 2147483648) by lia.
  split; [exact F2|]. split; [exact F7|].
  split; [exact (proj1 (proj2 (proj1 (proj2 (updateExpense_effect 30 7 99 table)) F7)))|].
  split; [exact (proj1 (proj2 (proj2 (proj2
                   (updateExpense_effect 30 2147483648 99 table)) Hbig)))|].
  destruct (proj1 (updateExpense_effect 30 2 175000 table) _ F2)
    as (table' & H1 & _ & _ & H4 & _).
  exists table'. split; [exact H1|exact H4].
Defined.

(** X10. [deleteExpense] on the id of a row resolves and removes the
    rows of that id and no other, keeping the order of the rest; after it
    [getExpenseById] and a second [deleteExpense] on that id are rejected
    with NotFoundError (status 404).  On an id of the column's 32-bit
    range that no row has, it is rejected with NotFoundError and the
    table is left as it was.  On a number beyond that range, which is no
    id, it is rejected with DatabaseError (status 500), as
    [getExpenseById] is, and the table is left as it was. *)
Theorem deleteExpense_effect k table :
  let failed := DatabaseError "Failed to delete expense" in
  (-2147483648 <= k <= 2147483647 ->
   (In k (map id table) ->
      let table' := filter (fun c => negb (id c =? k)) table in
      deleteExpense false k table = (Resolve tt, table')
      /\ (forall c, In c table' <-> In c table /\ id c <> k)
      /\ getExpenseById false k table' = Reject (NotFoundError k)
      /\ deleteExpense false k table' = (Reject (NotFoundError k), table'))
   /\ (~ In k (map id table) ->
       deleteExpense false k table = (Reject (NotFoundError k), table)
       /\ statusCode (NotFoundError k) = 404))
  /\ (k < -2147483648 \/ 2147483647 < k ->
      deleteExpense false k table = (Reject failed, table)
      /\ getExpenseById false k table
         = Reject (DatabaseError "Failed to retrieve expense")
      /\ statusCode failed = 500).
Proof.
  cbv zeta.
  assert (Hmiss : forall t, ~ In k (map id t) -> row_of_id k t = None).
  { intros t H. destruct (row_of_id k t) as [c|] eqn:F; [|reflexivity].
    exfalso. apply H. apply row_of_id_In. eauto. }
  split.
  - intros Hid. apply int4_range in Hid. split.
    + intros Hk.
      set (table' := filter (fun c => negb (id c =? k)) table).
      assert (Hgone : ~ In k (map id table')).
      { intros H. apply in_map_iff in H as (c & E & Hin).
        apply filter_In in Hin as [_ Hin]. bools. congruence. }
      apply row_of_id_In in Hk as [existing F].
      split; [|split; [|split]].
      * unfold deleteExpense, delete. now rewrite Hid, F.
      * intros c. unfold table'. rewrite filter_In. bools. tauto.
      * unfold getExpenseById, findUnique. now rewrite Hid, (Hmiss table' Hgone).
      * unfold deleteExpense, delete. now rewrite Hid, (Hmiss table' Hgone).
    + intros Hk. split; [|reflexivity].
      unfold deleteExpense, delete. now rewrite Hid, (Hmiss table Hk).
  - intros Hid. apply int4_beyond in Hid.
    unfold deleteExpense, delete, getExpenseById, findUnique.
    rewrite Hid. cbn [negb]. auto.
Qed.

Lemma deleteExpense_effect_witness :
  let table := [ mkCost 1 SALARIES 5000000 1 2024 10 10;
                 mkCost 2 SOFTWARE_TOOLS 150050 1 2024 11 11 ] in
  In 1 (map id table)
  /\ deleteExpense false 1 table
     = (Resolve tt, [mkCost 2 SOFTWARE_TOOLS 150050 1 2024 11 11])
  /\ ~ In 7 (map id table)
  /\ deleteExpense false 7 table = (Reject (NotFoundError 7), table)
  /\ deleteExpense false 2147483648 table
     = (Reject (DatabaseError "Failed to delete expense"), table).
Proof.
  cbv zeta.
  set (table := [ mkCost 1 SALARIES 5000000 1 2024 10 10;
                  mkCost 2 SOFTWARE_TOOLS 150050 1 2024 11 11 ]).
  assert (R1 : -2147483648 <= 1 <= 2147483647) by lia.
  assert (R7 : -2147483648 <= 7 <= 2147483647) by lia.
  assert (Hbig : 2147483648 < -2147483648 \/ 2147483647 < 2147483648) by lia.
  assert (H1 : In 1 (map id table)) by (simpl; auto).
  assert (H7 : ~ In 7 (map id table)) by (simpl; intuition discriminate).
  split; [exact H1|].
  split; [exact (proj1 (proj1 (proj1 (deleteExpense_effect 1 table) R1) H1))|].
  split; [exact H7|].
  split; [exact (proj1 (proj2 (proj1 (deleteExpense_effect 7 table) R7) H7))|].
  exact (proj1 (proj2 (deleteExpense_effect 2147483648 table) Hbig)).
Defined.

(** ** The constraints of the table *)

Lemma NoDup_snoc (A : Type) (l : list A) (x : A) :
  NoDup l -> ~ In x l -> NoDup (l ++ [x]).
Proof.
  intros Hl Hx. apply (Permutation_NoDup (l := x :: l)).
  - apply Permutation_cons_append.
  - now constructor.
Qed.

(** X11. The writes of the service keep the constraints of the table:
    if the ids are distinct and the (category, month, year) keys are
    distinct before a [createExpense], an [updateExpense] or a
    [deleteExpense], they are so after it, however the call ends. *)
Theorem service_keeps_constraints table :
  NoDup (map id table) -> NoDup (map unique_key table) ->
  (forall fault nextId now data p table',
     createExpense fault nextId now data table = (p, table') ->
     NoDup (map id table') /\ NoDup (map unique_key table'))
  /\ (forall fault now k new_amount p table',
        updateExpense fault now k new_amount table = (p, table') ->
        NoDup (map id table') /\ NoDup (map unique_key table'))
  /\ (forall fault k p table',
        deleteExpense fault k table = (p, table') ->
        NoDup (map id table') /\ NoDup (map unique_key table')).
Proof.
  intros Hid Hkey. split; [|split].
  - intros fault nextId now data p table'. unfold createExpense, create.
    set (row := mkCost nextId (d_category data) (d_amount data) (d_month data)
                       (d_year data) now now).
    destruct fault; [intros [= _ <-]; auto|].
    destruct (int4 nextId); cbn [negb]; [|intros [= _ <-]; auto].
    destruct (existsb (fun c => id c =? nextId) table) eqn:E1;
      [cbn [orb]; intros [= _ <-]; auto|].
    destruct (existsb (same_period row) table) eqn:E2;
      [cbn [orb]; intros [= _ <-]; auto|].
    cbn [orb]. intros [= _ <-]. rewrite !map_app. cbn [map].
    split; apply NoDup_snoc; auto.
    + intros H. apply existsb_id in H. cbn [id row] in H. congruence.
    + intros H. apply in_map_iff in H as (c & E & Hin).
      assert (same_period row c = true) by now apply ArchiveFacts.same_period_eq.
      assert (existsb (same_period row) table = true)
        by (apply existsb_exists; eauto).
      congruence.
  - intros fault now k new_amount p table'. unfold updateExpense, update.
    destruct fault; [intros [= _ <-]; auto|].
    destruct (int4 k); cbn [negb]; [|intros [= _ <-]; auto].
    destruct (row_of_id k table) as [existing|] eqn:F; [|intros [= _ <-]; auto].
    assert (Hk : In k (map id table)) by (apply row_of_id_In; eauto).
    rewrite (updateExpense_table now k new_amount table Hk).
    intros [= _ <-]. rewrite !map_map.
    rewrite (map_ext _ id), (map_ext _ unique_key); auto;
      intros c; now destruct (id c =? k).
  - intros fault k p table'. unfold deleteExpense, delete.
    destruct fault; [intros [= _ <-]; auto|].
    destruct (int4 k); cbn [negb]; [|intros [= _ <-]; auto].
    destruct (row_of_id k table) as [existing|] eqn:F; [|intros [= _ <-]; auto].
    intros [= _ <-]. split; now apply ArchiveFacts.NoDup_map_filter.
Qed.

Lemma service_keeps_constraints_witness :
  let table := [ mkCost 1 SALARIES 5000000 1 2024 10 10 ] in
  let table' := table ++ [mkCost 2 SOFTWARE_TOOLS 150050 3 2024 20 20] in
  NoDup (map id table) /\ NoDup (map unique_key table)
  /\ snd (createExpense false 2 20 (mkCreate SOFTWARE_TOOLS 150050 3 2024) table)
     = table'
  /\ NoDup (map id table') /\ NoDup (map unique_key table').
Proof.
  cbv zeta.
  set (table := [ mkCost 1 SALARIES 5000000 1 2024 10 10 ]).
  assert (Hid : NoDup (map id table)) by (repeat constructor; simpl; tauto).
  assert (Hkey : NoDup (map unique_key table)) by (repeat constructor; simpl; tauto).
  split; [exact Hid|]. split; [exact Hkey|]. split; [reflexivity|].
  exact (proj1 (service_keeps_constraints table Hid Hkey) false 2 20
           (mkCreate SOFTWARE_TOOLS 150050 3 2024) _ _ eq_refl).
Defined.

(** ** Listing *)

Import ServiceSpec.

Lemma where_selected query c :
  matches (expenses_where query) c = true <-> selected query c.
Proof.
  unfold matches, expenses_where, selected.
  cbn [w_year w_month w_OR w_category].
  destruct (e_year query) as [y|], (e_month query) as [m|],
    (e_category query) as [k|]; cbn; bools;
    rewrite ?ArchiveFacts.category_eqb_eq;
    (split;
     [ intros H; repeat match goal with H' : _ /\ _ |- _ => destruct H' end;
       repeat split; intros ? E; try discriminate E; injection E as <-; auto
     | intros (H1 & H2 & H3);
       try specialize (H1 _ eq_refl); try specialize (H2 _ eq_refl);
       try specialize (H3 _ eq_refl); auto ]).
Qed.

Lemma newest_first_asym x y : newest_first x y = true -> newest_first y x = false.
Proof. unfold newest_first. bools. lia. Qed.

Lemma newest_first_trans x y z :
  newest_first x y = false -> newest_first y z = false -> newest_first x z = false.
Proof. unfold newest_first. bools. lia. Qed.

Lemma newest_first_listed x y :
  newest_first x y = false -> listed_before (toResponse x) (toResponse y).
Proof. unfold newest_first, listed_before. cbn. bools. lia. Qed.

Lemma FOP_skipn (A : Type) (R : A -> A -> Prop) (n : nat) (l : list A) :
  ForallOrdPairs R l -> ForallOrdPairs R (skipn n l).
Proof.
  revert l. induction n as [|n IH]; intros l H; cbn; [exact H|].
  destruct H; [constructor|]. now apply IH.
Qed.

Lemma FOP_firstn (A : Type) (R : A -> A -> Prop) (n : nat) (l : list A) :
  ForallOrdPairs R l -> ForallOrdPairs R (firstn n l).
Proof.
  revert l. induction n as [|n IH]; intros l H; cbn; [constructor|].
  destruct H as [|x l Hx Hl]; constructor.
  - apply Forall_forall. intros y Hy. apply OrderFacts.firstn_sub in Hy.
    now apply (proj1 (Forall_forall _ _) Hx).
  - now apply IH.
Qed.

(** The rows of a query in the order of the listing. *)
Lemma listing_ordered query table :
  ForallOrdPairs listed_before
    (map toResponse (Js.sort newest_first (filter (matches (expenses_where query)) table))).
Proof.
  apply (AggregatorFacts.FOP_map _ _ (fun a b => newest_first a b = false)).
  - intros x y _ _. apply newest_first_listed.
  - apply (OrderFacts.sort_ordered _ newest_first (fun _ => True)).
    + intros x y _ _. apply newest_first_asym.
    + intros x y z _ _ _. apply newest_first_trans.
    + apply Forall_forall. auto.
Qed.

(** The page and the total of a listing. *)
Lemma listing_rows query table :
  getExpenses false query table
  = Resolve
      (map toResponse
         (firstn (nat_or (e_limit query) 50)
            (skipn (nat_or (e_offset query) 0)
               (Js.sort newest_first (filter (matches (expenses_where query)) table)))),
       List.length (filter (matches (expenses_where query)) table)).
Proof. reflexivity. Qed.

Lemma listing_length query table :
  List.length
    (firstn (nat_or (e_limit query) 50)
       (skipn (nat_or (e_offset query) 0)
          (Js.sort newest_first (filter (matches (expenses_where query)) table))))
  = Nat.min (nat_or (e_limit query) 50)
      (List.length (filter (matches (expenses_where query)) table)
       - nat_or (e_offset query) 0).
Proof. now rewrite length_firstn, length_skipn, ListFacts.sort_length. Qed.

(** X12. [getExpenses] resolves with a page and a total: the total is
    the number of rows of the table the query selects, whatever the page;
    the page holds [min limit (total - offset)] responses ([limit] 50 and
    [offset] 0 when absent or 0), each the response of a selected row of
    the table, later periods first and, within a period, in the order of
    the categories. *)
Theorem getExpenses_page query table :
  let limit := nat_or (e_limit query) 50 in
  let offset := nat_or (e_offset query) 0 in
  exists page total,
    getExpenses false query table = Resolve (page, total)
    /\ total = List.length (filter (matches (expenses_where query)) table)
    /\ List.length page = Nat.min limit (total - offset)
    /\ (forall resp, In resp page ->
          exists c, In c table /\ selected query c /\ resp = toResponse c)
    /\ ForallOrdPairs listed_before page.
Proof.
  cbv zeta. eexists. eexists. split; [apply listing_rows|]. split; [reflexivity|].
  split; [|split].
  - rewrite length_map. apply listing_length.
  - intros resp Hr. apply in_map_iff in Hr as (c & <- & Hc).
    apply OrderFacts.firstn_sub, OrderFacts.skipn_sub in Hc.
    apply ListFacts.sort_In in Hc. apply filter_In in Hc as [Hin Hm].
    exists c. split; [exact Hin|]. split; [now apply where_selected|reflexivity].
  - rewrite <- firstn_map, <- skipn_map.
    apply FOP_firstn, FOP_skipn, listing_ordered.
Qed.

(** X13. Pages tile the listing: for a limit of at least 1, the pages
    at the offsets 0, limit, 2*limit, ... (ceil(total/limit) of them), put
    end to end, hold the response of every selected row exactly once, in
    the order of the listing. *)
Theorem getExpenses_pages query table limit :
  (1 <= limit)%nat ->
  e_limit query = Some limit ->
  let total := List.length (filter (matches (expenses_where query)) table) in
  let page i := page_of (getExpenses false (at_offset query (i * limit)) table) in
  let pages := List.concat (map page (seq 0 (ceil_div total limit))) in
  Permutation pages (map toResponse (filter (matches (expenses_where query)) table))
  /\ ForallOrdPairs listed_before pages.
Proof.
  intros Hl El. cbv zeta.
  set (rows := Js.sort newest_first (filter (matches (expenses_where query)) table)).
  assert (Hpage : forall i,
            page_of (getExpenses false (at_offset query (i * limit)) table)
            = map toResponse (chunk limit rows i)).
  { intros i. unfold getExpenses, at_offset, page_of, chunk. cbv zeta.
    cbn [e_limit e_offset e_year e_month e_category expenses_where].
    rewrite El.
    replace (nat_or (Some limit) 50) with limit by (destruct limit; [lia|reflexivity]).
    replace (nat_or (Some (i * limit)%nat) 0) with (i * limit)%nat
      by (now destruct (i * limit)%nat).
    reflexivity. }
  rewrite (map_ext _ _ Hpage).
  rewrite <- map_map, <- concat_map, ListFacts.concat_chunks.
  cbn [skipn Nat.mul].
  rewrite firstn_all2.
  - split; [|apply listing_ordered].
    apply Permutation_map, ListFacts.sort_perm.
  - unfold rows. rewrite ListFacts.sort_length. now apply ListFacts.ceil_div_cover.
Qed.

Lemma getExpenses_pages_witness :
  let table := [ mkCost 1 SALARIES 5000000 1 2024 10 10;
                 mkCost 2 SOFTWARE_TOOLS 150050 1 2024 11 11;
                 mkCost 3 SALARIES 5100000 2 2024 12 12 ] in
  let query := mkExpenseQuery (Some 2024) None None (Some 2%nat) None in
  (1 <= 2)%nat
  /\ map r_id (page_of (getExpenses false (at_offset query 0) table)) = [3; 1]
  /\ map r_id (page_of (getExpenses false (at_offset query 2) table)) = [2]
  /\ Permutation
       (page_of (getExpenses false (at_offset query 0) table)
        ++ page_of (getExpenses false (at_offset query 2) table) ++ [])
       (map toResponse table).
Proof.
  cbv zeta.
  set (table := [ mkCost 1 SALARIES 5000000 1 2024 10 10;
                  mkCost 2 SOFTWARE_TOOLS 150050 1 2024 11 11;
                  mkCost 3 SALARIES 5100000 2 2024 12 12 ]).
  set (query := mkExpenseQuery (Some 2024) None None (Some 2%nat) None).
  assert (Hl : (1 <= 2)%nat) by lia.
  split; [exact Hl|]. split; [reflexivity|]. split; [reflexivity|].
  exact (proj1 (getExpenses_pages query table 2 Hl eq_refl)).
Defined.

(** X14. [expenseExists] and [getExpenses] agree: [expenseExists]
    answers true for a (category, month, year) exactly when the listing
    for that year, month and category has a total above 0; and over a
    table that keeps UNIQUE(category, month, year) that total is at
    most 1. *)
Theorem exists_iff_listed category0 month0 year0 limit offset table :
  let query := mkExpenseQuery (Some year0) (Some month0) (Some category0) limit offset in
  exists page total,
    getExpenses false query table = Resolve (page, total)
    /\ (expenseExists false category0 month0 year0 table = Resolve true
        <-> (0 < total)%nat)
    /\ (NoDup (map unique_key table) -> (total <= 1)%nat).
Proof.
  cbv zeta.
  set (query := mkExpenseQuery (Some year0) (Some month0) (Some category0) limit offset).
  pose proof (listing_rows query table) as G.
  set (page := map toResponse _) in G.
  set (total := List.length (filter (matches (expenses_where query)) table)) in G.
  assert (Ht : total = List.length (filter (matches (expenses_where query)) table))
    by reflexivity.
  clearbody total.
  exists page, total. split; [exact G|].
  assert (Hsel : forall c, matches (expenses_where query) c = true
                           <-> unique_key c = (category0, month0, year0)).
  { intros c. rewrite where_selected. unfold selected, unique_key. cbn. split.
    - intros (Hy & Hm & Hc). now rewrite (Hy _ eq_refl), (Hm _ eq_refl), (Hc _ eq_refl).
    - intros [= <- <- <-]. repeat split; intros ? [= <-]; reflexivity. }
  split.
  - unfold expenseExists.
    assert (Hex : (exists c, findFirst category0 month0 year0 table = Some c)
                  <-> (0 < total)%nat).
    { rewrite findFirst_key, in_map_iff, Ht. split.
      - intros (c & E & Hin).
        assert (Hc : In c (filter (matches (expenses_where query)) table))
          by (apply filter_In; split; [exact Hin|now apply Hsel]).
        destruct (filter _ table); [destruct Hc|cbn; lia].
      - destruct (filter _ table) as [|c l] eqn:F; cbn; [lia|]. intros _.
        assert (Hc : In c (filter (matches (expenses_where query)) table))
          by (rewrite F; now left).
        apply filter_In in Hc as [Hin Hm]. exists c. split; [now apply Hsel|exact Hin]. }
    destruct (findFirst category0 month0 year0 table) as [c|].
    + split; [intros _; apply Hex; eauto|reflexivity].
    + split; [discriminate|]. intros H. apply Hex in H as [c H]. discriminate H.
  - intros Hnd. rewrite Ht.
    pose proof (ArchiveFacts.NoDup_map_filter _ _ unique_key
                  (matches (expenses_where query)) table Hnd) as Hf.
    destruct (filter _ table) as [|c1 [|c2 l]] eqn:F; cbn; try lia.
    exfalso. cbn [map] in Hf. inversion Hf as [|? ? Hx _]; subst. apply Hx. left.
    assert (H1 : In c1 (filter (matches (expenses_where query)) table))
      by (rewrite F; now left).
    assert (H2 : In c2 (filter (matches (expenses_where query)) table))
      by (rewrite F; right; now left).
    apply filter_In in H1 as [_ H1]. apply filter_In in H2 as [_ H2].
    apply Hsel in H1. apply Hsel in H2. congruence.
Qed.

(** ** The controller *)

Import QueryValidation.

Lemma at_least_accepted k lo v n : at_least k lo v = Accepted n -> n = v /\ lo <= v.
Proof.
  unfold at_least. destruct (v <? lo) eqn:E; [discriminate|].
  intros [= <-]. apply Z.ltb_ge in E. auto.
Qed.

Lemma at_most_accepted k hi v n : at_most k hi v = Accepted n -> n = v /\ v <= hi.
Proof.
  unfold at_most. destruct (hi <? v) eqn:E; [discriminate|].
  intros [= <-]. apply Z.ltb_ge in E. auto.
Qed.

Lemma safe_number_accepted k v n :
  safe_number k v = Accepted n -> n = v /\ - MAX_SAFE_INTEGER <= v <= MAX_SAFE_INTEGER.
Proof.
  unfold safe_number.
  destruct ((v <? - MAX_SAFE_INTEGER) || (MAX_SAFE_INTEGER <? v)) eqn:E; [discriminate|].
  intros [= <-]. bools. lia.
Qed.

(** What a validated query holds. *)
Lemma expenseQuerySchema_accepted raw query :
  expenseQuerySchema raw = Accepted query ->
  e_year query = x_year raw
  /\ e_month query = x_month raw
  /\ e_category query = x_category raw
  /\ (exists limit, e_limit query = Some (Z.to_nat limit)
        /\ limit = match x_limit raw with Some l => l | None => 50 end
        /\ 1 <= limit <= 100)
  /\ (exists offset, e_offset query = Some (Z.to_nat offset)
        /\ offset = match x_offset raw with Some o => o | None => 0 end
        /\ 0 <= offset <= MAX_SAFE_INTEGER).
Proof.
  unfold expenseQuerySchema.
  destruct (optional_number _ _ (x_year raw)) as [year|] eqn:Ey; [|discriminate].
  destruct (optional_number _ _ (x_month raw)) as [month|] eqn:Em; [|discriminate].
  destruct (default_number _ 50 _ (x_limit raw)) as [limit|] eqn:El; [|discriminate].
  destruct (default_number _ 0 _ (x_offset raw)) as [offset|] eqn:Eo; [|discriminate].
  cbn [and_then]. intros [= <-]. cbn.
  assert (Hopt : forall k rule v o, optional_number k rule v = Accepted o ->
                   (forall n m, rule n = Accepted m -> m = n) -> o = v).
  { intros k rule [n|] o; cbn; [|now intros [= <-]].
    destruct (safe_number k n) as [n'|] eqn:S; [|discriminate].
    apply safe_number_accepted in S as [-> _]. cbn.
    destruct (rule n) as [m|] eqn:R; [|discriminate].
    cbn. intros [= <-] H. f_equal. now apply H. }
  assert (Hrule : forall k lo hi n m,
            and_then (at_least k lo n) (at_most k hi) = Accepted m ->
            m = n /\ lo <= n <= hi).
  { intros k lo hi n m. destruct (at_least k lo n) as [n'|] eqn:E1; [|discriminate].
    cbn. intros E2. apply at_least_accepted in E1 as [-> H1].
    apply at_most_accepted in E2 as [-> H2]. auto. }
  split; [|split; [|split; [reflexivity|split]]].
  - apply (Hopt _ _ _ _ Ey). intros n m H. now apply Hrule in H.
  - apply (Hopt _ _ _ _ Em). intros n m H. now apply Hrule in H.
  - exists limit. split; [reflexivity|].
    destruct (x_limit raw) as [l|]; cbn [default_number] in El.
    + destruct (safe_number k_limit l) as [l'|] eqn:S; [|discriminate].
      apply safe_number_accepted in S as [-> _]. cbn [and_then] in El.
      apply Hrule in El as [-> H]. auto.
    + injection El as <-. split; [reflexivity|lia].
  - exists offset. split; [reflexivity|].
    destruct (x_offset raw) as [o|]; cbn [default_number] in Eo.
    + destruct (safe_number k_offset o) as [o'|] eqn:S; [|discriminate].
      apply safe_number_accepted in S as [-> Hs]. cbn [and_then] in Eo.
      apply at_least_accepted in Eo as [-> H]. split; [reflexivity|lia].
    + injection Eo as <-. split; [reflexivity|unfold MAX_SAFE_INTEGER; lia].
Qed.

(** X15. The listing endpoint.  A query validation rejects is answered
    with ValidationError (status 422) whatever the database does, and a
    query whose offset is negative or beyond the safe integers (above
    2^53 - 1) is always one.  For a query validation lets through, the
    body's [pagination] has the limit of the request (50 when absent),
    between 1 and 100, and its offset (0 when absent), a safe integer;
    [data] holds at most [limit] responses; [total] counts the selected
    rows; and [hasMore] is true exactly when [offset + limit < total]. *)
Theorem getExpenses_pagination now raw table :
  (forall error, expenseQuerySchema raw = Rejected error ->
     forall fault,
       ExpenseController.getExpenses fault now raw table = Reject (ValidationError error)
       /\ statusCode (ValidationError error) = 422)
  /\ (forall offset, x_offset raw = Some offset ->
        offset < 0 \/ MAX_SAFE_INTEGER < offset ->
        exists error, expenseQuerySchema raw = Rejected error)
  /\ (forall query, expenseQuerySchema raw = Accepted query ->
        exists body,
          ExpenseController.getExpenses false now raw table = Resolve body
          /\ Z.of_nat (ExpenseController.p_limit (ExpenseController.pagination body))
             = match x_limit raw with Some l => l | None => 50 end
          /\ (1 <= ExpenseController.p_limit (ExpenseController.pagination body) <= 100)%nat
          /\ Z.of_nat (ExpenseController.p_offset (ExpenseController.pagination body))
             = match x_offset raw with Some o => o | None => 0 end
          /\ Z.of_nat (ExpenseController.p_offset (ExpenseController.pagination body))
             <= MAX_SAFE_INTEGER
          /\ (List.length (ExpenseController.p_data body)
              <= ExpenseController.p_limit (ExpenseController.pagination body))%nat
          /\ ExpenseController.p_total (ExpenseController.pagination body)
             = List.length (filter (matches (expenses_where query)) table)
          /\ (ExpenseController.hasMore (ExpenseController.pagination body) = true
              <-> (ExpenseController.p_offset (ExpenseController.pagination body)
                   + ExpenseController.p_limit (ExpenseController.pagination body)
                   < ExpenseController.p_total (ExpenseController.pagination body))%nat)).
Proof.
  split; [|split].
  - intros error E fault. unfold ExpenseController.getExpenses. now rewrite E.
  - intros offset Eo Hbad.
    destruct (expenseQuerySchema raw) as [query|error] eqn:E; [|eauto].
    exfalso.
    destruct (expenseQuerySchema_accepted raw query E)
      as (_ & _ & _ & _ & (offset' & _ & Ho & Hoff)).
    rewrite Eo in Ho. lia.
  - intros query E.
    destruct (expenseQuerySchema_accepted raw query E)
      as (_ & _ & _ & (limit & El & Hl & Hlim) & (offset & Eo & Ho & Hoff)).
    pose proof (listing_rows query table) as G.
    pose proof (listing_length query table) as Hlen.
    set (rows := firstn _ _) in G, Hlen.
    set (total := List.length (filter (matches (expenses_where query)) table)) in G, Hlen.
    assert (Ht : total = List.length (filter (matches (expenses_where query)) table))
      by reflexivity.
    clearbody total rows.
    unfold ExpenseController.getExpenses. rewrite E, G.
    rewrite length_map.
    eexists. split; [reflexivity|].
    cbn [ExpenseController.pagination ExpenseController.p_limit
         ExpenseController.p_offset ExpenseController.p_total
         ExpenseController.p_data ExpenseController.hasMore].
    rewrite ?length_map.
    assert (Nl : nat_or (e_limit query) 50 = Z.to_nat limit).
    { rewrite El. cbn. destruct (Z.to_nat limit) eqn:Z; [lia|reflexivity]. }
    assert (No : nat_or (e_offset query) 0 = Z.to_nat offset).
    { rewrite Eo. cbn. now destruct (Z.to_nat offset). }
    rewrite Nl, No in *.
    split; [rewrite Z2Nat.id by lia; exact Hl|].
    split; [lia|].
    split; [rewrite Z2Nat.id by lia; exact Ho|].
    split; [rewrite Z2Nat.id by lia; lia|].
    split; [lia|]. split; [exact Ht|].
    rewrite Nat.ltb_lt. lia.
Qed.

Lemma getExpenses_pagination_witness :
  let table := [ mkCost 1 SALARIES 5000000 1 2024 10 10;
                 mkCost 2 SOFTWARE_TOOLS 150050 1 2024 11 11;
                 mkCost 3 SALARIES 5100000 2 2024 12 12 ] in
  let raw := mkRawExpenseQuery (Some 2024) None None (Some 2) None in
  expenseQuerySchema raw
  = Accepted (mkExpenseQuery (Some 2024) None None (Some 2%nat) (Some 0%nat))
  /\ exists body,
       ExpenseController.getExpenses false 50 raw table = Resolve body
       /\ ExpenseController.p_total (ExpenseController.pagination body) = 3%nat
       /\ ExpenseController.hasMore (ExpenseController.pagination body) = true
       /\ expenseQuerySchema (mkRawExpenseQuery None None None (Some 101) None)
          = Rejected (above_max k_limit)
       /\ ExpenseController.getExpenses false 50
            (mkRawExpenseQuery None None None None (Some 9007199254740992)) table
          = Reject (ValidationError (unsafe_number k_offset)).
Proof.
  cbv zeta.
  set (table := [ mkCost 1 SALARIES 5000000 1 2024 10 10;
                  mkCost 2 SOFTWARE_TOOLS 150050 1 2024 11 11;
                  mkCost 3 SALARIES 5100000 2 2024 12 12 ]).
  set (raw := mkRawExpenseQuery (Some 2024) None None (Some 2) None).
  assert (V : expenseQuerySchema raw
              = Accepted (mkExpenseQuery (Some 2024) None None (Some 2%nat) (Some 0%nat)))
    by reflexivity.
  split; [exact V|].
  destruct (proj2 (proj2 (getExpenses_pagination 50 raw table)) _ V)
    as (body & B & _ & _ & _ & _ & _ & Ht & Hm).
  exists body. split; [exact B|]. split; [exact Ht|].
  split; [|split; [reflexivity|]].
  - apply Hm. rewrite Ht.
    unfold ExpenseController.getExpenses in B. rewrite V in B.
    injection B as <-. cbn. lia.
  - exact (proj1 (proj1 (getExpenses_pagination 50
              (mkRawExpenseQuery None None None None (Some 9007199254740992)) table)
              (unsafe_number k_offset) eq_refl false)).
Defined.

End ExpenseServiceFacts.

(* ===================================================================== *)
(** * Further properties of archival *)
(* ===================================================================== *)

Module ArchiveRunFacts.
Import Archive Lists ArchiveSpec ListFacts.
Local Open Scope nat_scope.
Local Arguments archiveBatch : simpl never.
Local Arguments findMany : simpl never.

(** One batch write: it throws or returns, never touches the live table,
    and never removes an archived row. *)
Lemma archiveBatch_any fault now records w table out w1 :
  costs_archive w = Some table ->
  archiveBatch fault now records w = (out, w1) ->
  out <> OutOfFuel
  /\ costs w1 = costs w
  /\ debug_log w1 = debug_log w
  /\ exists table1, costs_archive w1 = Some table1
                    /\ forall a, In a table -> In a table1.
Proof.
  intros Ht. unfold archiveBatch. destruct records as [|r records].
  - intros [= <- <-]. repeat split; [discriminate|eauto].
  - destruct fault; [intros [= <- <-]; repeat split; [discriminate|eauto]|].
    rewrite Ht. intros [= <- <-]. cbn [costs costs_archive debug_log].
    repeat split; [discriminate|].
    eexists. split; [reflexivity|]. intros a.
    exact (ArchiveFacts.insert_rows_keeps (map (archive_row now) (r :: records)) table a).
Qed.

(** The loop, whatever the batch size, the fuel and the faults. *)
Lemma archive_loop_any faults now cutoff b n : forall fuel i offset archived w table out w1,
  costs_archive w = Some table ->
  archive_loop fuel faults now cutoff b n i offset archived w = (out, w1) ->
  costs w1 = costs w
  /\ exists table1, costs_archive w1 = Some table1
                    /\ forall a, In a table -> In a table1.
Proof.
  induction fuel as [|fuel IH]; intros i offset archived w table out w1 Ht;
    cbn [archive_loop].
  - destruct (offset <? n); intros [= <- <-]; eauto.
  - destruct (offset <? n); [|intros [= <- <-]; eauto].
    destruct (findMany cutoff b offset (costs w)) as [|r batch] eqn:F;
      [intros [= <- <-]; eauto|].
    destruct (archiveBatch (faults i) now (r :: batch) w) as [o w0] eqn:B.
    destruct (archiveBatch_any _ _ _ _ _ _ _ Ht B) as (_ & Hc & Hl & table0 & Ht0 & Hk).
    destruct o; [|intros [= <- <-]; eauto|intros [= <- <-]; eauto].
    intros L.
    apply (IH _ _ _ _ table0) in L; [|exact Ht0].
    destruct L as (Hc1 & table1 & Ht1 & Hk1). cbn [costs log_batch] in Hc1.
    split; [congruence|]. exists table1. split; [exact Ht1|auto].
Qed.

Lemma archive_batches_total faults now bs : forall i archived w table out w1,
  costs_archive w = Some table ->
  archive_batches faults now bs i archived w = (out, w1) ->
  out <> OutOfFuel.
Proof.
  induction bs as [|batch bs IH]; intros i archived w table out w1 Ht;
    cbn [archive_batches]; [intros [= <- <-]; discriminate|].
  destruct batch as [|r batch]; [intros [= <- <-]; discriminate|].
  destruct (archiveBatch (faults i) now (r :: batch) w) as [o w0] eqn:B.
  destruct (archiveBatch_any _ _ _ _ _ _ _ Ht B) as (Ho & _ & _ & table0 & Ht0 & _).
  destruct o; [|intros [= <- <-]; discriminate|congruence].
  apply (IH _ _ _ table0). exact Ht0.
Qed.

(** ** What a run writes *)

Lemma insert_rows_sub rows : forall table a,
  In a (insert_rows table rows) -> In a table \/ In a rows.
Proof.
  induction rows as [|row rows IH]; intros table a; cbn [insert_rows fold_left];
    [now left|].
  intros H. apply IH in H as [H|H]; [|right; now right].
  unfold insert_row in H. destruct (existsb _ table); [now left|].
  apply in_app_or in H as [H|[<-|[]]]; [now left|right; now left].
Qed.

Lemma findMany_sub cutoff take skip table r :
  In r (findMany cutoff take skip table) -> In r table /\ older cutoff r = true.
Proof.
  unfold findMany, by_createdAt. intros H.
  apply OrderFacts.firstn_sub, OrderFacts.skipn_sub in H.
  apply ListFacts.sort_In in H. now apply filter_In in H.
Qed.

Lemma archive_loop_copies faults now cutoff b n : forall fuel i offset archived w table out w1,
  costs_archive w = Some table ->
  archive_loop fuel faults now cutoff b n i offset archived w = (out, w1) ->
  forall a, In a (table_of w1) ->
    In a table
    \/ exists r, In r (costs w) /\ older cutoff r = true /\ a = archive_row now r.
Proof.
  induction fuel as [|fuel IH]; intros i offset archived w table out w1 Ht;
    cbn [archive_loop].
  - destruct (offset <? n); intros [= <- <-] a; unfold table_of; rewrite Ht; auto.
  - destruct (offset <? n);
      [|intros [= <- <-] a; unfold table_of; rewrite Ht; auto].
    destruct (findMany cutoff b offset (costs w)) as [|r batch] eqn:F;
      [intros [= <- <-] a; unfold table_of; rewrite Ht; auto|].
    unfold archiveBatch. destruct (faults i);
      [intros [= <- <-] a; unfold table_of; rewrite Ht; auto|].
    rewrite Ht. intros L a Ha.
    apply (fun H => IH _ _ _ _
                       (insert_rows table (map (archive_row now) (r :: batch)))
                       _ _ H L) in Ha; [|reflexivity].
    cbn [costs log_batch] in Ha.
    destruct Ha as [Ha|Ha]; [|now right].
    apply insert_rows_sub in Ha as [Ha|Ha]; [now left|right].
    apply in_map_iff in Ha as (r' & <- & Hr'). exists r'.
    rewrite <- F in Hr'. apply findMany_sub in Hr' as [H1 H2]. auto.
Qed.

Section Runs.
Variable years_before : Z -> Z -> Z.

(** A run that ends in any way. *)
Lemma archive_run_any faults now config w out w' :
  let cutoff := years_before now (retentionYears (merge config)) in
  archiveOldData years_before faults now config w = (out, w') ->
  (exists table', costs_archive w' = Some table'
                  /\ forall a, In a (table_of w) -> In a table')
  /\ ((exists e, out = Throw e) -> costs w' = costs w)
  /\ ((exists res, out = Return res) ->
      costs w' = costs w
      \/ costs w' = filter (fun c => negb (older cutoff c)) (costs w)).
Proof.
  cbv zeta. unfold archiveOldData. cbv zeta.
  destruct (ArchiveFacts.ensure_table w) as (Ht & Hc & Hl).
  set (w0 := ensureArchiveTableExists w) in *.
  set (cutoff := years_before now (retentionYears (merge config))).
  destruct (count cutoff (costs w0) =? 0).
  - intros [= <- <-]. split; [eauto|]. split; [auto|]. intros _. now left.
  - destruct (archive_loop _ faults now cutoff _ _ 0 0 0 w0) as [o w1] eqn:L.
    destruct (archive_loop_any _ _ _ _ _ _ _ _ _ _ _ _ _ Ht L) as (Hc1 & table1 & Ht1 & Hk).
    destruct o.
    + unfold deleteMany. intros [= <- <-]. cbn [costs costs_archive].
      split; [eauto|]. split; [intros [e [=]]|]. intros _. right.
      now rewrite Hc1, Hc.
    + intros [= <- <-]. split; [eauto|]. split; [intros _; congruence|].
      intros [res [=]].
    + intros [= <- <-]. split; [eauto|]. split; [intros [e [=]]|intros [res [=]]].
Qed.

(** The run never runs out of fuel. *)
Lemma archive_run_total faults now config w :
  fst (archiveOldData years_before faults now config w) <> OutOfFuel.
Proof.
  unfold archiveOldData. cbv zeta.
  destruct (ArchiveFacts.ensure_table w) as (Ht & Hc & Hl).
  set (w0 := ensureArchiveTableExists w) in *.
  set (cutoff := years_before now (retentionYears (merge config))).
  destruct (count cutoff (costs w0) =? 0) eqn:E; [discriminate|].
  apply Nat.eqb_neq in E.
  destruct (batchSize (merge config)) as [|b] eqn:Eb.
  - destruct (count cutoff (costs w0)) as [|n]; [congruence|].
    cbn [archive_loop Nat.ltb Nat.leb]. unfold findMany. cbn [firstn].
    unfold deleteMany. discriminate.
  - rewrite (ArchiveFacts.archive_loop_fuel faults now cutoff (S b) (costs w0) w0)
      by (auto; lia).
    destruct (archive_batches _ _ _ 0 0 w0) as [o w1] eqn:B.
    pose proof (archive_batches_total _ _ _ _ _ _ _ _ _ Ht B) as Ho.
    destruct o; [unfold deleteMany; discriminate|discriminate|congruence].
Qed.


(** X17. What a run of [archiveOldData] writes: however it ends, every
    row of the archive afterwards either was there before or is the copy of
    a live record created before the cutoff (the record's id, category,
    amount, month, year and two timestamps) with the time of the run as
    [archived_at]. *)
Theorem archive_writes_copies faults now config w :
  let cutoff := years_before now (retentionYears (merge config)) in
  let w' := snd (archiveOldData years_before faults now config w) in
  forall a, In a (table_of w') ->
    In a (table_of w)
    \/ exists r,
         In r (costs w) /\ (createdAt r < cutoff)%Z
         /\ a = mkArchived (id r) (category r) (amount r) (month r) (year r)
                           (createdAt r) (updatedAt r) now.
Proof.
  cbv zeta. unfold archiveOldData. cbv zeta.
  destruct (ArchiveFacts.ensure_table w) as (Ht & Hc & Hl).
  set (w0 := ensureArchiveTableExists w) in *.
  set (cutoff := years_before now (retentionYears (merge config))).
  assert (Hw0 : table_of w0 = table_of w) by (unfold table_of at 1; now rewrite Ht).
  destruct (count cutoff (costs w0) =? 0); [cbn [snd]; rewrite Hw0; auto|].
  destruct (archive_loop _ faults now cutoff _ _ 0 0 0 w0) as [o w1] eqn:L.
  pose proof (archive_loop_copies _ _ _ _ _ _ _ _ _ _ _ _ _ Ht L) as Hcopies.
  assert (Hfin : forall a, In a (table_of w1) ->
            In a (table_of w)
            \/ exists r, In r (costs w) /\ (createdAt r < cutoff)%Z
                         /\ a = mkArchived (id r) (category r) (amount r) (month r)
                                           (year r) (createdAt r) (updatedAt r) now).
  { intros a Ha. apply Hcopies in Ha as [Ha|(r & Hr & Hold & ->)]; [now left|right].
    exists r. rewrite Hc in Hr. unfold older in Hold. apply Z.ltb_lt in Hold. auto. }
  destruct o; [unfold deleteMany|..]; cbn [snd]; auto.
Qed.

(** X18. With a batch size of 0 the loop reads an empty first batch and
    stops, and the bulk delete still runs: a run over [n > 0] qualifying
    records returns [archivedCount = 0] and [deletedCount = n], writes no
    row to the archive, and removes the [n] records from the live table. *)
Theorem archive_batch_size_zero faults now config w :
  let cutoff := years_before now (retentionYears (merge config)) in
  let n := count cutoff (costs w) in
  batchSize (merge config) = 0 -> n <> 0 ->
  archiveOldData years_before faults now config w
  = (Return (mkResult 0 n cutoff),
     mkWorld (filter (fun c => negb (older cutoff c)) (costs w))
             (Some (table_of w)) (debug_log w)).
Proof.
  cbv zeta. intros Hb Hn. unfold archiveOldData. cbv zeta.
  destruct (ArchiveFacts.ensure_table w) as (Ht & Hc & Hl).
  rewrite Hc, Hb. rewrite (proj2 (Nat.eqb_neq _ _) Hn).
  destruct (count _ (costs w)) as [|n] eqn:E; [congruence|].
  cbn [archive_loop Nat.ltb Nat.leb]. unfold findMany. cbn [firstn].
  unfold deleteMany. now rewrite Hc, Ht, Hl, E.
Qed.


End Runs.

Lemma archive_batch_size_zero_witness :
  let config := mkPartial None (Some 0) in
  batchSize (merge config) = 0
  /\ count (years_back 100 10) (costs fresh_db) <> 0
  /\ archiveOldData years_back no_fault 100 config fresh_db
     = (Return (mkResult 0 5 90),
        mkWorld [mkCost 6 SOFTWARE_TOOLS 700 6 2020 95 95] (Some []) []).
Proof.
  cbv zeta.
  assert (Hb : batchSize (merge (mkPartial None (Some 0))) = 0) by reflexivity.
  assert (Hn : count (years_back 100 (retentionYears (merge (mkPartial None (Some 0)))))
                 (costs fresh_db) <> 0) by (vm_compute; discriminate).
  split; [exact Hb|]. split; [exact Hn|].
  exact (archive_batch_size_zero years_back no_fault 100 (mkPartial None (Some 0))
           fresh_db Hb Hn).
Defined.


Lemma archive_writes_copies_witness :
  let a := mkArchived 1 SALARIES 100 1 2020 1 1 100 in
  In a (table_of (snd (archiveOldData years_back no_fault 100 batch_of_2 fresh_db)))
  /\ (In a (table_of fresh_db)
      \/ exists r,
           In r (costs fresh_db) /\ (createdAt r < 90)%Z
           /\ a = mkArchived (id r) (category r) (amount r) (month r) (year r)
                             (createdAt r) (updatedAt r) 100).
Proof.
  cbv zeta.
  assert (H : In (mkArchived 1 SALARIES 100 1 2020 1 1 100)
                (table_of (snd (archiveOldData years_back no_fault 100 batch_of_2
                                  fresh_db))))
    by (vm_compute; auto).
  split; [exact H|].
  exact (archive_writes_copies years_back no_fault 100 batch_of_2 fresh_db _ H).
Defined.

End ArchiveRunFacts.

(* ===================================================================== *)
(** * Properties of archive upkeep and of restoring *)
(* ===================================================================== *)

Module ArchiveUpkeepFacts.
Import Archive Lists ArchiveSpec ListFacts ArchiveUpkeep.

(** ** Statistics *)

Lemma fold_min_le l : forall d,
  fold_left Z.min l d <= d /\ forall x, In x l -> fold_left Z.min l d <= x.
Proof.
  induction l as [|y l IH]; intros d; cbn [fold_left]; [split; [lia|intros x []]|].
  destruct (IH (Z.min d y)) as [H1 H2]. split; [lia|].
  intros x [<-|Hx]; [lia|auto].
Qed.

Lemma fold_min_In l : forall d, fold_left Z.min l d = d \/ In (fold_left Z.min l d) l.
Proof.
  induction l as [|y l IH]; intros d; cbn [fold_left]; [now left|].
  destruct (IH (Z.min d y)) as [H|H]; [|right; now right].
  rewrite H. destruct (Z.min_spec d y) as [[_ ->]|[_ ->]]; [now left|right; now left].
Qed.

Lemma fold_max_ge l : forall d,
  d <= fold_left Z.max l d /\ forall x, In x l -> x <= fold_left Z.max l d.
Proof.
  induction l as [|y l IH]; intros d; cbn [fold_left]; [split; [lia|intros x []]|].
  destruct (IH (Z.max d y)) as [H1 H2]. split; [lia|].
  intros x [<-|Hx]; [lia|auto].
Qed.

Lemma fold_max_In l : forall d, fold_left Z.max l d = d \/ In (fold_left Z.max l d) l.
Proof.
  induction l as [|y l IH]; intros d; cbn [fold_left]; [now left|].
  destruct (IH (Z.max d y)) as [H|H]; [|right; now right].
  rewrite H. destruct (Z.max_spec d y) as [[_ ->]|[_ ->]]; [right; now left|now left].
Qed.

Lemma min_date_spec dates lo :
  min_date dates = Some lo -> In lo dates /\ forall d, In d dates -> lo <= d.
Proof.
  destruct dates as [|d0 rest]; [discriminate|]. cbn [min_date]. intros [= <-].
  destruct (fold_min_le rest d0) as [H1 H2]. split.
  - destruct (fold_min_In rest d0) as [-> |H]; [now left|now right].
  - intros d [<-|Hd]; auto.
Qed.

Lemma max_date_spec dates hi :
  max_date dates = Some hi -> In hi dates /\ forall d, In d dates -> d <= hi.
Proof.
  destruct dates as [|d0 rest]; [discriminate|]. cbn [max_date]. intros [= <-].
  destruct (fold_max_ge rest d0) as [H1 H2]. split.
  - destruct (fold_max_In rest d0) as [-> |H]; [now left|now right].
  - intros d [<-|Hd]; auto.
Qed.

Lemma count_or_0_parse n : 0 <= n -> Js.parseInt (count_or_0 n) = Some n.
Proof.
  intros Hn. unfold count_or_0. destruct (n =? 0) eqn:E.
  - apply Z.eqb_eq in E. now subst n.
  - now apply JsFacts.parseInt_String_of.
Qed.

Section Database.
Variable pg_size_pretty : list ArchivedCost -> string.

(** The count of the statistics is the number of rows. *)
Lemma stats_total w table :
  costs_archive w = Some table ->
  totalArchivedRecords (getArchiveStats pg_size_pretty w)
  = Some (Z.of_nat (List.length table)).
Proof.
  unfold getArchiveStats. intros ->. cbn [totalArchivedRecords].
  apply count_or_0_parse. lia.
Qed.

(** X20. [getArchiveStats]: while the archive table does not exist it
    answers 0 records, no oldest and no newest record and the size [0 MB].
    Once it exists, [totalArchivedRecords] is the number of its rows;
    [oldestRecord] and [newestRecord] are the [created_at] of rows of the
    table, no row being older than the one nor newer than the other, and
    both are [null] exactly when the table is empty. *)
Theorem archive_stats w :
  (costs_archive w = None ->
   getArchiveStats pg_size_pretty w = mkStats (Some 0) None None "0 MB")
  /\ (forall table, costs_archive w = Some table ->
        let stats := getArchiveStats pg_size_pretty w in
        totalArchivedRecords stats = Some (Z.of_nat (List.length table))
        /\ (table = [] <-> oldestRecord stats = None)
        /\ (table = [] <-> newestRecord stats = None)
        /\ (forall lo, oldestRecord stats = Some lo ->
              (exists r, In r table /\ created_at r = lo)
              /\ forall r, In r table -> lo <= created_at r)
        /\ (forall hi, newestRecord stats = Some hi ->
              (exists r, In r table /\ created_at r = hi)
              /\ forall r, In r table -> created_at r <= hi)).
Proof.
  split; [unfold getArchiveStats; now intros ->|].
  intros table Ht. cbv zeta. split; [now apply stats_total|].
  unfold getArchiveStats. rewrite Ht.
  cbn [oldestRecord newestRecord].
  split; [destruct table; cbn; split; congruence|].
  split; [destruct table; cbn; split; congruence|].
  split.
  - intros lo H. apply min_date_spec in H as [Hin Hle]. split.
    + apply in_map_iff in Hin as (r & E & Hr). eauto.
    + intros r Hr. apply Hle. now apply in_map.
  - intros hi H. apply max_date_spec in H as [Hin Hle]. split.
    + apply in_map_iff in Hin as (r & E & Hr). eauto.
    + intros r Hr. apply Hle. now apply in_map.
Qed.


Section Runs.
Variable years_before : Z -> Z -> Z.

(** X21. After a run of [archiveOldData] (batch size at least 1, every
    batch write succeeding) over a live table with distinct ids none of
    which is in the archive yet, [getArchiveStats] counts the rows the
    archive held before plus the run's [archivedCount]: on a new or empty
    archive, the two numbers agree. *)
Theorem stats_after_archive faults now config w :
  let cutoff := years_before now (retentionYears (merge config)) in
  let b := batchSize (merge config) in
  (1 <= b)%nat ->
  (forall j, (j < ceil_div (count cutoff (costs w)) b)%nat -> faults j = false) ->
  NoDup (map id (costs w)) ->
  (forall r a, In r (costs w) -> older cutoff r = true -> In a (table_of w) ->
               a_id a <> id r) ->
  exists res w',
    archiveOldData years_before faults now config w = (Return res, w')
    /\ totalArchivedRecords (getArchiveStats pg_size_pretty w')
       = Some (Z.of_nat (List.length (table_of w)) + Z.of_nat (archivedCount res)).
Proof.
  cbv zeta. intros Hb Hf Hid Hfresh.
  set (cutoff := years_before now (retentionYears (merge config))) in *.
  destruct (Nat.eq_dec (count cutoff (costs w)) 0) as [E|E].
  - rewrite (ArchiveFacts.archive_run_nothing years_before faults now config w E).
    eexists. eexists. split; [reflexivity|].
    destruct (ArchiveFacts.ensure_table w) as (Ht & _).
    rewrite (stats_total _ _ Ht). cbn [archivedCount]. f_equal. lia.
  - pose proof (ArchiveFacts.archive_run_ok years_before faults now config w Hb Hf E) as Ok.
    cbv zeta in Ok. fold cutoff in Ok. rewrite Ok.
    eexists. eexists. split; [reflexivity|].
    match goal with
    | |- totalArchivedRecords (getArchiveStats _ ?w1) = _ =>
        rewrite (stats_total w1 _ eq_refl)
    end.
    cbn [archivedCount]. f_equal.
    rewrite ArchiveFacts.archived_after_insert,
      (ArchiveFacts.concat_batches _ _ _ Hb).
    rewrite ArchiveFacts.insert_rows_fresh.
    + rewrite length_app, length_map, <- ArchiveFacts.count_qualifying. lia.
    + rewrite map_map. cbn [archive_row a_id].
      apply (Permutation_NoDup
               (l := map id (filter (older cutoff) (costs w)))).
      * apply Permutation_map, Permutation_sym. apply ListFacts.sort_perm.
      * now apply ArchiveFacts.NoDup_map_filter.
    + intros row a Hrow Ha. apply in_map_iff in Hrow as (r & <- & Hr).
      apply ArchiveFacts.qualifying_In in Hr as [Hr Hold].
      cbn [archive_row a_id]. now apply Hfresh.
Qed.

End Runs.
End Database.

(** Two archived rows, created at 5 and at 3. *)
Example archive_stats_example :
  getArchiveStats (fun _ => "16 kB"%string)
    (mkWorld [] (Some [ mkArchived 1 SALARIES 100 1 2020 5 5 50;
                        mkArchived 2 SALARIES 200 2 2020 3 3 50 ]) [])
  = mkStats (Some 2) (Some 3) (Some 5) "16 kB".
Proof. reflexivity. Qed.

Lemma stats_after_archive_witness :
  (1 <= batchSize (merge batch_of_2))%nat
  /\ NoDup (map id (costs fresh_db))
  /\ exists w',
       archiveOldData years_back no_fault 100 batch_of_2 fresh_db
       = (Return (mkResult 5 5 90), w')
       /\ totalArchivedRecords (getArchiveStats (fun _ => "16 kB"%string) w') = Some 5.
Proof.
  assert (Hb : (1 <= batchSize (merge batch_of_2))%nat) by (cbn; lia).
  assert (Hid : NoDup (map id (costs fresh_db))).
  { repeat constructor; simpl; intuition discriminate. }
  split; [exact Hb|]. split; [exact Hid|].
  destruct (stats_after_archive (fun _ => "16 kB"%string) years_back no_fault 100
              batch_of_2 fresh_db Hb (fun j _ => eq_refl) Hid)
    as (res & w' & R & S).
  { intros r a _ _ []. }
  exists w'.
  assert (Hres : res = mkResult 5 5 90).
  { apply (f_equal fst) in R. vm_compute in R. now injection R as <-. }
  subst res. split; [exact R|exact S].
Defined.

(** ** Cleaning up *)

Section Clock.
Variable years_before : Z -> Z -> Z.



End Clock.



(** ** Restoring, row by row *)





(** ** The constraints of the live table *)

Lemma upsert_keys now record table out table' :
  upsert now record table = (out, table') ->
  NoDup (map id table) -> NoDup (map unique_key table) ->
  NoDup (map id table') /\ NoDup (map unique_key table')
  /\ (forall k, In k (map id table) -> In k (map id table')).
Proof.
  unfold upsert. intros U Hid Hkey.
  destruct (find (fun c => id c =? a_id record) table) as [existing|] eqn:F.
  - set (updated := mkCost (id existing) (a_category record) (a_amount record)
                           (a_month record) (a_year record) (createdAt existing) now) in U.
    destruct (existsb (same_period updated) _) eqn:E; injection U as <- <-; auto.
    apply ArchiveFacts.find_id_In in F as [Hin Hk].
    set (f := fun c => if id c =? a_id record then updated else c).
    assert (Hf : forall c, id (f c) = id c).
    { intros c. unfold f. destruct (id c =? a_id record) eqn:Ec; [|reflexivity].
      apply Z.eqb_eq in Ec. cbn. congruence. }
    assert (Hids : map id (map f table) = map id table).
    { rewrite map_map. apply map_ext. exact Hf. }
    split; [now rewrite Hids|]. split; [|now rewrite Hids].
    assert (Hother : forall c, In c table -> id c <> a_id record ->
                               unique_key c <> unique_key updated).
    { intros c Hc Hne Heq.
      assert (existsb (same_period updated)
                (filter (fun c => negb (id c =? a_id record)) table) = true).
      { apply existsb_exists. exists c. split.
        - apply filter_In. split; [exact Hc|].
          now apply negb_true_iff, Z.eqb_neq.
        - now apply ArchiveFacts.same_period_eq. }
      congruence. }
    clear E Hin Hk Hids. revert Hid Hkey Hother.
    induction table as [|c table IH]; cbn [map]; intros Hid Hkey Hother;
      [constructor|].
    inversion Hid as [|? ? Hc Hid']; subst.
    inversion Hkey as [|? ? Hck Hkey']; subst.
    assert (IH' : NoDup (map unique_key (map f table))).
    { apply IH; auto. intros c' Hc'. apply Hother. now right. }
    constructor; [|exact IH'].
    intros Hin. apply in_map_iff in Hin as (c1 & E1 & Hin1).
    apply in_map_iff in Hin1 as (c2 & <- & Hin2).
    unfold f in E1.
    destruct (id c =? a_id record) eqn:Ec, (id c2 =? a_id record) eqn:Ec2.
    + apply Z.eqb_eq in Ec, Ec2. apply Hc. apply in_map_iff.
      exists c2. split; [congruence|exact Hin2].
    + apply Z.eqb_neq in Ec2. apply (Hother c2); [now right|exact Ec2|exact E1].
    + apply Z.eqb_neq in Ec. apply (Hother c); [now left|exact Ec|now symmetry].
    + apply Hck. apply in_map_iff. exists c2. split; [exact E1|exact Hin2].
  - set (created := mkCost (a_id record) (a_category record) (a_amount record)
                           (a_month record) (a_year record) (created_at record)
                           (updated_at record)) in U.
    destruct (existsb (same_period created) table) eqn:E; injection U as <- <-; auto.
    apply ArchiveFacts.find_id_None in F.
    rewrite !map_app. cbn [map].
    split; [|split].
    + apply (Permutation_NoDup (Permutation_cons_append _ _)). now constructor.
    + apply (Permutation_NoDup (Permutation_cons_append _ _)). constructor; [|exact Hkey].
      intros Hin. apply in_map_iff in Hin as (c & Ec & Hc).
      assert (existsb (same_period created) table = true).
      { apply existsb_exists. exists c. split; [exact Hc|].
        now apply ArchiveFacts.same_period_eq. }
      congruence.
    + intros k Hk. apply in_or_app. now left.
Qed.

Lemma restore_each_keys now records : forall table out table',
  restore_each now records table = (out, table') ->
  NoDup (map id table) -> NoDup (map unique_key table) ->
  NoDup (map id table') /\ NoDup (map unique_key table')
  /\ (forall k, In k (map id table) -> In k (map id table')).
Proof.
  induction records as [|record records IH]; intros table out table';
    cbn [restore_each]; [intros [= <- <-]; auto|].
  destruct (upsert now record table) as [o table1] eqn:U. intros R Hid Hkey.
  destruct (upsert_keys _ _ _ _ _ U Hid Hkey) as (Hid1 & Hkey1 & Hsub1).
  destruct o; [|injection R as <- <-; auto|injection R as <- <-; auto].
  destruct (IH _ _ _ R Hid1 Hkey1) as (Hid2 & Hkey2 & Hsub2). auto.
Qed.

(** ** Restoring a second time *)

Import RestoreSpec.

Lemma NoDup_map_inj (A B : Type) (f : A -> B) (l : list A) a b :
  NoDup (map f l) -> In a l -> In b l -> f a = f b -> a = b.
Proof.
  induction l as [|x l IH]; cbn [map]; intros Hnd Ha Hb E; [destruct Ha|].
  inversion Hnd as [|? ? Hx Hl]; subst.
  destruct Ha as [<-|Ha], Hb as [<-|Hb]; auto.
  - exfalso. apply Hx. rewrite E. now apply in_map.
  - exfalso. apply Hx. rewrite <- E. now apply in_map.
Qed.

(** After a restore that returned, every row it read has its content in
    the live table. *)
Lemma restore_each_content now records table u table' record :
  restore_each now records table = (Return u, table') ->
  NoDup (map a_id records) -> NoDup (map id table) ->
  In record records ->
  exists c, In c table' /\ same_content c record.
Proof.
  intros R Hrec Hid Hin.
  destruct (ArchiveFacts.restore_each_final now records table u table' record
              R Hrec Hid Hin) as [Hnew Hold].
  destruct (in_dec Z.eq_dec (a_id record) (map id table)) as [H|H].
  - apply in_map_iff in H as (existing & E & Hex).
    exists (updated_of now existing record). split; [now apply Hold|].
    unfold same_content, updated_of. cbn. auto.
  - exists (created_of record). split; [now apply Hnew|].
    unfold same_content, created_of. cbn. auto.
Qed.

Lemma touched_fields now records c :
  id (touched now records c) = id c
  /\ unique_key (touched now records c) = unique_key c
  /\ amount (touched now records c) = amount c
  /\ createdAt (touched now records c) = createdAt c.
Proof. unfold touched. now destruct (existsb _ records). Qed.

Lemma touched_cons now record rest c :
  touched now rest (touched now [record] c) = touched now (record :: rest) c.
Proof.
  unfold touched. cbn [existsb]. rewrite orb_false_r.
  destruct (a_id record =? id c); cbn [id orb]; [|reflexivity].
  now destruct (existsb _ rest).
Qed.

(** Restoring rows whose content the live table already holds only
    stamps them. *)
Lemma restore_again now records : forall table,
  NoDup (map id table) -> NoDup (map unique_key table) ->
  (forall record, In record records -> exists c, In c table /\ same_content c record) ->
  restore_each now records table = (Return tt, map (touched now records) table).
Proof.
  induction records as [|record rest IH]; intros table Hid Hkey Hcont;
    cbn [restore_each].
  - rewrite (map_ext _ (fun c => c)) by reflexivity. now rewrite map_id.
  - destruct (Hcont record (or_introl eq_refl)) as (c & Hc & Hi & Hca & Ham & Hmo & Hye).
    assert (F : find (fun c' => id c' =? a_id record) table = Some c).
    { rewrite <- Hi. now apply ArchiveFacts.find_id_NoDup. }
    assert (Hone : forall c0, In c0 table -> id c0 = a_id record -> c0 = c).
    { intros c0 H0 E0. apply (NoDup_map_inj _ _ id table); auto. congruence. }
    assert (U : upsert now record table = (Return tt, map (touched now [record]) table)).
    { unfold upsert. rewrite F.
      set (updated := mkCost (id c) (a_category record) (a_amount record)
                             (a_month record) (a_year record) (createdAt c) now).
      assert (Hup : unique_key updated = unique_key c).
      { unfold unique_key, updated. cbn. congruence. }
      destruct (existsb (same_period updated) _) eqn:E.
      - exfalso. apply existsb_exists in E as (c' & Hc' & Esp).
        apply filter_In in Hc' as [Hc' Hne].
        apply negb_true_iff, Z.eqb_neq in Hne.
        apply ArchiveFacts.same_period_eq in Esp.
        apply Hne. rewrite <- Hi. f_equal.
        apply (NoDup_map_inj _ _ unique_key table); auto. congruence.
      - f_equal. apply map_ext_in. intros c0 H0. unfold touched. cbn [existsb].
        rewrite orb_false_r, (Z.eqb_sym (a_id record)).
        destruct (id c0 =? a_id record) eqn:E0; [|reflexivity].
        apply Z.eqb_eq in E0. rewrite (Hone c0 H0 E0).
        unfold updated. congruence. }
    rewrite U.
    assert (Hids : map id (map (touched now [record]) table) = map id table).
    { rewrite map_map. apply map_ext. intros c0. apply touched_fields. }
    assert (Hkeys : map unique_key (map (touched now [record]) table)
                    = map unique_key table).
    { rewrite map_map. apply map_ext. intros c0. apply touched_fields. }
    rewrite IH.
    + f_equal. rewrite map_map. apply map_ext. intros c0. apply touched_cons.
    + now rewrite Hids.
    + now rewrite Hkeys.
    + intros record' Hin'.
      destruct (Hcont record' (or_intror Hin')) as (c' & Hc' & Hi' & Hca' & Ham' & Hmo' & Hye').
      exists (touched now [record] c'). split; [now apply in_map|].
      unfold same_content, touched. destruct (existsb _ [record]); cbn; auto.
Qed.

(** X25. A restore can be repeated: after a [restoreFromArchive] that
    returned (ids distinct in both tables, (category, month, year) keys
    distinct in the live one), a second restore of the same range returns
    the same count and changes nothing in the live table but the
    [updatedAt] of the rows of the range, which becomes the time of the
    second restore; ids, keys, amounts and [createdAt] stay. *)
Theorem restore_twice now now' startDate endDate w n w1 :
  NoDup (map id (costs w)) -> NoDup (map unique_key (costs w)) ->
  NoDup (map a_id (table_of w)) ->
  restoreFromArchive now startDate endDate w = (Return n, w1) ->
  let records := filter (in_range startDate endDate) (table_of w) in
  let again := map (touched now' records) (costs w1) in
  restoreFromArchive now' startDate endDate w1
  = (Return n, mkWorld again (costs_archive w1) (debug_log w1))
  /\ map id again = map id (costs w1)
  /\ map unique_key again = map unique_key (costs w1)
  /\ map amount again = map amount (costs w1)
  /\ map createdAt again = map createdAt (costs w1).
Proof.
  intros Hid Hkey Harch R. cbv zeta.
  split.
  2:{ rewrite !map_map. repeat split; apply map_ext; intros c; apply touched_fields. }
  revert R. unfold restoreFromArchive, table_of.
  destruct (costs_archive w) as [table|] eqn:Ht; [|discriminate].
  unfold table_of in Harch. rewrite Ht in Harch.
  destruct (filter (in_range startDate endDate) table) as [|r0 records] eqn:F.
  - intros [= <- <-]. rewrite Ht, F. f_equal.
    rewrite (map_ext _ (fun c => c)) by reflexivity. rewrite map_id.
    rewrite <- Ht. now destruct w.
  - destruct (restore_each now (r0 :: records) (costs w)) as [[u|e|] table1] eqn:R1;
      intros [= <- <-]. cbn [costs costs_archive debug_log]. rewrite F.
    destruct (restore_each_keys _ _ _ _ _ R1 Hid Hkey) as (Hid1 & Hkey1 & _).
    assert (Hrec : NoDup (map a_id (r0 :: records))).
    { rewrite <- F. now apply ArchiveFacts.NoDup_map_filter. }
    rewrite (restore_again now' (r0 :: records) table1 Hid1 Hkey1); [reflexivity|].
    intros record Hin.
    apply (restore_each_content now (r0 :: records) (costs w) u table1 record R1 Hrec Hid Hin).
Qed.

Lemma restore_twice_witness :
  let w := mkWorld [mkCost 9 SALARIES 300 2 2020 7 7]
             (Some [ mkArchived 1 SALARIES 100 1 2020 5 5 50 ]) [] in
  let w1 := mkWorld [mkCost 9 SALARIES 300 2 2020 7 7; mkCost 1 SALARIES 100 1 2020 5 5]
              (costs_archive w) [] in
  NoDup (map id (costs w)) /\ NoDup (map unique_key (costs w))
  /\ NoDup (map a_id (table_of w))
  /\ restoreFromArchive 100 0 10 w = (Return 1%nat, w1)
  /\ restoreFromArchive 200 0 10 w1
     = (Return 1%nat,
        mkWorld [mkCost 9 SALARIES 300 2 2020 7 7; mkCost 1 SALARIES 100 1 2020 5 200]
                (costs_archive w) []).
Proof.
  cbv zeta.
  set (w := mkWorld [mkCost 9 SALARIES 300 2 2020 7 7]
              (Some [ mkArchived 1 SALARIES 100 1 2020 5 5 50 ]) []).
  set (w1 := mkWorld [mkCost 9 SALARIES 300 2 2020 7 7; mkCost 1 SALARIES 100 1 2020 5 5]
               (costs_archive w) []).
  assert (Hid : NoDup (map id (costs w))) by (repeat constructor; simpl; tauto).
  assert (Hkey : NoDup (map unique_key (costs w))) by (repeat constructor; simpl; tauto).
  assert (Harch : NoDup (map a_id (table_of w))) by (repeat constructor; simpl; tauto).
  assert (R : restoreFromArchive 100 0 10 w = (Return 1%nat, w1)) by reflexivity.
  split; [exact Hid|]. split; [exact Hkey|]. split; [exact Harch|]. split; [exact R|].
  exact (proj1 (restore_twice 100 200 0 10 w 1%nat w1 Hid Hkey Harch R)).
Defined.

Section Clock2.
Variable years_before : Z -> Z -> Z.

(** X26. The archive operations keep the constraints of the live table.
    If its ids are distinct and its (category, month, year) keys are
    distinct before an [archiveOldData] or a [restoreFromArchive], they
    are so after it, however the call ends; a restore, moreover, never
    removes a live row's id, never changes the archive, and when it
    returns its count is the number of archived rows in the range. *)
Theorem archive_keeps_constraints w :
  NoDup (map id (costs w)) -> NoDup (map unique_key (costs w)) ->
  (forall faults now config out w',
     archiveOldData years_before faults now config w = (out, w') ->
     NoDup (map id (costs w')) /\ NoDup (map unique_key (costs w')))
  /\ (forall now startDate endDate out w',
        restoreFromArchive now startDate endDate w = (out, w') ->
        NoDup (map id (costs w')) /\ NoDup (map unique_key (costs w'))
        /\ (forall k, In k (map id (costs w)) -> In k (map id (costs w')))
        /\ costs_archive w' = costs_archive w
        /\ (forall n, out = Return n ->
              n = List.length (filter (in_range startDate endDate) (table_of w)))).
Proof.
  intros Hid Hkey. split.
  - intros faults now config out w' R.
    pose proof (ArchiveRunFacts.archive_run_total years_before faults now config w) as T.
    rewrite R in T. cbn [fst] in T.
    destruct (ArchiveRunFacts.archive_run_any years_before faults now config w out w' R)
      as (_ & Hthrow & Hret).
    destruct out as [res|e|]; [|rewrite Hthrow by eauto; auto|congruence].
    destruct Hret as [-> | ->]; eauto.
    split; now apply ArchiveFacts.NoDup_map_filter.
  - intros now startDate endDate out w'. unfold restoreFromArchive, table_of.
    destruct (costs_archive w) as [table|] eqn:Ht.
    2:{ intros [= <- <-]. rewrite Ht. repeat split; auto. intros n [=]. }
    destruct (filter (in_range startDate endDate) table) as [|r0 records] eqn:F.
    { intros [= <- <-]. rewrite Ht. repeat split; auto. intros n [= <-]. reflexivity. }
    destruct (restore_each now (r0 :: records) (costs w)) as [o table1] eqn:R.
    destruct (restore_each_keys _ _ _ _ _ R Hid Hkey) as (Hid1 & Hkey1 & Hsub).
    destruct o; intros [= <- <-]; cbn [costs costs_archive];
      (split; [exact Hid1|]); (split; [exact Hkey1|]); (split; [exact Hsub|]);
      (split; [reflexivity|]); intros n [=]; subst n; reflexivity.
Qed.

End Clock2.

Lemma archive_keeps_constraints_witness :
  let w := mkWorld [mkCost 9 SALARIES 300 2 2020 7 7]
             (Some [ mkArchived 1 SALARIES 100 1 2020 5 5 50;
                     mkArchived 2 SALARIES 200 2 2020 6 6 50 ]) [] in
  NoDup (map id (costs w)) /\ NoDup (map unique_key (costs w))
  /\ fst (restoreFromArchive 100 0 10 w) = Throw unique_violation
  /\ NoDup (map unique_key (costs (snd (restoreFromArchive 100 0 10 w)))).
Proof.
  cbv zeta.
  set (w := mkWorld [mkCost 9 SALARIES 300 2 2020 7 7]
              (Some [ mkArchived 1 SALARIES 100 1 2020 5 5 50;
                      mkArchived 2 SALARIES 200 2 2020 6 6 50 ]) []).
  assert (Hid : NoDup (map id (costs w))) by (repeat constructor; simpl; tauto).
  assert (Hkey : NoDup (map unique_key (costs w))) by (repeat constructor; simpl; tauto).
  split; [exact Hid|]. split; [exact Hkey|]. split; [reflexivity|].
  destruct (restoreFromArchive 100 0 10 w) as [out w'] eqn:R.
  exact (proj1 (proj2 (proj2 (archive_keeps_constraints years_back w Hid Hkey)
                         100 0 10 out w' R))).
Defined.

End ArchiveUpkeepFacts.

(* ===================================================================== *)
(** * Every record has its group *)
(* ===================================================================== *)

Module TrendCoverFacts.
Import TrendAggregator Lists AggregatorSpec.

Section Keys.
Variables (K : Type) (eqb : K -> K -> bool).
Hypothesis eqb_spec : forall a b, eqb a b = true <-> a = b.

Lemma first_keys_In (l : list K) k : In k (first_keys eqb l) <-> In k l.
Proof.
  induction l as [|x l IH] using rev_ind; [reflexivity|].
  rewrite (AggregatorFacts.first_keys_snoc _ eqb), in_app_iff. cbn [In].
  destruct (existsb (eqb x) (first_keys eqb l)) eqn:E.
  - rewrite IH. split; [tauto|]. intros [H|[<-|[]]]; [exact H|].
    apply existsb_exists in E as (y & Hy & Exy). apply eqb_spec in Exy.
    subst y. now apply IH.
  - rewrite in_app_iff, IH. reflexivity.
Qed.
End Keys.

Section Cover.
Variables (K1 K2 : Type) (eqb1 : K1 -> K1 -> bool) (eqb2 : K2 -> K2 -> bool).
Hypothesis eqb1_spec : forall a b, eqb1 a b = true <-> a = b.
Hypothesis eqb2_spec : forall a b, eqb2 a b = true <-> a = b.
Variables (key1 : Cost -> K1) (key2 : Cost -> K2).

(** A record is in the group of its key, and in the breakdown entry of
    its second key. *)
Lemma groups_cover (m : Js.Map K1 (Group K2)) expenses e :
  groups_of eqb1 eqb2 key1 key2 m expenses ->
  In e expenses ->
  exists data amount,
    In (key1 e, data) m /\ In (key2 e, amount) (g_breakdown data).
Proof.
  intros (Hkeys & Hnd & Hok) He.
  assert (H1 : In (key1 e) (map fst m)).
  { rewrite Hkeys. apply (first_keys_In _ eqb1 eqb1_spec). now apply in_map. }
  apply in_map_iff in H1 as ([k data] & Ek & Hin). cbn [fst] in Ek. subst k.
  destruct (AggregatorFacts.groups_entry _ _ _ _ eqb1_spec _ _ _ _ _ _
              (conj Hkeys (conj Hnd Hok)) Hin) as (_ & _ & (Hbk & _ & _)).
  assert (H2 : In (key2 e) (map fst (g_breakdown data))).
  { rewrite Hbk. apply (first_keys_In _ eqb2 eqb2_spec). apply in_map.
    apply filter_In. split; [exact He|]. now apply eqb1_spec. }
  apply in_map_iff in H2 as ([j a] & Ej & Hja). cbn [fst] in Ej. subst j.
  eauto.
Qed.
End Cover.

(** X27. No record is left out.  For every record (year and month not
    negative) of the list an aggregator is given: in monthly mode there is
    a group of its (year, month) whose [categoryBreakdown] has an entry of
    its category; in yearly mode a group of its year with such an entry;
    in category mode a group of its category whose [monthlyBreakdown] has
    an entry of its (year, month). *)
Theorem trends_cover expenses e :
  In e expenses -> 0 <= year e -> 0 <= month e ->
  (exists g b,
     In g (fst (processMonthlyTrends expenses))
     /\ m_year g = Some (year e) /\ m_month g = Some (month e)
     /\ In b (m_categoryBreakdown g) /\ ca_category b = category e)
  /\ (exists g b,
        In g (fst (processYearlyTrends expenses))
        /\ y_year g = year e
        /\ In b (y_categoryBreakdown g) /\ ca_category b = category e)
  /\ (exists g b,
        In g (fst (processCategoryTrends expenses))
        /\ c_category g = category e
        /\ In b (c_monthlyBreakdown g)
        /\ ma_year b = Some (year e) /\ ma_month b = Some (month e)).
Proof.
  intros He Hy Hm.
  pose proof (JsFacts.split_month_key e Hy Hm) as Hsplit.
  split; [|split].
  - destruct (groups_cover _ _ _ _ String.eqb_eq AggregatorFacts.category_eqb_spec
                _ _ _ _ e (AggregatorFacts.monthly_pass expenses) He)
      as (data & amount & Hin & Hb).
    exists (monthly_entry (period_key e, data)), (mkCategoryAmount (category e) amount).
    split.
    + unfold processMonthlyTrends. cbn [fst]. apply ListFacts.sort_In.
      apply in_map. exact Hin.
    + unfold monthly_entry. rewrite Hsplit. cbn.
      repeat split; auto. unfold category_breakdown, Js.entries.
      apply in_map_iff. exists (category e, amount). auto.
  - destruct (groups_cover _ _ _ _ Z.eqb_eq AggregatorFacts.category_eqb_spec
                _ _ _ _ e (AggregatorFacts.yearly_pass expenses) He)
      as (data & amount & Hin & Hb).
    exists (yearly_entry (year e, data)), (mkCategoryAmount (category e) amount).
    split.
    + unfold processYearlyTrends. cbn [fst]. apply ListFacts.sort_In.
      apply in_map. exact Hin.
    + cbn. repeat split; auto. unfold category_breakdown, Js.entries.
      apply in_map_iff. exists (category e, amount). auto.
  - destruct (groups_cover _ _ _ _ AggregatorFacts.category_eqb_spec String.eqb_eq
                _ _ _ _ e (AggregatorFacts.category_pass expenses) He)
      as (data & amount & Hin & Hb).
    exists (category_entry (category e, data)), (month_amount (period_key e, amount)).
    split.
    + unfold processCategoryTrends. cbn [fst]. apply ListFacts.sort_In.
      apply in_map. exact Hin.
    + cbn [category_entry c_category c_monthlyBreakdown].
      split; [reflexivity|]. split.
      * apply ListFacts.sort_In. apply in_map. exact Hb.
      * unfold month_amount. rewrite Hsplit. auto.
Qed.

Lemma trends_cover_witness :
  let e := mkCost 2 SOFTWARE_TOOLS 200000 1 2024 0 0 in
  let expenses := [ mkCost 1 SALARIES 5000000 1 2024 0 0; e;
                    mkCost 3 SALARIES 5100000 2 2024 0 0 ] in
  In e expenses /\ 0 <= year e /\ 0 <= month e
  /\ exists g b,
       In g (fst (processMonthlyTrends expenses))
       /\ m_year g = Some 2024 /\ m_month g = Some 1
       /\ In b (m_categoryBreakdown g) /\ ca_category b = SOFTWARE_TOOLS.
Proof.
  cbv zeta.
  set (e := mkCost 2 SOFTWARE_TOOLS 200000 1 2024 0 0).
  set (expenses := [ mkCost 1 SALARIES 5000000 1 2024 0 0; e;
                     mkCost 3 SALARIES 5100000 2 2024 0 0 ]).
  assert (He : In e expenses) by (right; now left).
  assert (Hy : 0 <= year e) by (cbn; lia).
  assert (Hm : 0 <= month e) by (cbn; lia).
  split; [exact He|]. split; [exact Hy|]. split; [exact Hm|].
  exact (proj1 (trends_cover expenses e He Hy Hm)).
Defined.

End TrendCoverFacts.

(* ===================================================================== *)
(** * The summary: highest and lowest amount *)
(* ===================================================================== *)

Module SummaryFacts.
Import TrendAggregator FloatSpec.

(** ** The order of the floats *)

Lemma SFltb_rank x y :
  x <> S754_nan -> y <> S754_nan ->
  (SFltb x y = true <-> rank_lt (rank x) (rank y)).
Proof.
  intros Hx Hy. unfold SFltb, SFcompare, rank_lt, rank.
  destruct x as [sx|sx| |sx mx ex], y as [sy|sy| |sy my ey]; try congruence;
    try destruct sx; try destruct sy; cbn;
    try (split; [discriminate|lia]);
    try (split; [intros _; lia|intros _; reflexivity]).
  - change (PosDef.Pos.compare_cont Eq mx my) with (Pos.compare mx my).
    destruct (Z.compare_spec ex ey), (Pos.compare_spec mx my); cbn;
      (split; [try discriminate; intros _; lia|try reflexivity; lia]).
  - change (PosDef.Pos.compare_cont Eq mx my) with (Pos.compare mx my).
    destruct (Z.compare_spec ex ey), (Pos.compare_spec mx my); cbn;
      (split; [try discriminate; intros _; lia|try reflexivity; lia]).
Qed.

Lemma is_nan_spec x : PrimFloat.is_nan x = false <-> Prim2SF x <> S754_nan.
Proof.
  unfold PrimFloat.is_nan. rewrite negb_false_iff, FloatAxioms.eqb_spec.
  unfold SFeqb, SFcompare.
  destruct (Prim2SF x) as [s|s| |s m e]; try destruct s; cbn;
    try (split; [discriminate|reflexivity]);
    try (split; [discriminate|congruence]).
  - rewrite Z.compare_refl.
    change (PosDef.Pos.compare_cont Eq m m) with (Pos.compare m m).
    rewrite Pos.compare_refl. split; [discriminate|reflexivity].
  - rewrite Z.compare_refl.
    change (PosDef.Pos.compare_cont Eq m m) with (Pos.compare m m).
    rewrite Pos.compare_refl. split; [discriminate|reflexivity].
Qed.

Lemma ltb_rank x y :
  PrimFloat.is_nan x = false -> PrimFloat.is_nan y = false ->
  (PrimFloat.ltb x y = true <-> rank_lt (rank (Prim2SF x)) (rank (Prim2SF y))).
Proof.
  intros Hx Hy. rewrite FloatAxioms.ltb_spec.
  apply SFltb_rank; now apply is_nan_spec.
Qed.

Lemma ltb_rank_false x y :
  PrimFloat.is_nan x = false -> PrimFloat.is_nan y = false ->
  (PrimFloat.ltb x y = false <-> ~ rank_lt (rank (Prim2SF x)) (rank (Prim2SF y))).
Proof.
  intros Hx Hy. rewrite <- (ltb_rank x y Hx Hy).
  destruct (PrimFloat.ltb x y); split; congruence.
Qed.

Ltac ranks :=
  unfold rank_lt in *;
  repeat match goal with
         | |- context [rank ?x] => destruct (rank x) as [[? ?] ?]
         | H : context [rank ?x] |- _ => destruct (rank x) as [[? ?] ?]
         end.

(** On numbers, "not less than" is transitive. *)
Lemma ltb_false_trans x y z :
  PrimFloat.is_nan x = false -> PrimFloat.is_nan y = false ->
  PrimFloat.is_nan z = false ->
  PrimFloat.ltb x y = false -> PrimFloat.ltb y z = false ->
  PrimFloat.ltb x z = false.
Proof.
  intros Hx Hy Hz. rewrite !ltb_rank_false by assumption. ranks. lia.
Qed.

Lemma ltb_asym x y :
  PrimFloat.is_nan x = false -> PrimFloat.is_nan y = false ->
  PrimFloat.ltb x y = true -> PrimFloat.ltb y x = false.
Proof.
  intros Hx Hy. rewrite ltb_rank, ltb_rank_false by assumption. ranks. lia.
Qed.

Lemma ltb_irrefl x : PrimFloat.is_nan x = false -> PrimFloat.ltb x x = false.
Proof.
  intros Hx. rewrite ltb_rank_false by assumption. ranks. lia.
Qed.

(** ** [Math.max] and [Math.min] of two numbers *)

Lemma max2_number a b :
  PrimFloat.is_nan a = false -> PrimFloat.is_nan b = false ->
  (Js.max2 a b = a \/ Js.max2 a b = b)
  /\ PrimFloat.ltb (Js.max2 a b) a = false
  /\ PrimFloat.ltb (Js.max2 a b) b = false.
Proof.
  intros Ha Hb. unfold Js.max2. rewrite Ha, Hb. cbn [orb].
  destruct (PrimFloat.ltb a b) eqn:E1.
  - split; [now right|]. split; [now apply ltb_asym|now apply ltb_irrefl].
  - destruct (PrimFloat.ltb b a) eqn:E2.
    + split; [now left|]. split; [now apply ltb_irrefl|exact E1].
    + destruct (PrimFloat.get_sign a).
      * split; [now right|]. split; [exact E2|now apply ltb_irrefl].
      * split; [now left|]. split; [now apply ltb_irrefl|exact E1].
Qed.

Lemma min2_number a b :
  PrimFloat.is_nan a = false -> PrimFloat.is_nan b = false ->
  (Js.min2 a b = a \/ Js.min2 a b = b)
  /\ PrimFloat.ltb a (Js.min2 a b) = false
  /\ PrimFloat.ltb b (Js.min2 a b) = false.
Proof.
  intros Ha Hb. unfold Js.min2. rewrite Ha, Hb. cbn [orb].
  destruct (PrimFloat.ltb b a) eqn:E1.
  - split; [now right|]. split; [now apply ltb_asym|now apply ltb_irrefl].
  - destruct (PrimFloat.ltb a b) eqn:E2.
    + split; [now left|]. split; [now apply ltb_irrefl|exact E1].
    + destruct (PrimFloat.get_sign a).
      * split; [now left|]. split; [now apply ltb_irrefl|exact E1].
      * split; [now right|]. split; [exact E2|now apply ltb_irrefl].
Qed.

(** ** Over a list *)

Lemma fold_max2 l : forall acc,
  PrimFloat.is_nan acc = false ->
  (forall a, In a l -> PrimFloat.is_nan a = false) ->
  let r := fold_left Js.max2 l acc in
  PrimFloat.is_nan r = false
  /\ (r = acc \/ In r l)
  /\ PrimFloat.ltb r acc = false
  /\ forall a, In a l -> PrimFloat.ltb r a = false.
Proof.
  induction l as [|b l IH]; intros acc Hacc Hl; cbn [fold_left].
  - split; [exact Hacc|]. split; [now left|].
    split; [now apply ltb_irrefl|intros a []].
  - assert (Hb : PrimFloat.is_nan b = false) by (apply Hl; now left).
    destruct (max2_number acc b Hacc Hb) as (Hor & H1 & H2).
    assert (Hm : PrimFloat.is_nan (Js.max2 acc b) = false)
      by (destruct Hor as [-> | ->]; assumption).
    destruct (IH (Js.max2 acc b) Hm (fun a Ha => Hl a (or_intror Ha)))
      as (Hr & Hin & Hge & Hall).
    split; [exact Hr|]. split; [|split].
    + destruct Hin as [E|Hin]; [|right; now right].
      rewrite E. destruct Hor as [-> | ->]; [now left|right; now left].
    + apply (ltb_false_trans _ (Js.max2 acc b)); assumption.
    + intros a [<-|Ha]; [|now apply Hall].
      apply (ltb_false_trans _ (Js.max2 acc b)); assumption.
Qed.

Lemma fold_min2 l : forall acc,
  PrimFloat.is_nan acc = false ->
  (forall a, In a l -> PrimFloat.is_nan a = false) ->
  let r := fold_left Js.min2 l acc in
  PrimFloat.is_nan r = false
  /\ (r = acc \/ In r l)
  /\ PrimFloat.ltb acc r = false
  /\ forall a, In a l -> PrimFloat.ltb a r = false.
Proof.
  induction l as [|b l IH]; intros acc Hacc Hl; cbn [fold_left].
  - split; [exact Hacc|]. split; [now left|].
    split; [now apply ltb_irrefl|intros a []].
  - assert (Hb : PrimFloat.is_nan b = false) by (apply Hl; now left).
    destruct (min2_number acc b Hacc Hb) as (Hor & H1 & H2).
    assert (Hm : PrimFloat.is_nan (Js.min2 acc b) = false)
      by (destruct Hor as [-> | ->]; assumption).
    destruct (IH (Js.min2 acc b) Hm (fun a Ha => Hl a (or_intror Ha)))
      as (Hr & Hin & Hge & Hall).
    split; [exact Hr|]. split; [|split].
    + destruct Hin as [E|Hin]; [|right; now right].
      rewrite E. destruct Hor as [-> | ->]; [now left|right; now left].
    + apply (ltb_false_trans _ (Js.min2 acc b)); assumption.
    + intros a [<-|Ha]; [|now apply Hall].
      apply (ltb_false_trans _ (Js.min2 acc b)); assumption.
Qed.

(** The first argument takes the place of the starting value. *)
Lemma max2_start a : PrimFloat.is_nan a = false -> Js.max2 neg_infinity a = a.
Proof.
  intros Ha. unfold Js.max2. rewrite Ha.
  change (PrimFloat.is_nan neg_infinity) with false. cbn [orb].
  destruct (PrimFloat.ltb neg_infinity a); [reflexivity|].
  destruct (PrimFloat.ltb a neg_infinity) eqn:E; [|reflexivity].
  exfalso. apply ltb_rank in E; [|exact Ha|reflexivity].
  change (Prim2SF neg_infinity) with (S754_infinity true) in E.
  apply is_nan_spec in Ha. unfold rank_lt, rank in E.
  destruct (Prim2SF a) as [s|s| |s m e]; try destruct s; cbn in E; lia.
Qed.

Lemma min2_start a : PrimFloat.is_nan a = false -> Js.min2 infinity a = a.
Proof.
  intros Ha. unfold Js.min2. rewrite Ha.
  change (PrimFloat.is_nan infinity) with false. cbn [orb].
  destruct (PrimFloat.ltb a infinity); [reflexivity|].
  destruct (PrimFloat.ltb infinity a) eqn:E; [|reflexivity].
  exfalso. apply ltb_rank in E; [|reflexivity|exact Ha].
  change (Prim2SF infinity) with (S754_infinity false) in E.
  apply is_nan_spec in Ha. unfold rank_lt, rank in E.
  destruct (Prim2SF a) as [s|s| |s m e]; try destruct s; cbn in E; lia.
Qed.

(** X28. The summary of a non-empty list of amounts none of which is
    NaN: [highestAmount] is one of the amounts and no amount is greater;
    [lowestAmount] is one of the amounts and no amount is smaller; and the
    summary's total and average are the floating-point sum of the amounts
    and that sum divided by their number. *)
Theorem summary_extremes amounts :
  amounts <> [] ->
  (forall a, In a amounts -> PrimFloat.is_nan a = false) ->
  let s := summarize amounts in
  In (highestAmount s) amounts
  /\ (forall a, In a amounts -> PrimFloat.ltb (highestAmount s) a = false)
  /\ In (lowestAmount s) amounts
  /\ (forall a, In a amounts -> PrimFloat.ltb a (lowestAmount s) = false)
  /\ totalAmount s = Js.sum amounts
  /\ averageAmount s
     = PrimFloat.div (Js.sum amounts)
         (PrimFloat.of_uint63 (Uint63.of_Z (Z.of_nat (List.length amounts)))).
Proof.
  intros Hne Hnum. destruct amounts as [|a0 rest]; [congruence|].
  cbv zeta. unfold summarize.
  cbn [highestAmount lowestAmount totalAmount averageAmount].
  assert (Ha0 : PrimFloat.is_nan a0 = false) by (apply Hnum; now left).
  assert (Hrest : forall a, In a rest -> PrimFloat.is_nan a = false)
    by (intros a Ha; apply Hnum; now right).
  unfold Js.Math_max, Js.Math_min. cbn [fold_left].
  rewrite (max2_start a0 Ha0), (min2_start a0 Ha0).
  destruct (fold_max2 rest a0 Ha0 Hrest) as (_ & Hin & Hge & Hall).
  destruct (fold_min2 rest a0 Ha0 Hrest) as (_ & Hin' & Hle & Hall').
  cbv zeta in *.
  split; [destruct Hin as [-> |Hin]; [now left|now right]|].
  split; [intros a [<-|Ha]; auto|].
  split; [destruct Hin' as [-> |Hin']; [now left|now right]|].
  split; [intros a [<-|Ha]; auto|].
  split; reflexivity.
Qed.

Lemma summary_extremes_witness :
  let amounts := [52000; 51000; 53500]%float in
  amounts <> []
  /\ (forall a, In a amounts -> PrimFloat.is_nan a = false)
  /\ highestAmount (summarize amounts) = 53500%float
  /\ lowestAmount (summarize amounts) = 51000%float
  /\ In (highestAmount (summarize amounts)) amounts
  /\ (forall a, In a amounts -> PrimFloat.ltb (highestAmount (summarize amounts)) a = false).
Proof.
  cbv zeta.
  set (amounts := [52000; 51000; 53500]%float).
  assert (Hne : amounts <> []) by discriminate.
  assert (Hnum : forall a, In a amounts -> PrimFloat.is_nan a = false).
  { intros a [<-|[<-|[<-|[]]]]; reflexivity. }
  destruct (summary_extremes amounts Hne Hnum) as (H1 & H2 & _).
  split; [exact Hne|]. split; [exact Hnum|].
  split; [vm_compute; reflexivity|]. split; [vm_compute; reflexivity|].
  split; [exact H1|exact H2].
Defined.

End SummaryFacts.

(* ===================================================================== *)
(** * Properties of the database under the writes of the application *)
(* ===================================================================== *)

Module ApplicationFacts.
Import Archive Lists ArchiveSpec Errors ExpenseService ArchiveUpkeep.
Import Application ApplicationSpec OrderFacts.
Local Arguments archiveBatch : simpl never.
Local Arguments findMany : simpl never.

(** ** What a run of [archiveOldData] leaves *)

Lemma archive_loop_NoDup faults now cutoff b n :
  forall fuel i offset archived w table out w1,
  costs_archive w = Some table ->
  NoDup (map a_id table) ->
  archive_loop fuel faults now cutoff b n i offset archived w = (out, w1) ->
  NoDup (map a_id (table_of w1)).
Proof.
  induction fuel as [|fuel IH]; intros i offset archived w table out w1 Ht Hn;
    cbn [archive_loop].
  - destruct (offset <? n)%nat; intros [= <- <-]; unfold table_of; now rewrite Ht.
  - destruct (offset <? n)%nat;
      [|intros [= <- <-]; unfold table_of; now rewrite Ht].
    destruct (findMany cutoff b offset (costs w)) as [|r batch] eqn:F;
      [intros [= <- <-]; unfold table_of; now rewrite Ht|].
    unfold archiveBatch. destruct (faults i);
      [intros [= <- <-]; unfold table_of; now rewrite Ht|].
    rewrite Ht. intros L.
    refine (IH _ _ _ _ (insert_rows table (map (archive_row now) (r :: batch)))
              _ _ _ _ L); [reflexivity|].
    now apply ArchiveFacts.insert_rows_NoDup.
Qed.

Section Runs.
Variable years_before : Z -> Z -> Z.

(** However a run ends: the live rows left were there before, and every
    archived row was there before or is the copy of a live row. *)
Lemma archive_run_rows faults now config w out w' :
  archiveOldData years_before faults now config w = (out, w') ->
  (NoDup (map a_id (table_of w)) -> NoDup (map a_id (table_of w')))
  /\ (forall a, In a (table_of w') ->
        In a (table_of w) \/ exists r, In r (costs w) /\ a = archive_row now r)
  /\ (forall c, In c (costs w') -> In c (costs w))
  /\ (NoDup (map id (costs w)) -> NoDup (map id (costs w'))).
Proof.
  unfold archiveOldData. cbv zeta.
  destruct (ArchiveFacts.ensure_table w) as (Ht & Hc & Hl).
  set (w0 := ensureArchiveTableExists w) in *.
  set (cutoff := years_before now (retentionYears (merge config))).
  assert (T0 : table_of w0 = table_of w) by (unfold table_of at 1; now rewrite Ht).
  destruct (count cutoff (costs w0) =? 0)%nat.
  - intros [= <- <-]. rewrite T0, Hc. auto.
  - destruct (archive_loop _ faults now cutoff _ _ 0 0 0 w0) as [o w1] eqn:L.
    pose proof (ArchiveRunFacts.archive_loop_copies _ _ _ _ _ _ _ _ _ _ _ _ _ Ht L)
      as Hcopies.
    pose proof (fun H => archive_loop_NoDup _ _ _ _ _ _ _ _ _ _ _ _ _ Ht H L) as Hnd.
    destruct (ArchiveRunFacts.archive_loop_any _ _ _ _ _ _ _ _ _ _ _ _ _ Ht L)
      as (Hc1 & _).
    rewrite Hc in Hcopies, Hc1.
    assert (Hrows : forall a, In a (table_of w1) ->
              In a (table_of w) \/ exists r, In r (costs w) /\ a = archive_row now r).
    { intros a Ha. destruct (Hcopies a Ha) as [H|(r & H1 & _ & H2)]; [now left|].
      right. eauto. }
    destruct o.
    + unfold deleteMany. intros [= <- <-].
      assert (T1 : table_of (mkWorld (filter (fun c => negb (older cutoff c)) (costs w1))
                                     (costs_archive w1) (debug_log w1)) = table_of w1)
        by reflexivity.
      rewrite T1. cbn [costs]. rewrite Hc1.
      split; [exact Hnd|]. split; [exact Hrows|]. split.
      * intros c H. now apply filter_In in H.
      * intros H. now apply ArchiveFacts.NoDup_map_filter.
    + intros [= <- <-]. rewrite Hc1. auto.
    + intros [= <- <-]. rewrite Hc1. auto.
Qed.

End Runs.

(** ** What an upsert keeps *)

Section Restoring.

(** The archive the records come from, and the sequence's next value. *)
Variable archive : list ArchivedCost.
Variable seq : Z.
Hypothesis archive_ids : NoDup (map a_id archive).
Hypothesis archive_seq : forall r, In r archive -> a_id r < seq.

Lemma upsert_consistent now record table out table' :
  In record archive ->
  NoDup (map id table) ->
  (forall c r, In c table -> In r archive -> a_id r = id c -> same_origin c r) ->
  (forall c, In c table -> id c < seq) ->
  upsert now record table = (out, table') ->
  NoDup (map id table')
  /\ (forall c r, In c table' -> In r archive -> a_id r = id c -> same_origin c r)
  /\ (forall c, In c table' -> id c < seq)
  /\ (forall c, In c table ->
        exists c', In c' table' /\ id c' = id c /\ category c' = category c
                   /\ month c' = month c /\ year c' = year c
                   /\ createdAt c' = createdAt c).
Proof.
  intros Hrec Hnd Hag Hseq. unfold upsert.
  assert (Hsame : forall c, In c table ->
            exists c', In c' table /\ id c' = id c /\ category c' = category c
                       /\ month c' = month c /\ year c' = year c
                       /\ createdAt c' = createdAt c).
  { intros c Hc. exists c. auto 8. }
  destruct (find (fun c => id c =? a_id record) table) as [existing|] eqn:F.
  - apply ArchiveFacts.find_id_In in F as [Hex Hid].
    set (updated := mkCost (id existing) (a_category record) (a_amount record)
                           (a_month record) (a_year record) (createdAt existing) now).
    destruct (existsb _ _); [intros [= <- <-]; auto|].
    intros [= <- <-].
    set (g := fun c => if id c =? a_id record then updated else c).
    destruct (Hag existing record Hex Hrec (eq_sym Hid)) as (Ec & Em & Ey & Ed).
    assert (Hg : forall c, In c table ->
              id (g c) = id c /\ category (g c) = category c
              /\ month (g c) = month c /\ year (g c) = year c
              /\ createdAt (g c) = createdAt c).
    { intros c Hc. unfold g. destruct (id c =? a_id record) eqn:E; [|auto].
      apply Z.eqb_eq in E.
      assert (c = existing)
        by (apply (ArchiveUpkeepFacts.NoDup_map_inj _ _ id table); auto; congruence).
      subst c. unfold updated. cbn. auto. }
    split; [|split; [|split]].
    + rewrite map_map. rewrite (map_ext_in _ id); [exact Hnd|].
      intros c Hc. now apply Hg.
    + intros c' r Hc' Hr E. apply in_map_iff in Hc' as (c & <- & Hc).
      destruct (Hg c Hc) as (G1 & G2 & G3 & G4 & G5).
      rewrite G1 in E. destruct (Hag c r Hc Hr E) as (A1 & A2 & A3 & A4).
      unfold same_origin. rewrite G2, G3, G4, G5. auto.
    + intros c' Hc'. apply in_map_iff in Hc' as (c & <- & Hc).
      destruct (Hg c Hc) as (G1 & _). rewrite G1. now apply Hseq.
    + intros c Hc. exists (g c). split; [now apply in_map|]. now apply Hg.
  - apply ArchiveFacts.find_id_None in F.
    set (created := mkCost (a_id record) (a_category record) (a_amount record)
                           (a_month record) (a_year record)
                           (created_at record) (updated_at record)).
    destruct (existsb _ _); [intros [= <- <-]; auto|].
    intros [= <- <-]. split; [|split; [|split]].
    + rewrite map_app. cbn [map]. now apply ExpenseServiceFacts.NoDup_snoc.
    + intros c r Hc Hr E. apply in_app_or in Hc as [Hc|[<-|[]]]; [now apply Hag|].
      cbn [id created] in E.
      assert (r = record)
        by (apply (ArchiveUpkeepFacts.NoDup_map_inj _ _ a_id archive); auto).
      subst r. unfold same_origin, created. cbn. auto.
    + intros c Hc. apply in_app_or in Hc as [Hc|[<-|[]]]; [now apply Hseq|].
      cbn [id created]. now apply archive_seq.
    + intros c Hc. exists c. split; [apply in_or_app; now left|auto 8].
Qed.

Lemma restore_each_consistent now records : forall table out table',
  (forall record, In record records -> In record archive) ->
  NoDup (map id table) ->
  (forall c r, In c table -> In r archive -> a_id r = id c -> same_origin c r) ->
  (forall c, In c table -> id c < seq) ->
  restore_each now records table = (out, table') ->
  NoDup (map id table')
  /\ (forall c r, In c table' -> In r archive -> a_id r = id c -> same_origin c r)
  /\ (forall c, In c table' -> id c < seq)
  /\ (forall c, In c table ->
        exists c', In c' table' /\ id c' = id c /\ category c' = category c
                   /\ month c' = month c /\ year c' = year c
                   /\ createdAt c' = createdAt c).
Proof.
  induction records as [|record rest IH]; intros table out table' Hsub Hnd Hag Hseq;
    cbn [restore_each].
  - intros [= <- <-]. split; [exact Hnd|]. split; [exact Hag|]. split; [exact Hseq|].
    intros c Hc. exists c. auto 8.
  - destruct (upsert now record table) as [o table1] eqn:U.
    destruct (upsert_consistent now record table o table1
                (Hsub record (or_introl eq_refl)) Hnd Hag Hseq U)
      as (N1 & A1 & S1 & F1).
    destruct o; [|intros [= <- <-]; auto|intros [= <- <-]; auto].
    intros R.
    destruct (IH table1 out table' (fun r H => Hsub r (or_intror H)) N1 A1 S1 R)
      as (N2 & A2 & S2 & F2).
    split; [exact N2|]. split; [exact A2|]. split; [exact S2|].
    intros c Hc. destruct (F1 c Hc) as (c1 & Hc1 & E1 & E2 & E3 & E4 & E5).
    destruct (F2 c1 Hc1) as (c2 & Hc2 & G1 & G2 & G3 & G4 & G5).
    exists c2. split; [exact Hc2|]. repeat split; congruence.
Qed.

End Restoring.

(** ** Every call keeps the database consistent *)

Lemma table_of_with_costs w table : table_of (with_costs w table) = table_of w.
Proof. reflexivity. Qed.

(** A call that only rewrites [costs]. *)
Lemma consistent_with_costs w seq table' seq' :
  consistent (mkDatabase w seq) -> seq <= seq' ->
  NoDup (map id table') ->
  (forall c', In c' table' ->
     id c' < seq'
     /\ forall r, In r (table_of w) -> a_id r = id c' -> same_origin c' r) ->
  consistent (mkDatabase (with_costs w table') seq').
Proof.
  unfold consistent. cbn [tables costs_id_seq].
  intros (_ & I2 & _ & _ & I5) Hle Hnd Hrows.
  rewrite table_of_with_costs. cbn [costs with_costs].
  split; [exact Hnd|]. split; [exact I2|]. split; [|split].
  - intros c r Hc Hr E. now apply (proj2 (Hrows c Hc)).
  - intros c Hc. now apply Hrows.
  - intros r Hr. specialize (I5 r Hr). lia.
Qed.

Lemma restore_consistent now startDate endDate w seq out w2 :
  consistent (mkDatabase w seq) ->
  restoreFromArchive now startDate endDate w = (out, w2) ->
  consistent (mkDatabase w2 seq)
  /\ (forall c, In c (costs w) ->
        exists c', In c' (costs w2) /\ id c' = id c /\ category c' = category c
                   /\ month c' = month c /\ year c' = year c
                   /\ createdAt c' = createdAt c).
Proof.
  intros H. pose proof H as (I1 & I2 & I3 & I4 & I5).
  cbn [tables costs_id_seq] in I1, I2, I3, I4, I5.
  assert (Hsame : forall c, In c (costs w) ->
            exists c', In c' (costs w) /\ id c' = id c /\ category c' = category c
                       /\ month c' = month c /\ year c' = year c
                       /\ createdAt c' = createdAt c).
  { intros c Hc. exists c. auto 8. }
  unfold restoreFromArchive.
  destruct (costs_archive w) as [table|] eqn:Ea; [|intros [= <- <-]; auto].
  assert (T : table_of w = table) by (unfold table_of; now rewrite Ea).
  destruct (filter (in_range startDate endDate) table) as [|record records] eqn:Ef;
    [intros [= <- <-]; auto|].
  destruct (restore_each now (record :: records) (costs w)) as [o table1] eqn:R.
  rewrite T in I2, I3, I5.
  destruct (restore_each_consistent table seq I2 I5 now (record :: records)
              (costs w) o table1) as (N1 & A1 & S1 & F1); auto.
  { intros r Hr. rewrite <- Ef in Hr. now apply filter_In in Hr. }
  assert (Hres : consistent (mkDatabase (mkWorld table1 (costs_archive w) (debug_log w)) seq)).
  { apply (consistent_with_costs w seq table1 seq H); [lia|exact N1|].
    intros c' Hc'. split; [now apply S1|]. rewrite T. intros r Hr E. now apply A1. }
  rewrite Ea in Hres.
  destruct o; intros [= <- <-]; (split; [exact Hres|exact F1]).
Qed.

Section History.
Variable years_before : Z -> Z -> Z.

Lemma run_consistent call db :
  consistent db -> consistent (run years_before call db).
Proof.
  intros H. destruct db as [w seq]. pose proof H as (I1 & I2 & I3 & I4 & I5).
  cbn [tables costs_id_seq] in I1, I2, I3, I4, I5.
  assert (Hold : forall table' seq', seq <= seq' ->
            NoDup (map id table') ->
            (forall c, In c table' -> In c (costs w)) ->
            consistent (mkDatabase (with_costs w table') seq')).
  { intros table' seq' Hle Hnd Hsub. apply (consistent_with_costs w seq); auto.
    intros c Hc. apply Hsub in Hc. split; [specialize (I4 c Hc); lia|].
    intros r Hr E. now apply I3. }
  destruct call; cbn [run tables costs_id_seq].
  - (* createExpense *)
    unfold createExpense, create.
    set (row := mkCost seq (d_category data) (d_amount data) (d_month data)
                       (d_year data) now now).
    destruct fault; cbn [orb snd]; [apply Hold; auto; lia|].
    destruct (int4 seq); cbn [negb snd]; [|apply Hold; auto; lia].
    destruct (existsb _ _ || existsb _ _); cbn [snd]; [apply Hold; auto; lia|].
    apply (consistent_with_costs w seq); [exact H|lia| |].
    + rewrite map_app. cbn [map]. apply ExpenseServiceFacts.NoDup_snoc; [exact I1|].
      intros Hin. apply in_map_iff in Hin as (c & E & Hc).
      specialize (I4 c Hc). cbn [id row] in E. lia.
    + intros c Hc. apply in_app_or in Hc as [Hc|[<-|[]]].
      * split; [specialize (I4 c Hc); lia|]. intros r Hr E. now apply I3.
      * cbn [id row]. split; [lia|]. intros r Hr E. specialize (I5 r Hr). lia.
  - (* updateExpense *)
    unfold updateExpense, update.
    destruct fault; cbn [snd]; [apply Hold; auto; lia|].
    destruct (int4 k); cbn [negb snd]; [|apply Hold; auto; lia].
    destruct (row_of_id k (costs w)) as [existing|] eqn:F;
      [|cbn [snd]; apply Hold; auto; lia].
    assert (Hk : In k (map id (costs w)))
      by (apply ExpenseServiceFacts.row_of_id_In; eauto).
    rewrite (ExpenseServiceFacts.updateExpense_table now k new_amount (costs w) Hk).
    cbn [snd].
    set (f := fun c => if id c =? k
                       then mkCost (id c) (category c) new_amount (month c)
                                   (year c) (createdAt c) now
                       else c).
    assert (Hf : forall c, id (f c) = id c /\ category (f c) = category c
                           /\ month (f c) = month c /\ year (f c) = year c
                           /\ createdAt (f c) = createdAt c).
    { intros c. unfold f. destruct (id c =? k); cbn; auto. }
    apply (consistent_with_costs w seq); [exact H|lia| |].
    + rewrite map_map. rewrite (map_ext _ id); [exact I1|]. intros c. apply Hf.
    + intros c' Hc'. apply in_map_iff in Hc' as (c & <- & Hc).
      destruct (Hf c) as (G1 & G2 & G3 & G4 & G5). rewrite G1.
      split; [now apply I4|]. intros r Hr E.
      destruct (I3 c r Hc Hr E) as (A1 & A2 & A3 & A4).
      unfold same_origin. rewrite G2, G3, G4, G5. auto.
  - (* deleteExpense *)
    unfold deleteExpense, delete.
    destruct fault; cbn [snd]; [apply Hold; auto; lia|].
    destruct (int4 k); cbn [negb snd]; [|apply Hold; auto; lia].
    destruct (row_of_id k (costs w)) as [existing|]; cbn [snd];
      [|apply Hold; auto; lia].
    apply Hold; [lia|now apply ArchiveFacts.NoDup_map_filter|].
    intros c Hc. now apply filter_In in Hc.
  - (* archiveOldData *)
    destruct (archiveOldData years_before faults now config w) as [out w'] eqn:A.
    apply archive_run_rows in A as (H1 & H2 & H3 & H4). cbn [snd].
    unfold consistent. cbn [tables costs_id_seq].
    split; [auto|]. split; [auto|]. split; [|split].
    + intros c r Hc Hr E. apply H3 in Hc.
      destruct (H2 r Hr) as [Hold'|(r0 & Hr0 & ->)]; [now apply I3|].
      cbn [a_id archive_row] in E.
      assert (r0 = c)
        by (apply (ArchiveUpkeepFacts.NoDup_map_inj _ _ id (costs w)); auto).
      subst r0. unfold same_origin, archive_row. cbn. auto.
    + intros c Hc. apply I4. now apply H3.
    + intros r Hr. destruct (H2 r Hr) as [Hold'|(r0 & Hr0 & ->)]; [now apply I5|].
      cbn [a_id archive_row]. now apply I4.
  - (* restoreFromArchive *)
    destruct (restoreFromArchive now startDate endDate w) as [out w2] eqn:R.
    cbn [snd]. exact (proj1 (restore_consistent _ _ _ _ _ _ _ H R)).
  - (* cleanupOldArchives *)
    unfold cleanupOldArchives. cbv zeta.
    destruct (costs_archive w) as [table|] eqn:Ea; cbn [snd]; [|exact H].
    assert (T : table_of w = table) by (unfold table_of; now rewrite Ea).
    rewrite T in I2, I3, I5.
    unfold consistent, table_of. cbn [tables costs_id_seq costs costs_archive].
    split; [exact I1|]. split; [now apply ArchiveFacts.NoDup_map_filter|].
    split; [|split; [exact I4|]].
    + intros c r Hc Hr E. apply filter_In in Hr as [Hr _]. now apply I3.
    + intros r Hr. apply filter_In in Hr as [Hr _]. now apply I5.
Qed.

Lemma migrated_consistent : consistent migrated.
Proof.
  unfold consistent, migrated, table_of. cbn.
  split; [constructor|]. split; [constructor|].
  split; [intros c r []|]. split; [intros c []|intros r []].
Qed.

Lemma run_all_consistent calls : forall db,
  consistent db -> consistent (run_all years_before calls db).
Proof.
  induction calls as [|call calls IH]; intros db H; [exact H|].
  apply IH. now apply run_consistent.
Qed.

(** C9. On the database any history of calls leaves, a live record
    whose id [restoreFromArchive] meets in the archive has only its
    amount and its [updatedAt] overwritten: where the restore returns,
    the record is found with the archived amount and the time of the
    restore as [updatedAt], its id, category, month, year and [createdAt]
    as they were.  However the restore ends, every live record is still
    there under its id, the only row of that id, with the category,
    month, year and [createdAt] it had; and a record whose id no
    restored row has is left as it was. *)
Theorem restore_collision_frame calls now startDate endDate outcome w2 existing :
  let w := tables (run_all years_before calls migrated) in
  restoreFromArchive now startDate endDate w = (outcome, w2) ->
  In existing (costs w) ->
  (forall record n,
     outcome = Return n ->
     In record (table_of w) -> in_range startDate endDate record = true ->
     a_id record = id existing ->
     In (mkCost (id existing) (category existing) (a_amount record) (month existing)
                (year existing) (createdAt existing) now) (costs w2))
  /\ NoDup (map id (costs w2))
  /\ (exists after,
        In after (costs w2) /\ id after = id existing
        /\ category after = category existing /\ month after = month existing
        /\ year after = year existing /\ createdAt after = createdAt existing)
  /\ (forall n,
        outcome = Return n ->
        (forall record, In record (table_of w) ->
           in_range startDate endDate record = true -> a_id record <> id existing) ->
        In existing (costs w2)).
Proof.
  cbv zeta. set (db := run_all years_before calls migrated).
  assert (H : consistent db) by (apply run_all_consistent, migrated_consistent).
  destruct db as [w seq]. cbn [tables]. intros R Hex.
  pose proof H as (I1 & I2 & I3 & _). cbn [tables] in I1, I2, I3.
  destruct (restore_consistent _ _ _ _ _ _ _ H R) as ((N2 & _) & Hframe).
  cbn [tables] in N2.
  split; [|split; [exact N2|split; [now apply Hframe|]]].
  - intros record n -> Hrec Hin Hid.
    destruct (I3 existing record Hex Hrec Hid) as (Ec & Em & Ey & _).
    rewrite <- Ec, <- Em, <- Ey.
    exact (proj1 (ArchiveFacts.restore_collision now startDate endDate w n w2
                    existing record I1 I2 Hex Hrec Hin Hid R)).
  - intros n -> Hfree.
    apply ArchiveFacts.restore_return in R as [_ [[_ ->]|[u Hr]]]; [exact Hex|].
    apply (ArchiveFacts.restore_each_other _ _ _ _ _ existing Hr); [|exact Hex].
    intros r Hr'. apply filter_In in Hr' as [Hr1 Hr2]. now apply Hfree.
Qed.

End History.

Lemma restore_collision_frame_witness :
  let w := tables (run_all years_back example_history migrated) in
  let existing := mkCost 1 SALARIES 20000 1 2024 5 115 in
  let record := mkArchived 1 SALARIES 10000 1 2024 5 5 100 in
  let restored := mkCost 1 SALARIES 10000 1 2024 5 120 in
  let w2 := mkWorld [restored] (costs_archive w) (debug_log w) in
  restoreFromArchive 120 0 10 w = (Return 1%nat, w2)
  /\ costs w = [existing]
  /\ table_of w = [record]
  /\ In restored (costs w2).
Proof.
  cbv zeta.
  set (w := tables (run_all years_back example_history migrated)).
  set (existing := mkCost 1 SALARIES 20000 1 2024 5 115).
  set (record := mkArchived 1 SALARIES 10000 1 2024 5 5 100).
  assert (R : restoreFromArchive 120 0 10 w
              = (Return 1%nat,
                 mkWorld [mkCost 1 SALARIES 10000 1 2024 5 120]
                         (costs_archive w) (debug_log w))) by reflexivity.
  assert (C : costs w = [existing]) by reflexivity.
  assert (T : table_of w = [record]) by reflexivity.
  split; [exact R|]. split; [exact C|]. split; [exact T|].
  assert (Hex : In existing (costs w)) by (rewrite C; now left).
  assert (Hrec : In record (table_of w)) by (rewrite T; now left).
  exact (proj1 (restore_collision_frame years_back example_history 120 0 10 _ _
                  existing R Hex) record 1%nat eq_refl Hrec eq_refl eq_refl).
Defined.

End ApplicationFacts.
